(** * Anomaly detection for expense transactions

    A shallow embedding of [server/ml/anomalyDetection.js] and the
    properties its specification states about it.

    JavaScript numbers are IEEE 754 binary64 values; they are modelled by
    Rocq's primitive [float], whose operations are the same correctly
    rounded binary64 operations, so the arithmetic of the detectors is the
    arithmetic the program performs.  Promises are modelled by their
    outcome ([result]): a fulfilled value or a thrown error. *)

From Stdlib Require Import ZArith List String Ascii Bool Lia DecimalString.
From Stdlib Require Import Permutation Sorted.
From Stdlib Require Import Floats.
From Stdlib Require Reals Lra.
Import ListNotations.

Set Warnings "-inexact-float".

Local Open Scope string_scope.
Local Open Scope list_scope.

(** ** Outcomes of calls: a value, or a thrown error *)

Inductive JsError :=
| StoreError (msg : string)      (* the document store rejected a query *)
| RangeError (msg : string).     (* thrown by [Date.prototype.toISOString] *)

Inductive result (A : Type) :=
| Ok (a : A)
| Throw (e : JsError).
Arguments Ok {A} a.
Arguments Throw {A} e.

Definition bind {A B} (r : result A) (k : A -> result B) : result B :=
  match r with
  | Ok a => k a
  | Throw e => Throw e
  end.

Notation "x <- r ;; k" := (bind r (fun x => k))
  (at level 61, r at next level, right associativity).

(** A callback that may throw, run over a list from left to right. *)
Fixpoint traverse {A B} (f : A -> result B) (l : list A) : result (list B) :=
  match l with
  | [] => Ok []
  | x :: rest =>
      y <- f x ;;
      ys <- traverse f rest ;;
      Ok (y :: ys)
  end.

(** [Promise.all] over already started calls: every outcome is awaited and
    the join fails when one of them failed. *)
Fixpoint Promise_all {A} (rs : list (result A)) : result (list A) :=
  match rs with
  | [] => Ok []
  | r :: rest =>
      match r, Promise_all rest with
      | Ok a, Ok l => Ok (a :: l)
      | Throw e, _ => Throw e
      | Ok _, Throw e => Throw e
      end
  end.

Definition isThrow {A} (r : result A) : bool :=
  match r with Throw _ => true | Ok _ => false end.

(** ** Numbers *)

Module Num.
Local Open Scope float_scope.

Definition isNaN (x : float) : bool := negb (x =? x).

(** [x > y] of JavaScript. *)
Definition gt (x y : float) : bool := y <? x.

(** [Math.pow(x, 2)].  ECMAScript leaves the accuracy of [Math.pow] to the
    implementation; the square is taken correctly rounded, which is what
    it is wherever the exact square is a binary64 value, as in every
    scenario below. *)
Definition pow2 (x : float) : float := x * x.

(** [Math.min] and [Math.max] of two arguments: NaN is contagious and
    [-0] is below [+0]. *)
Definition min2 (a b : float) : float :=
  if isNaN a || isNaN b then nan
  else if a <? b then a
  else if b <? a then b
  else if get_sign a then a else b.

Definition max2 (a b : float) : float :=
  if isNaN a || isNaN b then nan
  else if a <? b then b
  else if b <? a then a
  else if get_sign a then b else a.

(** [Math.max(...xs)]; [-Infinity] on no arguments. *)
Definition max (xs : list float) : float := fold_left max2 xs neg_infinity.

(** The number an array length is (lengths are below [2 ^ 32]). *)
Definition ofNat (n : nat) : float := of_uint63 (Uint63.of_Z (Z.of_nat n)).

(** The number a small integer is. *)
Definition ofZ (z : Z) : float :=
  if (z <? 0)%Z then - of_uint63 (Uint63.of_Z (- z)) else of_uint63 (Uint63.of_Z z).
End Num.

(** ** Values of record fields *)

(** The [amount] field of a stored transaction is not typed by the store:
    a number, a string, or missing. *)
Inductive JsValue :=
| JUndefined
| JNum (x : float)
| JStr (s : string).

(** The parts of the JavaScript runtime the module calls that work on the
    text of strings or depend on the host: they are parameters of the
    development.  [hostParseFloat s] is [parseFloat(s)],
    [hostToNumber s] is [Number(s)], [hostToFixed x d] is [x.toFixed(d)],
    [hostToUpperCase s] is [s.toUpperCase()] and [LocalTZA t] is the offset,
    in ms, of local time at the time value [t]. *)
Class JsHost := {
  hostParseFloat : string -> float;
  hostToNumber : string -> float;
  hostToFixed : float -> nat -> string;
  hostToUpperCase : string -> string;
  LocalTZA : Z -> Z
}.

Section Coercions.
Context `{JsHost}.
Local Open Scope float_scope.

(** [parseFloat(v)]: the argument is first converted to a string; a
    number prints and reads back as itself, except that [-0] prints as
    ["0"]. *)
Definition parseFloat (v : JsValue) : float :=
  match v with
  | JUndefined => nan
  | JNum x => if is_zero x then 0 else x
  | JStr s => hostParseFloat s
  end.

(** [ToNumber(v)], the coercion applied by the operator [/]. *)
Definition ToNumber (v : JsValue) : float :=
  match v with
  | JUndefined => nan
  | JNum x => x
  | JStr s => hostToNumber s
  end.

(** [v === x] for a number [x]. *)
Definition strictEqualsNumber (v : JsValue) (x : float) : bool :=
  match v with
  | JNum y => y =? x
  | _ => false
  end.
End Coercions.

(** ** Dates *)

(** A [Date] object is its time value: a number of milliseconds since the
    epoch, or NaN for an invalid date.  A record's [date] field is kept as
    the time value of [new Date(record.date)]. *)
Module Date.
Local Open Scope Z_scope.

Definition msPerDay : Z := 86400000.

Definition Day (t : Z) : Z := t / msPerDay.

Definition WeekDay (t : Z) : Z := (Day t + 4) mod 7.

(** Day of the month of the civil date [z] days after the epoch. *)
Definition dayOfMonth (z : Z) : Z :=
  let z := z + 719468 in
  let era := z / 146097 in
  let doe := z - era * 146097 in
  let yoe := (doe - doe / 1460 + doe / 36524 - doe / 146096) / 365 in
  let doy := doe - (365 * yoe + yoe / 4 - yoe / 100) in
  let mp := (5 * doy + 2) / 153 in
  doy - (153 * mp + 2) / 5 + 1.

Definition DateFromTime (t : Z) : Z := dayOfMonth (Day t).

(** The integer a finite time value stands for. *)
Definition toZ (x : float) : Z :=
  match Prim2SF x with
  | S754_finite s m e => cond_Zopp s (Z.shiftl (Zpos m) e)
  | _ => 0
  end.

Definition isValid (t : float) : bool := negb (Num.isNaN t).

Section Local.
Context `{JsHost}.

Definition LocalTime (t : float) : Z := toZ t + LocalTZA (toZ t).

(** [getDate()] and [getDay()] of a valid date. *)
Definition getDate (t : float) : float := Num.ofZ (DateFromTime (LocalTime t)).
Definition getDay (t : float) : float := Num.ofZ (WeekDay (LocalTime t)).
End Local.

(** [toISOString()] throws on an invalid date; only that is observed. *)
Definition toISOString (t : float) : result unit :=
  if isValid t then Ok tt else Throw (RangeError "Invalid time value").
End Date.

(** ** Arrays *)

Module Array.
Local Open Scope float_scope.

(** [Array.prototype.sort(comparefn)].  The comparator's result [v] is
    read through [SortCompare]: NaN counts as [+0], and [x] is placed
    after [y] only when [v > 0].  The sort is stable; for a comparator
    that is a consistent ordering every conforming implementation
    returns this list, and for any other the order is left to the
    implementation.  Each element is inserted into the sorted rest of
    the array, in front of the first element it need not follow. *)
Section Sort.
Context {A : Type} (comparefn : A -> A -> float).

Definition follows (x y : A) : bool := 0 <? comparefn x y.

Fixpoint insert (x : A) (l : list A) : list A :=
  match l with
  | [] => [x]
  | y :: r => if follows x y then y :: insert x r else x :: y :: r
  end.

Definition sort (l : list A) : list A := fold_right insert [] l.
End Sort.

(** [xs.slice(from, to)] for [0 <= from <= to]. *)
Definition slice {A} (xs : list A) (from to : nat) : list A :=
  firstn (to - from) (skipn from xs).

(** [xs.find(p)]. *)
Definition find {A} (p : A -> bool) (xs : list A) : option A := List.find p xs.
End Array.

(** ** Data model *)

Record Transaction := {
  id : string;
  amount : JsValue;
  date : float;                   (* time value of [new Date(date)] *)
  category : option string;
  categoryName : option string
}.

(** A transaction with [anomalyScore] and [reason] attached. *)
Record AnomalyRecord := {
  tx : Transaction;
  anomalyScore : float;
  reason : string
}.

Record CategoryResult := {
  anomalies : list AnomalyRecord;
  categoryId : string;
  message : option string;
  method : option string
}.

(** What [checkTransactionForAnomaly] resolves to, besides [null]. *)
Inductive CheckVerdict :=
| IsAnomaly (r : AnomalyRecord)       (* [{...transaction, anomalyScore, reason, isAnomaly: true}] *)
| NotAnomaly (t : Transaction).       (* [{...transaction, isAnomaly: false}] *)

(** What the module reaches outside itself: the two queries it sends to the
    document store (the expenses of a user, and those of one category, the
    latter ordered by date), the outlier model of the [isolation-forest] package
    (constructing, fitting and scoring; [None] when one of them throws) and
    the clock ([dateNow i] is what [Date.now()] returns while the element of
    index [i] is processed). *)
Record Env := {
  queryExpenses : string -> result (list Transaction);
  queryCategoryExpenses : string -> option string -> result (list Transaction);
  isolationForest : list (list float) -> option (list float);
  dateNow : nat -> float
}.

(** Truthiness of an optional string field. *)
Definition truthy (s : option string) : bool :=
  match s with
  | Some EmptyString | None => false
  | Some _ => true
  end.

(** [s || ''] *)
Definition orEmpty (s : option string) : string :=
  match s with
  | Some s => s
  | None => ""
  end.

Definition setCategoryName (n : option string) (t : Transaction) : Transaction :=
  {| id := id t; amount := amount t; date := date t; category := category t;
     categoryName := n |}.

(** ** Statistics of a context window

    The formulas are written once over the arithmetic they use, so that
    they can be read both in binary64, as the program runs them, and in
    exact real arithmetic. *)

Record Arith (N : Type) := {
  zero : N;
  add : N -> N -> N;
  sub : N -> N -> N;
  mul : N -> N -> N;
  div : N -> N -> N;
  sqrt : N -> N;
  pow2 : N -> N;
  ofNat : nat -> N;
  twoAndHalf : N
}.
Arguments zero {N}. Arguments add {N}. Arguments sub {N}. Arguments mul {N}.
Arguments div {N}. Arguments sqrt {N}. Arguments pow2 {N}. Arguments ofNat {N}.
Arguments twoAndHalf {N}.

Section Statistics.
Context {N : Type} (ar : Arith N).

Definition mean (contextAmounts : list N) : N :=
  div ar (fold_left (fun sum val => add ar sum val) contextAmounts (zero ar))
      (ofNat ar (List.length contextAmounts)).

Definition stdDev (contextAmounts : list N) : N :=
  let mean := mean contextAmounts in
  sqrt ar
    (div ar
       (fold_left (fun sum val => add ar sum (pow2 ar (sub ar val mean)))
                  contextAmounts (zero ar))
       (ofNat ar (List.length contextAmounts))).

Definition threshold (contextAmounts : list N) : N :=
  add ar (mean contextAmounts) (mul ar (twoAndHalf ar) (stdDev contextAmounts)).

Definition score (contextAmounts : list N) (currentAmount : N) : N :=
  div ar (sub ar currentAmount (mean contextAmounts)) (stdDev contextAmounts).
End Statistics.

Definition binary64 : Arith float := {|
  zero := 0%float;
  add := PrimFloat.add;
  sub := PrimFloat.sub;
  mul := PrimFloat.mul;
  div := PrimFloat.div;
  sqrt := PrimFloat.sqrt;
  pow2 := Num.pow2;
  ofNat := Num.ofNat;
  twoAndHalf := 2.5%float
|}.

Module Exact.
Import Reals.

(** [zero], [add], [sub], [mul], [div], [sqrt], [pow2], [ofNat] and
    [twoAndHalf], in this order. *)
Definition arith : Arith R :=
  Build_Arith R 0%R Rplus Rminus Rmult Rdiv R_sqrt.sqrt (fun x => (x * x)%R) INR (5 / 2)%R.
End Exact.

(** ** The module *)

Section AnomalyDetection.
Context `{JsHost}.
Local Open Scope float_scope.

(** *** [preprocessTransactions] *)

(** The callback of the [map]: the feature vector of one transaction,
    [now] being the reading of [Date.now()]. *)
Definition extractFeatures (now : float) (transaction : Transaction) : list float :=
  let amount := parseFloat (amount transaction) in
  let txDate := date transaction in
  let isValidDate := negb (Num.isNaN txDate) in
  [ if Num.isNaN amount then 0 else amount;
    if isValidDate then Date.getDate txDate else 1;
    if isValidDate then Date.getDay txDate else 0;
    if isValidDate
    then Num.min2 1 ((now - txDate) / (1000 * 60 * 60 * 24 * 30))
    else 0.5 ].

Fixpoint preprocessFrom (clock : nat -> float) (i : nat) (transactions : list Transaction)
  : list (list float) :=
  match transactions with
  | [] => []
  | t :: rest => extractFeatures (clock i) t :: preprocessFrom clock (S i) rest
  end.

Definition preprocessTransactions (clock : nat -> float) (transactions : list Transaction)
  : list (list float) :=
  preprocessFrom clock 0 transactions.

(** *** [detectAnomaliesWithSlidingWindow] *)

Definition windowSize : nat := 10.
Definition minWindowSize : nat := 5.

(** The comparator [(a, b) => new Date(a.date) - new Date(b.date)]. *)
Definition byDate (a b : Transaction) : float := date a - date b.

Definition contextWindow (transactions : list Transaction) (i : nat) : list Transaction :=
  let availableContext := Nat.min windowSize i in
  Array.slice transactions (i - availableContext) i.

Definition amountsOf (ts : list Transaction) : list float :=
  map (fun t => parseFloat (amount t)) ts.

Definition windowReason (currentTx : Transaction) (currentAmount mean score : float) : string :=
  if Num.gt score 5 then
    "This expense of $" ++ hostToFixed currentAmount 2
      ++ " is extremely high compared to your typical "
      ++ orEmpty (categoryName currentTx)
      ++ " spending of around $" ++ hostToFixed mean 2 ++ "."
  else if Num.gt score 3 then
    "This expense is significantly higher than your average "
      ++ orEmpty (categoryName currentTx) ++ " spending from this time period."
  else
    "This " ++ orEmpty (categoryName currentTx)
      ++ " expense is higher than your typical spending pattern at the time.".

(** The body of the loop at index [i] of the sorted array: the record
    pushed, if one is. *)
Definition windowStep (transactions : list Transaction) (i : nat) : option AnomalyRecord :=
  match nth_error transactions i with
  | None => None
  | Some currentTx =>
      let contextAmounts := amountsOf (contextWindow transactions i) in
      let mean := mean binary64 contextAmounts in
      let threshold := threshold binary64 contextAmounts in
      let currentAmount := parseFloat (amount currentTx) in
      if Num.gt currentAmount threshold then
        let score := score binary64 contextAmounts currentAmount in
        Some {| tx := currentTx;
                anomalyScore := score;
                reason := windowReason currentTx currentAmount mean score |}
      else None
  end.

(** The [for] loop from [minWindowSize] to the end of the array. *)
Definition windowLoop (transactions : list Transaction) : list AnomalyRecord :=
  fold_left
    (fun anomalies i =>
       match windowStep transactions i with
       | Some a => anomalies ++ [a]
       | None => anomalies
       end)
    (seq minWindowSize (List.length transactions - minWindowSize))
    [].

(** The array is sorted in place: the function is given the caller's
    array and returns what it holds afterwards together with the
    anomalies. *)
Definition detectAnomaliesWithSlidingWindow (transactions : list Transaction)
  : list Transaction * list AnomalyRecord :=
  let transactions := Array.sort byDate transactions in
  (transactions, windowLoop transactions).

(** *** [generateAnomalyReason] *)

Definition weekday : list string :=
  ["Sunday"; "Monday"; "Tuesday"; "Wednesday"; "Thursday"; "Friday"; "Saturday"].

Definition generateAnomalyReason (anomaly : Transaction) (allTransactions : list Transaction)
  : string :=
  let amounts := amountsOf allTransactions in
  let avgAmount := fold_left (fun sum val => sum + val) amounts 0
                   / Num.ofNat (List.length amounts) in
  let maxAmount := Num.max amounts in
  let amountRatio := ToNumber (amount anomaly) / avgAmount in
  if Num.gt amountRatio 3 then
    "This expense is " ++ hostToFixed amountRatio 1 ++ "x higher than your average "
      ++ orEmpty (categoryName anomaly) ++ " spending."
  else if Num.gt amountRatio 1.5 then
    "This expense is significantly higher than your typical "
      ++ orEmpty (categoryName anomaly) ++ " transactions."
  else if strictEqualsNumber (amount anomaly) maxAmount then
    "This is your largest recorded expense in the "
      ++ orEmpty (categoryName anomaly) ++ " category."
  else
    let day := if Date.isValid (date anomaly)
               then nth_error weekday (Z.to_nat (Date.WeekDay (Date.LocalTime (date anomaly))))
               else None in
    "This " ++ orEmpty (categoryName anomaly)
      ++ " expense has an unusual pattern (timing, amount, or frequency) compared to your typical spending.".

(** *** [detectAnomaliesForCategory] *)

(** [categoryId.charAt(0).toUpperCase() + categoryId.slice(1)] *)
Definition capitalize (categoryId : string) : string :=
  match categoryId with
  | EmptyString => ""
  | String c rest => hostToUpperCase (String c "") ++ rest
  end.

(** The display name given to an anomaly that has none: that of a
    transaction of the category that carries one, else the capitalized
    identifier. *)
Definition resolveCategoryName (transactions : list Transaction) (categoryId : string)
           (anomaly : Transaction) : Transaction :=
  if negb (truthy (categoryName anomaly)) && truthy (category anomaly) then
    match Array.find
            (fun t => truthy (categoryName t)
                      && match category t with
                         | Some c => String.eqb c categoryId
                         | None => false
                         end)
            transactions with
    | Some categoryObj => setCategoryName (categoryName categoryObj) anomaly
    | None => setCategoryName (Some (capitalize categoryId)) anomaly
    end
  else anomaly.

Definition withResolvedName (transactions : list Transaction) (categoryId : string)
           (a : AnomalyRecord) : AnomalyRecord :=
  {| tx := resolveCategoryName transactions categoryId (tx a);
     anomalyScore := anomalyScore a;
     reason := reason a |}.

(** [{...transaction, anomalyScore: scores[index]}] for every index; the
    score is missing where [scores] is too short. *)
Fixpoint scoredFrom (scores : list float) (index : nat) (transactions : list Transaction)
  : list (Transaction * option float) :=
  match transactions with
  | [] => []
  | t :: rest => (t, nth_error scores index) :: scoredFrom scores (S index) rest
  end.

(** [.filter(t => t.anomalyScore < -0.3)]: a missing score compares false. *)
Fixpoint belowThreshold (scored : list (Transaction * option float))
  : list (Transaction * float) :=
  match scored with
  | [] => []
  | (t, Some s) :: rest =>
      if s <? -0.3 then (t, s) :: belowThreshold rest else belowThreshold rest
  | (_, None) :: rest => belowThreshold rest
  end.

(** The outlier-model step: the body of the inner [try].  [None] stands
    for an exception, whichever it is: the handler does not look at it. *)
Definition outlierModel (E : Env) (categoryId : string) (transactions : list Transaction)
  : option CategoryResult :=
  let features := preprocessTransactions (dateNow E) transactions in
  match isolationForest E features with
  | None => None
  | Some scores =>
      if existsb Num.isNaN scores then None
      else
        let scoredTransactions := scoredFrom scores 0 transactions in
        let anomalies :=
          Array.sort (fun a b => snd a - snd b) (belowThreshold scoredTransactions) in
        Some {| anomalies :=
                  map (fun a =>
                         withResolvedName transactions categoryId
                           {| tx := fst a;
                              anomalyScore := snd a;
                              reason := generateAnomalyReason (fst a) transactions |})
                      anomalies;
                categoryId := categoryId;
                message := None;
                method := None |}
  end.

(** The handler of the inner [try].  The anomalies found are logged with
    [new Date(a.date).toISOString()], which throws on an invalid date. *)
Definition slidingWindowFallback (categoryId : string) (transactions : list Transaction)
  : result CategoryResult :=
  let '(transactions, anomalies) := detectAnomaliesWithSlidingWindow transactions in
  _ <- (if (0 <? List.length anomalies)%nat
        then traverse (fun a => Date.toISOString (date (tx a))) anomalies
        else Ok []) ;;
  Ok {| anomalies := map (withResolvedName transactions categoryId) anomalies;
        categoryId := categoryId;
        message := None;
        method := Some "Sliding window detection" |}.

(** The body of the outer [try]. *)
Definition categoryBody (E : Env) (userId categoryId : string)
  : result CategoryResult :=
  transactions <- queryCategoryExpenses E userId (Some categoryId) ;;
  if (List.length transactions <? 5)%nat then
    Ok {| anomalies := [];
          categoryId := categoryId;
          message := Some "Not enough transaction data for anomaly detection";
          method := None |}
  else
    match outlierModel E categoryId transactions with
    | Some r => Ok r
    | None => slidingWindowFallback categoryId transactions
    end.

(** The outer handler logs the error and throws it again. *)
Definition detectAnomaliesForCategory (E : Env) (userId categoryId : string)
  : result CategoryResult :=
  match categoryBody E userId categoryId with
  | Ok r => Ok r
  | Throw error => Throw error
  end.

(** *** [detectAnomaliesForUser] *)

(** [categories.add(c)] on a [Set], which keeps insertion order. *)
Definition Set_add (categories : list string) (c : string) : list string :=
  if existsb (String.eqb c) categories then categories else categories ++ [c].

Definition categoriesOf (docs : list Transaction) : list string :=
  fold_left
    (fun categories data =>
       if truthy (category data)
       then Set_add categories (orEmpty (category data))
       else categories)
    docs [].

(** The comparator of the final sort. *)
Definition byDateThenScore (a b : AnomalyRecord) : float :=
  let dateA := date (tx a) in
  let dateB := date (tx b) in
  if negb (dateB =? dateA) then dateB - dateA
  else abs (anomalyScore b) - abs (anomalyScore a).

(** The body of the [try]. *)
Definition userBody (E : Env) (userId : string)
  : result (list AnomalyRecord) :=
  transactionsSnapshot <- queryExpenses E userId ;;
  if (List.length transactionsSnapshot =? 0)%nat then Ok []
  else
    let categories := categoriesOf transactionsSnapshot in
    if (List.length categories =? 0)%nat then Ok []
    else
      let categoryPromises :=
        map (fun categoryId => detectAnomaliesForCategory E userId categoryId) categories in
      results <- Promise_all categoryPromises ;;
      Ok (Array.sort byDateThenScore (flat_map anomalies results)).

(** The handler logs the error and throws it again. *)
Definition detectAnomaliesForUser (E : Env) (userId : string)
  : result (list AnomalyRecord) :=
  match userBody E userId with
  | Ok allAnomalies => Ok allAnomalies
  | Throw error => Throw error
  end.

(** *** [checkTransactionForAnomaly] *)

Definition checkReason (transaction : Transaction) (currentAmount mean score : float)
  : string :=
  if Num.gt score 5 then
    "This expense of $" ++ hostToFixed currentAmount 2
      ++ " is extremely high compared to your typical "
      ++ orEmpty (categoryName transaction)
      ++ " spending of around $" ++ hostToFixed mean 2 ++ "."
  else if Num.gt score 3 then
    "This expense is significantly higher than your average "
      ++ orEmpty (categoryName transaction) ++ " spending."
  else
    "This " ++ orEmpty (categoryName transaction)
      ++ " expense is higher than your typical spending pattern.".

(** The body of the [try]. *)
Definition checkBody (E : Env) (userId : string) (transaction : Transaction)
  : result (option CheckVerdict) :=
  let categoryId := category transaction in
  snapshot <- queryCategoryExpenses E userId categoryId ;;
  let pastTransactions :=
    filter (fun doc => negb (String.eqb (id doc) (id transaction))) snapshot in
  if (List.length pastTransactions <? 5)%nat then Ok None
  else
    let contextAmounts := amountsOf pastTransactions in
    let mean := mean binary64 contextAmounts in
    let threshold := threshold binary64 contextAmounts in
    let currentAmount := parseFloat (amount transaction) in
    if Num.gt currentAmount threshold then
      let score := score binary64 contextAmounts currentAmount in
      Ok (Some (IsAnomaly {| tx := transaction;
                             anomalyScore := score;
                             reason := checkReason transaction currentAmount mean score |}))
    else Ok (Some (NotAnomaly transaction)).

(** The handler returns [null] whatever was thrown. *)
Definition checkTransactionForAnomaly (E : Env) (userId : string) (transaction : Transaction)
  : result (option CheckVerdict) :=
  match checkBody E userId transaction with
  | Ok v => Ok v
  | Throw _ => Ok None
  end.
End AnomalyDetection.

(** ** A host for the examples

    An instance of [JsHost] on which the module can be run: numerals are
    read and printed in decimal with correct rounding, letters are ASCII
    and local time is UTC. *)

Module SampleHost.
Local Open Scope string_scope.
Local Open Scope Z_scope.

Definition isDigit (c : ascii) : bool :=
  let n := nat_of_ascii c in (48 <=? n)%nat && (n <=? 57)%nat.

Definition digitValue (c : ascii) : Z := Z.of_nat (nat_of_ascii c) - 48.

Definition isSpace (c : ascii) : bool :=
  let n := nat_of_ascii c in
  (n =? 32)%nat || ((9 <=? n)%nat && (n <=? 13)%nat).

Fixpoint skipSpaces (s : string) : string :=
  match s with
  | String c r => if isSpace c then skipSpaces r else s
  | EmptyString => s
  end.

(** The longest prefix of digits: its value after [acc], how many digits
    were read, and the rest. *)
Fixpoint readDigits (s : string) (acc : Z) (count : nat) : Z * nat * string :=
  match s with
  | String c r => if isDigit c then readDigits r (10 * acc + digitValue c) (S count)
                  else (acc, count, s)
  | EmptyString => (acc, count, s)
  end.

Definition readSign (s : string) : bool * string :=
  match s with
  | String "-" r => (true, r)
  | String "+" r => (false, r)
  | _ => (false, s)
  end.

(** The binary64 value nearest to [m * 10 ^ e], with sign [neg]. *)
Definition decimalToFloat (neg : bool) (m e : Z) : float :=
  if m =? 0 then (if neg then neg_zero else PrimFloat.zero)
  else if 0 <=? e then
    SF2Prim (binary_normalize prec emax (cond_Zopp neg (m * 10 ^ e)) 0 false)
  else
    let '(q, e', l) := SFdiv_core_binary prec emax m 0 (10 ^ (- e)) 0 in
    SF2Prim (binary_round_aux prec emax neg q e' l).

(** A decimal literal at the head of [s]: the value and the rest. *)
Definition readDecimal (s : string) : option (float * string) :=
  let '(neg, s) := readSign s in
  if prefix "Infinity" s then
    Some (if neg then neg_infinity else infinity,
          substring 8 (String.length s - 8) s)
  else
    let '(m, n1, s) := readDigits s 0 0 in
    let '(m, n2, s) :=
      match s with
      | String "." r => readDigits r m 0
      | _ => (m, 0%nat, s)
      end in
    if (n1 + n2 =? 0)%nat then None
    else
      let '(x, s) :=
        match s with
        | String c r =>
            if (Ascii.eqb c "e" || Ascii.eqb c "E")%bool then
              let '(eneg, r') := readSign r in
              let '(x, n3, r'') := readDigits r' 0 0 in
              if (n3 =? 0)%nat then (0, s) else (cond_Zopp eneg x, r'')
            else (0, s)
        | EmptyString => (0, s)
        end in
      Some (decimalToFloat neg m (x - Z.of_nat n2), s).

Definition parseFloatString (s : string) : float :=
  match readDecimal (skipSpaces s) with
  | Some (x, _) => x
  | None => nan
  end.

(** [Number(s)] for decimal literals: the whole string has to be one, and
    the empty string is [0]. *)
Definition toNumberString (s : string) : float :=
  match skipSpaces s with
  | EmptyString => PrimFloat.zero
  | s' =>
      match readDecimal s' with
      | Some (x, rest) =>
          match skipSpaces rest with
          | EmptyString => x
          | _ => nan
          end
      | None => nan
      end
  end.

Fixpoint zeros (n : nat) : string :=
  match n with
  | O => ""
  | S n => String "0" (zeros n)
  end.

(** [n / 10 ^ d] written with [d] decimals. *)
Definition fixedDigits (n : Z) (d : nat) : string :=
  let digits := DecimalString.NilZero.string_of_uint (N.to_uint (Z.to_N n)) in
  let digits := zeros (S d - String.length digits) ++ digits in
  let k := String.length digits in
  match d with
  | O => digits
  | _ => substring 0 (k - d) digits ++ "." ++ substring (k - d) d digits
  end.

(** [x.toFixed(d)] for [|x| < 1e21]: the decimal nearest to the exact
    value of [x], ties away from zero. *)
Definition toFixed (x : float) (d : nat) : string :=
  match Prim2SF x with
  | S754_nan => "NaN"
  | S754_infinity s => if s then "-Infinity" else "Infinity"
  | S754_zero _ => fixedDigits 0 d
  | S754_finite s m e =>
      let scaled := Zpos m * 10 ^ Z.of_nat d in
      let n := if 0 <=? e then scaled * 2 ^ e
               else (2 * scaled + 2 ^ (- e)) / 2 ^ (1 - e) in
      (if s then "-" else "") ++ fixedDigits n d
  end.

Definition upperAscii (c : ascii) : ascii :=
  let n := nat_of_ascii c in
  if ((97 <=? n) && (n <=? 122))%nat then ascii_of_nat (n - 32) else c.

Fixpoint toUpperCase (s : string) : string :=
  match s with
  | EmptyString => EmptyString
  | String c r => String (upperAscii c) (toUpperCase r)
  end.

Definition host : JsHost := {|
  hostParseFloat := parseFloatString;
  hostToNumber := toNumberString;
  hostToFixed := toFixed;
  hostToUpperCase := toUpperCase;
  LocalTZA := fun _ => 0
|}.
End SampleHost.

(** ** Notions used to state the properties *)

(** [xs[j] = x] for an index of the array. *)
Definition assign {A} (xs : list A) (j : nat) (x : A) : list A :=
  if (j <? List.length xs)%nat then firstn j xs ++ x :: skipn (S j) xs else xs.

(** No transaction is dated before the one in front of it. *)
Definition inDateOrder (transactions : list Transaction) : Prop :=
  Sorted (fun a b => (date a <=? date b)%float = true) transactions.

(** [a] may stand in front of [b] in the feed: it is more recent, or of the
    same date and at least as anomalous. *)
Definition precedes (a b : AnomalyRecord) : bool :=
  ((date (tx b) <? date (tx a))
   || ((date (tx a) =? date (tx b)) && (abs (anomalyScore b) <=? abs (anomalyScore a))))%float.

Definition feedOrdered (feed : list AnomalyRecord) : Prop :=
  StronglySorted (fun a b => precedes a b = true) feed.

Definition hasValidDate (a : AnomalyRecord) : Prop := Date.isValid (date (tx a)) = true.

Definition scoreIsNumber (a : AnomalyRecord) : Prop := Num.isNaN (anomalyScore a) = false.

(** [word] occurs in [sentence]. *)
Definition mentions (word sentence : string) : bool :=
  match index 0 word sentence with
  | Some _ => true
  | None => false
  end.

(** A record is flagged by the step at index [i]. *)
Definition flaggedAt `{JsHost} (transactions : list Transaction) (i : nat) : bool :=
  match windowStep transactions i with
  | Some _ => true
  | None => false
  end.

(** The score of a verdict of [checkTransactionForAnomaly], when it says
    the transaction is an anomaly. *)
Definition verdictScore (r : result (option CheckVerdict)) : option float :=
  match r with
  | Ok (Some (IsAnomaly a)) => Some (anomalyScore a)
  | _ => None
  end.

(** Readings of binary64 values through their specification. *)
Module Binary64.
Local Open Scope Z_scope.

Definition isNan (x : spec_float) : bool :=
  match x with S754_nan => true | _ => false end.

(** The value is finite or infinite, not zero, and has the sign [s]. *)
Definition signedNonzero (s : bool) (x : spec_float) : Prop :=
  match x with
  | S754_finite s' _ _ | S754_infinity s' => s' = s
  | _ => False
  end.

(** The value is NaN or has its sign bit clear. *)
Definition nonnegOrNan (x : spec_float) : Prop :=
  match x with
  | S754_zero s | S754_infinity s | S754_finite s _ _ => s = false
  | S754_nan => True
  end.

(** The integer a finite value stands for once its exponent is lowered
    to [ez]. *)
Definition aligned (s : bool) (m : positive) (e ez : Z) : Z :=
  cond_Zopp s (Zpos (fst (shl_align m e ez))).

(** An integer that orders the values as [SFcompare] does. *)
Definition rankSF (x : spec_float) : Z :=
  match x with
  | S754_zero _ | S754_nan => 0
  | S754_infinity s => cond_Zopp s (4096 * 2 ^ prec)
  | S754_finite s m e => cond_Zopp s ((e - emin) * 2 ^ prec + Zpos m)
  end.

Definition rank (x : float) : Z := rankSF (Prim2SF x).

Definition nonneg (x : float) : Prop := nonnegOrNan (Prim2SF x).

(** Zero or finite. *)
Definition isBounded (x : spec_float) : bool :=
  match x with
  | S754_zero _ | S754_finite _ _ _ => true
  | _ => false
  end.

(** The exact value of a zero or finite number, in units of the least
    positive one. *)
Definition scaled (x : spec_float) : Z :=
  match x with
  | S754_finite s m e => cond_Zopp s (Zpos m * 2 ^ (e - SpecFloat.emin prec emax))
  | _ => 0
  end.

(** The last step of a rounding: a mantissa that has grown to [2 ^ prec]
    is renormalized, and an exponent out of range becomes an infinity. *)
Definition finish (s : bool) (m e : Z) : spec_float :=
  let '(mrs, e') := shr_fexp prec emax m e loc_Exact in
  match shr_m mrs with
  | Z0 => S754_zero s
  | Zpos p => if e' <=? emax - prec then S754_finite s p e' else S754_infinity s
  | Zneg _ => S754_nan
  end.
End Binary64.

(** The ranks of the two sort keys of the feed, and the anomalies that have
    both keys. *)
Definition dateRank (a : AnomalyRecord) : Z := Binary64.rank (date (tx a)).
Definition scoreRank (a : AnomalyRecord) : Z := Binary64.rank (abs (anomalyScore a)).
Definition keyed (a : AnomalyRecord) : Prop := hasValidDate a /\ scoreIsNumber a.

(** [x] need not follow [y] under a comparator. *)
Definition inPlace {A} (comparefn : A -> A -> float) (x y : A) : Prop :=
  Array.follows comparefn x y = false.

(** ** Scenarios *)

Module Scenario.
Local Open Scope float_scope.

(** Midnight UTC, [n] days after 2024-02-29 (a Thursday). *)
Definition utc (n : Z) : float := Num.ofZ (1709164800000 + n * 86400000).

Definition expense (i : string) (a : float) (d : float) : Transaction :=
  {| id := i; amount := JNum a; date := d;
     category := Some "food"; categoryName := Some "Food" |}.

Definition envOf (docs : list Transaction) (forest : list (list float) -> option (list float))
  : Env :=
  {| queryExpenses := fun _ => Ok docs;
     queryCategoryExpenses := fun _ _ => Ok docs;
     isolationForest := forest;
     dateNow := fun _ => utc 40 |}.

(** The store does not answer. *)
Definition brokenStore : Env :=
  {| queryExpenses := fun _ => Throw (StoreError "unavailable");
     queryCategoryExpenses := fun _ _ => Throw (StoreError "unavailable");
     isolationForest := fun _ => None;
     dateNow := fun _ => utc 40 |}.

(** Ten expenses of 100 on consecutive days, then one of 10000. *)
Definition flatSeries : list Transaction :=
  map (fun n => expense "t" 100 (utc (Z.of_nat n))) (seq 0 10)
  ++ [expense "big" 10000 (utc 10)].

(** Eleven expenses of 100 on consecutive days, then one of 10000. *)
Definition longSeries : list Transaction :=
  map (fun n => expense "t" 100 (utc (Z.of_nat n))) (seq 0 11)
  ++ [expense "big" 10000 (utc 11)].

(** Amounts 1, 3, 4, 8, 9 (mean 5, variance 46/5), then the first binary64
    value above the threshold they give. *)
Definition roundingSeries : list Transaction :=
  [ expense "a" 1 (utc 0); expense "b" 3 (utc 1); expense "c" 4 (utc 2);
    expense "d" 8 (utc 3); expense "e" 9 (utc 4);
    expense "f" 0x1.92a6ea673af8fp+3 (utc 5) ].

(** Six expenses; the last, of 500, has a date that does not parse. *)
Definition undatedOutlier : list Transaction :=
  [ expense "a" 50 (utc 0); expense "b" 52 (utc 1); expense "c" 49 (utc 2);
    expense "d" 51 (utc 3); expense "e" 53 (utc 4); expense "f" 500 nan ].

Definition threeExpenses : list Transaction :=
  [ expense "a" 50 (utc 0); expense "b" 52 (utc 1); expense "c" 4900 (utc 2) ].

(** Six expenses, out of date order. *)
Definition shuffled : list Transaction :=
  [ expense "b" 52 (utc 1); expense "a" 50 (utc 0); expense "c" 49 (utc 2);
    expense "d" 51 (utc 3); expense "e" 53 (utc 4); expense "f" 500 (utc 5) ].

Definition consecutive : list Transaction :=
  [ expense "a" 50 (utc 0); expense "b" 52 (utc 1); expense "c" 49 (utc 2);
    expense "d" 51 (utc 3); expense "e" 53 (utc 4); expense "f" 500 (utc 5) ].

(** The model fails. *)
Definition failingForest : list (list float) -> option (list float) := fun _ => None.

(** The model scores ["b"], ["d"] and the undated ["f"] below [-0.3]. *)
Definition threeOutliers : list (list float) -> option (list float) :=
  fun _ => Some [-0.1; -0.5; -0.1; -0.4; -0.1; -0.45].
End Scenario.

(** * The category manager

    The handlers of the [CategoryManager] component.  A handler runs to
    completion on the state of the render it was created in; it is modelled
    by the state it leaves and the document it tried to write, if any. *)

(** The string methods the component calls: [hostTrim s] is [s.trim()],
    [hostToLowerCase s] is [s.toLowerCase()] and [hostNumberToString x] is
    [x.toString()]. *)
Class JsStrings := {
  hostTrim : string -> string;
  hostToLowerCase : string -> string;
  hostNumberToString : float -> string
}.

Module CategoryManager.

Record Category := {
  id : string;
  name : string;
  budget : float
}.

(** The user document of the store: [getDoc] answers [None] when the
    document does not exist, and the [categories] field of the document,
    which may be missing, when it does. *)
Record Firestore := {
  getDoc : string -> result (option (option (list Category)));
  setDoc : string -> list Category -> result unit;
  updateDoc : string -> list Category -> result unit
}.

(** The state of the component. *)
Record State := {
  categories : list Category;
  newCategory : string;
  error : string;
  editingCategory : option Category
}.

Definition setCategories (cs : list Category) (st : State) : State :=
  {| categories := cs; newCategory := newCategory st; error := error st;
     editingCategory := editingCategory st |}.

Definition setNewCategory (s : string) (st : State) : State :=
  {| categories := categories st; newCategory := s; error := error st;
     editingCategory := editingCategory st |}.

Definition setError (s : string) (st : State) : State :=
  {| categories := categories st; newCategory := newCategory st; error := s;
     editingCategory := editingCategory st |}.

Definition defaultCategories : list Category :=
  [ {| id := "1"; name := "Food & Dining"; budget := 0 |};
    {| id := "2"; name := "Transportation"; budget := 0 |};
    {| id := "3"; name := "Bills & Utilities"; budget := 0 |};
    {| id := "4"; name := "Entertainment"; budget := 0 |};
    {| id := "5"; name := "Shopping"; budget := 0 |};
    {| id := "6"; name := "Others"; budget := 0 |} ].

(** Truthiness of a string. *)
Definition nonEmpty (s : string) : bool :=
  match s with
  | EmptyString => false
  | String _ _ => true
  end.

Section Handlers.
Context `{JsHost} `{JsStrings}.
Variable db : Firestore.
Variable userId : string.

Definition fetchCategories (st : State) : State * option (list Category) :=
  if negb (nonEmpty userId) then (st, None)
  else
    match getDoc db userId with
    | Ok (Some userData) =>
        (setCategories (match userData with Some cs => cs | None => [] end) st, None)
    | Ok None =>
        match setDoc db userId defaultCategories with
        | Ok _ => (setCategories defaultCategories st, Some defaultCategories)
        | Throw _ => (setError "Failed to fetch categories" st, Some defaultCategories)
        end
    | Throw _ => (setError "Failed to fetch categories" st, None)
    end.

(** [now] is the reading of [Date.now()]. *)
Definition handleAddCategory (now : float) (st : State) : State * option (list Category) :=
  if negb (nonEmpty (hostTrim (newCategory st))) then
    (setError "Category name cannot be empty" st, None)
  else if existsb (fun cat => hostToLowerCase (name cat)
                              =? hostToLowerCase (hostTrim (newCategory st)))
                  (categories st) then
    (setError "Category already exists" st, None)
  else
    let newCategoryObj :=
      {| id := hostNumberToString now;
         name := hostTrim (newCategory st);
         budget := 0 |} in
    let updatedCategories := categories st ++ [newCategoryObj] in
    match updateDoc db userId updatedCategories with
    | Ok _ =>
        (setError "" (setNewCategory "" (setCategories updatedCategories st)),
         Some updatedCategories)
    | Throw _ => (setError "Failed to add category" st, Some updatedCategories)
    end.

Definition handleDeleteCategory (categoryId : string) (st : State)
  : State * option (list Category) :=
  let updatedCategories :=
    filter (fun cat => negb (id cat =? categoryId)) (categories st) in
  match updateDoc db userId updatedCategories with
  | Ok _ => (setCategories updatedCategories st, Some updatedCategories)
  | Throw _ => (setError "Failed to delete category" st, Some updatedCategories)
  end.

Definition handleUpdateCategory (categoryId newBudget : string) (st : State)
  : State * option (list Category) :=
  let updatedCategories :=
    map (fun cat =>
           if id cat =? categoryId
           then {| id := id cat; name := name cat; budget := hostToNumber newBudget |}
           else cat)
        (categories st) in
  match updateDoc db userId updatedCategories with
  | Ok _ => (setCategories updatedCategories st, Some updatedCategories)
  | Throw _ => (setError "Failed to update category budget" st, Some updatedCategories)
  end.
End Handlers.

(** No two categories have names that differ by case only. *)
Definition distinctNames `{JsStrings} (cs : list Category) : Prop :=
  NoDup (map (fun cat => hostToLowerCase (name cat)) cs).

End CategoryManager.

(** Strings for the examples: ASCII letters and white space, and integers
    printed in decimal. *)
Module SampleStrings.

Fixpoint trimEnd (s : string) : string :=
  match s with
  | EmptyString => EmptyString
  | String c r =>
      match trimEnd r with
      | EmptyString => if SampleHost.isSpace c then EmptyString else String c EmptyString
      | r' => String c r'
      end
  end.

Definition trim (s : string) : string := trimEnd (SampleHost.skipSpaces s).

Definition lowerAscii (c : ascii) : ascii :=
  let n := nat_of_ascii c in
  if ((65 <=? n) && (n <=? 90))%nat then ascii_of_nat (n + 32) else c.

Fixpoint toLowerCase (s : string) : string :=
  match s with
  | EmptyString => EmptyString
  | String c r => String (lowerAscii c) (toLowerCase r)
  end.

Definition strings : JsStrings := {|
  hostTrim := trim;
  hostToLowerCase := toLowerCase;
  hostNumberToString := fun x => SampleHost.toFixed x 0
|}.
End SampleStrings.

Module ManagerScenario.
Import CategoryManager.

(** A store that accepts every write, and one that refuses them. *)
Definition accepting : Firestore :=
  {| getDoc := fun _ => Ok None;
     setDoc := fun _ _ => Ok tt;
     updateDoc := fun _ _ => Ok tt |}.

Definition refusing : Firestore :=
  {| getDoc := fun _ => Throw (StoreError "unavailable");
     setDoc := fun _ _ => Throw (StoreError "unavailable");
     updateDoc := fun _ _ => Throw (StoreError "unavailable") |}.

Definition typing (text : string) : State :=
  {| categories := defaultCategories; newCategory := text; error := "";
     editingCategory := None |}.
End ManagerScenario.

(** ** Proof steps *)

(** Closes the cases of a statement on the shape of a result. *)
Ltac shape :=
  repeat match goal with
         | H : _ /\ _ |- _ => destruct H
         | H : _ \/ _ |- _ => destruct H
         end;
  try lia; try discriminate; try congruence; auto;
  try (right; discriminate); try (left; lia).

(** * Properties *)

(** ** The binary64 specification

    Facts on [SpecFloat], the specification the primitive operations are
    axiomatized against: a nonzero difference never rounds to zero, and the
    comparisons are those of an integer rank. *)

Module Binary64Spec.
Import Binary64.
Local Open Scope Z_scope.

Abbreviation fexp := (SpecFloat.fexp prec emax).
Abbreviation emin := (SpecFloat.emin prec emax).

Lemma emin_value : emin = -1074.
Proof. reflexivity. Qed.

Lemma digits2_size (m : positive) : digits2_pos m = Pos.size m.
Proof. induction m; simpl; congruence. Qed.

Lemma digits_upper (m : positive) : Zpos m < 2 ^ Zpos (digits2_pos m).
Proof.
  rewrite digits2_size.
  pose proof (Pos.size_gt m) as Hgt.
  apply Pos2Z.pos_lt_pos in Hgt.
  now rewrite Pos2Z.inj_pow in Hgt.
Qed.

Lemma digits_lower (m : positive) : 2 ^ (Zpos (digits2_pos m) - 1) <= Zpos m.
Proof.
  rewrite digits2_size.
  pose proof (Pos.size_le m) as Hle.
  apply Pos2Z.pos_le_pos in Hle.
  rewrite Pos2Z.inj_pow in Hle.
  assert (Hpow : 2 ^ Zpos (Pos.size m) = 2 * 2 ^ (Zpos (Pos.size m) - 1)).
  { rewrite <- Z.pow_succ_r by lia. f_equal. lia. }
  rewrite Hpow in Hle.
  set (k := 2 ^ (Zpos (Pos.size m) - 1)) in *. lia.
Qed.

Lemma iter_pos_nat {A} (f : A -> A) (p : positive) (x : A) :
  SpecFloat.iter_pos f p x = Nat.iter (Pos.to_nat p) f x.
Proof.
  revert x. induction p as [p IH | p IH |]; intro x; cbn [SpecFloat.iter_pos].
  - rewrite !IH, Pos2Nat.inj_xI, <- Nat.iter_succ_r, <- Nat.iter_add.
    f_equal. lia.
  - rewrite !IH, Pos2Nat.inj_xO, <- Nat.iter_add. f_equal. lia.
  - reflexivity.
Qed.

Lemma shr_1_m (r : shr_record) : 0 <= shr_m r -> shr_m (shr_1 r) = Z.div2 (shr_m r).
Proof.
  destruct r as [m r s]. simpl. intros Hm.
  destruct m as [| p | p]; [reflexivity | | lia].
  destruct p; reflexivity.
Qed.

Lemma shr_iter_m (n : nat) (r : shr_record) :
  0 <= shr_m r -> shr_m (Nat.iter n shr_1 r) = shr_m r / 2 ^ Z.of_nat n.
Proof.
  intros Hm. induction n as [| n IH].
  - simpl. now rewrite Z.div_1_r.
  - assert (Hpow : 0 < 2 ^ Z.of_nat n) by (apply Z.pow_pos_nonneg; lia).
    rewrite Nat2Z.inj_succ, Z.pow_succ_r, Nat.iter_succ by lia.
    rewrite shr_1_m by (rewrite IH; apply Z.div_pos; lia).
    rewrite IH, Z.div2_div, Z.div_div by lia.
    f_equal. apply Z.mul_comm.
Qed.

(** Shifting a positive mantissa by fewer bits than it has leaves a
    positive mantissa. *)
Lemma shr_positive (m : positive) (l : location) (e n : Z) :
  n < Zpos (digits2_pos m) ->
  0 < shr_m (fst (shr (shr_record_of_loc (Zpos m) l) e n)).
Proof.
  intros Hn. unfold shr.
  assert (Hrec : shr_m (shr_record_of_loc (Zpos m) l) = Zpos m)
    by (destruct l as [| []]; reflexivity).
  destruct n as [| p | p]; simpl; try (rewrite Hrec; lia).
  rewrite iter_pos_nat, shr_iter_m by (rewrite Hrec; lia).
  rewrite Hrec, positive_nat_Z.
  apply Z.div_str_pos. split; [lia |].
  transitivity (2 ^ (Zpos (digits2_pos m) - 1)); [| apply digits_lower].
  apply Z.pow_le_mono_r; lia.
Qed.

Lemma shr_exponent (r : shr_record) (e n : Z) :
  snd (shr r e n) = e + Z.max n 0.
Proof. unfold shr. destruct n; simpl; lia. Qed.

Lemma fexp_shift (d e : Z) : emin <= e -> 0 < d -> fexp (d + e) - e < d.
Proof. unfold SpecFloat.fexp. rewrite emin_value. unfold prec. lia. Qed.

Lemma binary_round_aux_nonzero (s : bool) (m : positive) (e : Z) (l : location) :
  emin <= e -> signedNonzero s (binary_round_aux prec emax s (Zpos m) e l).
Proof.
  intros He. unfold binary_round_aux, shr_fexp.
  set (n1 := fexp (Zdigits2 (Zpos m) + e) - e).
  pose proof (shr_positive m l e n1) as H1.
  pose proof (shr_exponent (shr_record_of_loc (Zpos m) l) e n1) as E1.
  destruct (shr (shr_record_of_loc (Zpos m) l) e n1) as [mrs' e'] eqn:Hshr.
  simpl in H1, E1.
  assert (Hpos1 : 0 < shr_m mrs').
  { apply H1. unfold n1. change (Zdigits2 (Zpos m)) with (Zpos (digits2_pos m)).
    apply fexp_shift; lia. }
  set (m2 := round_nearest_even (shr_m mrs') (loc_of_shr_record mrs')).
  assert (Hpos2 : 0 < m2).
  { unfold m2, round_nearest_even.
    destruct (loc_of_shr_record mrs') as [| []]; try lia.
    destruct (Z.even (shr_m mrs')); lia. }
  destruct m2 as [| p2 | p2] eqn:Hm2; try lia.
  set (n2 := fexp (Zdigits2 (Zpos p2) + e') - e').
  pose proof (shr_positive p2 loc_Exact e' n2) as H2.
  destruct (shr (shr_record_of_loc (Zpos p2) loc_Exact) e' n2) as [mrs'' e''] eqn:Hshr2.
  simpl in H2.
  assert (Hpos3 : 0 < shr_m mrs'').
  { apply H2. unfold n2. change (Zdigits2 (Zpos p2)) with (Zpos (digits2_pos p2)).
    apply fexp_shift; lia. }
  destruct (shr_m mrs''); try lia.
  destruct (e'' <=? emax - prec); simpl; reflexivity.
Qed.

Lemma shl_align_value (m : positive) (e ez : Z) :
  ez <= e -> Zpos (fst (shl_align m e ez)) = Zpos m * 2 ^ (e - ez).
Proof.
  intros Hle. unfold shl_align.
  destruct (ez - e) as [| p | p] eqn:Hd; cbn [fst].
  - replace (e - ez) with 0 by lia. now rewrite Z.pow_0_r, Z.mul_1_r.
  - lia.
  - replace (e - ez) with (Zpos p) by lia.
    change (Pos.iter xO m p) with (shift_pos p m).
    rewrite shift_pos_correct, Z.pow_pos_fold. apply Z.mul_comm.
Qed.

Lemma shl_align_exponent (m : positive) (e ez : Z) :
  snd (shl_align m e ez) = Z.min e ez.
Proof. unfold shl_align. destruct (ez - e) eqn:Hd; simpl; lia. Qed.

Lemma binary_round_nonzero (s : bool) (m : positive) (e : Z) :
  emin <= e -> signedNonzero s (binary_round prec emax s m e).
Proof.
  intros He. unfold binary_round.
  pose proof (shl_align_exponent m e (fexp (Zpos (digits2_pos m) + e))) as Hex.
  destruct (shl_align m e (fexp (Zpos (digits2_pos m) + e))) as [mz ez].
  simpl in Hex. apply binary_round_aux_nonzero.
  subst ez. unfold SpecFloat.fexp. lia.
Qed.

(** What validity says of a finite value. *)
Lemma bounded_canonical (m : positive) (e : Z) :
  bounded prec emax m e = true ->
  emin <= e <= emax - prec
  /\ Zpos (digits2_pos m) <= prec
  /\ (e = emin \/ Zpos (digits2_pos m) = prec).
Proof.
  unfold bounded, canonical_mantissa, SpecFloat.fexp.
  rewrite andb_true_iff, Z.eqb_eq, Z.leb_le. rewrite emin_value. unfold prec, emax.
  lia.
Qed.

Lemma bounded_mantissa (m : positive) (e : Z) :
  bounded prec emax m e = true -> Zpos m < 2 ^ prec.
Proof.
  intros Hb. apply bounded_canonical in Hb. destruct Hb as (_ & Hd & _).
  eapply Z.lt_le_trans; [apply digits_upper |].
  apply Z.pow_le_mono_r; lia.
Qed.

Lemma aligned_lt (mx my : positive) (ex ey : Z) :
  bounded prec emax mx ex = true -> bounded prec emax my ey = true ->
  ex < ey ->
  Zpos mx * 2 ^ (ex - ex) < Zpos my * 2 ^ (ey - ex).
Proof.
  intros Hx Hy Hlt.
  pose proof (bounded_mantissa _ _ Hx) as Hmx.
  apply bounded_canonical in Hx, Hy.
  destruct Hx as (Hex & _ & _). destruct Hy as (Hey & _ & [Hy | Hy]); [lia |].
  pose proof (digits_lower my) as Hmy. rewrite Hy in Hmy.
  rewrite Z.sub_diag, Z.mul_1_r.
  assert (Hp : 2 ^ 1 <= 2 ^ (ey - ex)) by (apply Z.pow_le_mono_r; lia).
  change (2 ^ 1) with 2 in Hp.
  assert (Hq : 2 ^ prec = 2 ^ (prec - 1) * 2) by reflexivity.
  set (k := 2 ^ (ey - ex)) in *. set (a := 2 ^ (prec - 1)) in *.
  set (b := 2 ^ prec) in *. nia.
Qed.

Lemma aligned_compare (mx my : positive) (ex ey : Z) :
  bounded prec emax mx ex = true -> bounded prec emax my ey = true ->
  (Zpos (fst (shl_align mx ex (Z.min ex ey))) ?= Zpos (fst (shl_align my ey (Z.min ex ey))))
  = match ex ?= ey with
    | Lt => Lt
    | Gt => Gt
    | Eq => Pos.compare_cont Eq mx my
    end.
Proof.
  intros Hx Hy.
  rewrite !shl_align_value by lia.
  destruct (Z.compare_spec ex ey) as [Heq | Hlt | Hgt].
  - subst ey. rewrite Z.min_id, Z.sub_diag, !Z.mul_1_r. reflexivity.
  - rewrite Z.min_l by lia. apply Z.compare_lt_iff. now apply aligned_lt.
  - rewrite Z.min_r by lia. apply Z.compare_gt_iff. now apply aligned_lt.
Qed.

Lemma rankSF_finite (m : positive) (e : Z) :
  bounded prec emax m e = true ->
  0 < (e - emin) * 2 ^ prec + Zpos m < 4096 * 2 ^ prec.
Proof.
  intros Hb. pose proof (bounded_mantissa _ _ Hb) as Hm.
  apply bounded_canonical in Hb. destruct Hb as (He & _).
  rewrite emin_value in *. unfold emax, prec in *.
  set (k := 2 ^ 53) in *. nia.
Qed.

Lemma rankSF_finite_compare (m1 m2 : positive) (e1 e2 : Z) :
  bounded prec emax m1 e1 = true -> bounded prec emax m2 e2 = true ->
  ((e1 - emin) * 2 ^ prec + Zpos m1 ?= (e2 - emin) * 2 ^ prec + Zpos m2)
  = match e1 ?= e2 with
    | Lt => Lt
    | Gt => Gt
    | Eq => Pos.compare_cont Eq m1 m2
    end.
Proof.
  intros H1 H2.
  pose proof (bounded_mantissa _ _ H1) as Hm1.
  pose proof (bounded_mantissa _ _ H2) as Hm2.
  set (k := 2 ^ prec) in *.
  destruct (Z.compare_spec e1 e2) as [Heq | Hlt | Hgt].
  - subst e2. rewrite Z.add_compare_mono_l. reflexivity.
  - apply Z.compare_lt_iff. nia.
  - apply Z.compare_gt_iff. nia.
Qed.

Lemma SFcompare_rank (x y : spec_float) :
  valid_binary x = true -> valid_binary y = true ->
  isNan x = false -> isNan y = false ->
  SFcompare x y = Some (rankSF x ?= rankSF y).
Proof.
  intros Hx Hy Nx Ny.
  destruct x as [sx | sx | | sx mx ex], y as [sy | sy | | sy my ey];
    try discriminate; simpl in Hx, Hy;
    try (pose proof (rankSF_finite _ _ Hx) as Rx);
    try (pose proof (rankSF_finite _ _ Hy) as Ry);
    cbn [SFcompare rankSF]; f_equal; symmetry;
    try (destruct sx, sy; reflexivity);
    set (k := 2 ^ prec) in *.
  - destruct sy; cbn [cond_Zopp];
      [apply Z.compare_gt_iff | apply Z.compare_lt_iff]; lia.
  - destruct sx, sy; cbn [cond_Zopp];
      first [apply Z.compare_gt_iff; lia | apply Z.compare_lt_iff; lia].
  - destruct sx; cbn [cond_Zopp];
      [apply Z.compare_lt_iff | apply Z.compare_gt_iff]; lia.
  - destruct sx, sy; cbn [cond_Zopp];
      first [apply Z.compare_gt_iff; lia | apply Z.compare_lt_iff; lia].
  - destruct sx, sy; cbn [cond_Zopp].
    + subst k. rewrite Z.compare_opp. rewrite (rankSF_finite_compare _ _ _ _ Hy Hx).
      rewrite (Z.compare_antisym ey ex).
      destruct (ey ?= ex); simpl; try reflexivity.
      rewrite (Pos.compare_cont_antisym mx my Eq). reflexivity.
    + apply Z.compare_lt_iff. lia.
    + apply Z.compare_gt_iff. lia.
    + subst k. apply rankSF_finite_compare; assumption.
Qed.

Lemma compare_aligned (sx sy : bool) (mx my : positive) (ex ey : Z) :
  bounded prec emax mx ex = true -> bounded prec emax my ey = true ->
  SFcompare (S754_finite sx mx ex) (S754_finite sy my ey)
  = Some (aligned sx mx ex (Z.min ex ey) ?= aligned sy my ey (Z.min ex ey)).
Proof.
  intros Hx Hy. unfold aligned. cbn [SFcompare]. f_equal.
  pose proof (aligned_compare _ _ _ _ Hx Hy) as Hc.
  destruct sx, sy; cbn [cond_Zopp].
  - rewrite Z.compare_opp.
    rewrite (Z.compare_antisym (Zpos (fst (shl_align mx ex (Z.min ex ey))))), Hc.
    destruct (ex ?= ey); reflexivity.
  - reflexivity.
  - reflexivity.
  - now rewrite Hc.
Qed.

Lemma normalize_positive (d ez : Z) :
  emin <= ez ->
  SFltb (S754_zero false) (binary_normalize prec emax d ez false) = (0 <? d).
Proof.
  intros He. destruct d as [| p | p]; cbn [binary_normalize].
  - reflexivity.
  - pose proof (binary_round_nonzero false p ez He) as Hs.
    destruct (binary_round prec emax false p ez); simpl in Hs; try contradiction;
      subst; reflexivity.
  - pose proof (binary_round_nonzero true p ez He) as Hs.
    destruct (binary_round prec emax true p ez); simpl in Hs; try contradiction;
      subst; reflexivity.
Qed.

(** The difference of two values is positive exactly when the first is
    the larger: a nonzero difference never rounds to zero. *)
Theorem SFsub_positive (x y : spec_float) :
  valid_binary x = true -> valid_binary y = true ->
  SFltb (S754_zero false) (SFsub prec emax x y) = SFltb y x.
Proof.
  intros Hx Hy.
  destruct x as [sx | sx | | sx mx ex], y as [sy | sy | | sy my ey];
    try reflexivity;
    try (destruct sx, sy; reflexivity);
    try (destruct sx; reflexivity);
    try (destruct sy; reflexivity).
  simpl in Hx, Hy. cbn [SFsub].
  assert (Hez : emin <= Z.min ex ey).
  { apply bounded_canonical in Hx, Hy. lia. }
  rewrite (normalize_positive _ _ Hez).
  unfold SFltb. rewrite (compare_aligned sy sx my mx ey ex Hy Hx).
  rewrite (Z.min_comm ey ex). unfold aligned.
  set (a := cond_Zopp sx _). set (b := cond_Zopp sy _).
  destruct (Z.compare_spec b a); destruct (Z.ltb_spec 0 (a - b)); try reflexivity; lia.
Qed.
End Binary64Spec.

(** ** Binary64 numbers *)

Module Binary64Facts.
Import Binary64 Binary64Spec.
Local Open Scope float_scope.

Lemma Prim2SF_zero : Prim2SF 0 = S754_zero false.
Proof. reflexivity. Qed.

Lemma compare_refl (x : spec_float) :
  isNan x = false -> SFcompare x x = Some Eq.
Proof.
  destruct x as [s | s | | s m e]; try discriminate; intros _; simpl.
  - reflexivity.
  - destruct s; reflexivity.
  - destruct s; rewrite Z.compare_refl, Pos.compare_cont_refl; reflexivity.
Qed.

Lemma isNaN_spec (x : float) : Num.isNaN x = isNan (Prim2SF x).
Proof.
  unfold Num.isNaN. rewrite eqb_spec. unfold SFeqb.
  destruct (isNan (Prim2SF x)) eqn:Hn.
  - destruct (Prim2SF x); try discriminate. reflexivity.
  - now rewrite compare_refl.
Qed.

Lemma compare_rank (x y : float) :
  Num.isNaN x = false -> Num.isNaN y = false ->
  SFcompare (Prim2SF x) (Prim2SF y) = Some (rank x ?= rank y)%Z.
Proof.
  rewrite !isNaN_spec. intros Hx Hy.
  apply SFcompare_rank; auto using Prim2SF_valid.
Qed.

Lemma ltb_rank (x y : float) :
  Num.isNaN x = false -> Num.isNaN y = false -> (x <? y) = (rank x <? rank y)%Z.
Proof.
  intros Hx Hy. rewrite ltb_spec. unfold SFltb. rewrite compare_rank by assumption.
  unfold Z.ltb. now destruct (rank x ?= rank y)%Z.
Qed.

Lemma leb_rank (x y : float) :
  Num.isNaN x = false -> Num.isNaN y = false -> (x <=? y) = (rank x <=? rank y)%Z.
Proof.
  intros Hx Hy. rewrite leb_spec. unfold SFleb. rewrite compare_rank by assumption.
  unfold Z.leb. now destruct (rank x ?= rank y)%Z.
Qed.

Lemma eqb_rank (x y : float) :
  Num.isNaN x = false -> Num.isNaN y = false -> (x =? y) = (rank x =? rank y)%Z.
Proof.
  intros Hx Hy. rewrite eqb_spec. unfold SFeqb. rewrite compare_rank by assumption.
  rewrite Z.eqb_compare. now destruct (rank x ?= rank y)%Z.
Qed.

Lemma leb_not_nan (x y : float) :
  (x <=? y) = true -> Num.isNaN x = false /\ Num.isNaN y = false.
Proof.
  rewrite !isNaN_spec, leb_spec.
  destruct (Prim2SF x), (Prim2SF y); try discriminate; auto.
Qed.

Lemma ltb_not_nan (x y : float) :
  (x <? y) = true -> Num.isNaN x = false /\ Num.isNaN y = false.
Proof.
  rewrite !isNaN_spec, ltb_spec.
  destruct (Prim2SF x), (Prim2SF y); try discriminate; auto.
Qed.

(** [x - y > 0] exactly when [x > y]. *)
Theorem sub_positive (x y : float) : (0 <? x - y) = (y <? x).
Proof.
  rewrite !ltb_spec, sub_spec, Prim2SF_zero.
  apply SFsub_positive; apply Prim2SF_valid.
Qed.

Lemma abs_isNaN (x : float) : Num.isNaN (abs x) = Num.isNaN x.
Proof. rewrite !isNaN_spec, abs_spec. now destruct (Prim2SF x). Qed.
End Binary64Facts.

(** ** Outcomes of the three entry points *)

Lemma bind_Ok {A B} (r : result A) (k : A -> result B) (a : A) :
  r = Ok a -> bind r k = k a.
Proof. intros ->. reflexivity. Qed.

Lemma bind_Throw {A B} (r : result A) (k : A -> result B) (e : JsError) :
  r = Throw e -> bind r k = Throw e.
Proof. intros ->. reflexivity. Qed.

Lemma rethrow_id {A} (r : result A) :
  match r with Ok a => Ok a | Throw error => Throw error end = r.
Proof. now destruct r. Qed.

(** C4: with fewer than 5 qualifying transactions
    [detectAnomaliesForCategory] returns an empty anomaly list with the
    informational message, [checkTransactionForAnomaly] returns [null], and
    neither throws.  The transactions that qualify for the single check are
    those of its category other than the transaction checked. *)
Theorem insufficient_data `{JsHost} (E : Env) (userId : string) :
  (forall (categoryId : string) (transactions : list Transaction),
      queryCategoryExpenses E userId (Some categoryId) = Ok transactions ->
      (List.length transactions < 5)%nat ->
      detectAnomaliesForCategory E userId categoryId
      = Ok {| anomalies := [];
              categoryId := categoryId;
              message := Some "Not enough transaction data for anomaly detection";
              method := None |})
  /\ (forall (transaction : Transaction) (snapshot : list Transaction),
         queryCategoryExpenses E userId (category transaction) = Ok snapshot ->
         (List.length
            (filter (fun doc => negb (id doc =? id transaction)%string) snapshot) < 5)%nat ->
         checkTransactionForAnomaly E userId transaction = Ok None).
Proof.
  split.
  - intros categoryId transactions Hq Hlen.
    unfold detectAnomaliesForCategory, categoryBody.
    rewrite (bind_Ok _ _ _ Hq).
    apply Nat.ltb_lt in Hlen. rewrite Hlen. reflexivity.
  - intros transaction snapshot Hq Hlen.
    unfold checkTransactionForAnomaly, checkBody.
    rewrite (bind_Ok _ _ _ Hq).
    apply Nat.ltb_lt in Hlen. rewrite Hlen. reflexivity.
Qed.

Lemma insufficient_data_witness :
  let E := Scenario.envOf Scenario.threeExpenses Scenario.failingForest in
  @detectAnomaliesForCategory SampleHost.host E "u" "food"
  = Ok {| anomalies := [];
          categoryId := "food";
          message := Some "Not enough transaction data for anomaly detection";
          method := None |}
  /\ @checkTransactionForAnomaly SampleHost.host E "u"
       (Scenario.expense "new" 5000 (Scenario.utc 9)) = Ok None.
Proof.
  pose proof (@insufficient_data SampleHost.host
                (Scenario.envOf Scenario.threeExpenses Scenario.failingForest) "u")
    as [Hcategory Hcheck].
  split.
  - apply (Hcategory "food" Scenario.threeExpenses); [reflexivity | simpl; lia].
  - apply (Hcheck (Scenario.expense "new" 5000 (Scenario.utc 9)) Scenario.threeExpenses);
      [reflexivity | simpl; lia].
Defined.

(** A failing fetch of one category fails the whole aggregation. *)
Lemma Promise_all_Throw {A} (rs : list (result A)) (e : JsError) :
  In (Throw e) rs -> exists e', Promise_all rs = Throw e'.
Proof.
  induction rs as [| r rs IH]; intros Hin; [contradiction |].
  destruct Hin as [-> | Hin].
  - exists e. reflexivity.
  - destruct (IH Hin) as [e' He']. simpl. rewrite He'.
    destruct r; eauto.
Qed.

Lemma category_fetch_failure `{JsHost} (E : Env) (userId categoryId : string) (e : JsError) :
  queryCategoryExpenses E userId (Some categoryId) = Throw e ->
  detectAnomaliesForCategory E userId categoryId = Throw e.
Proof.
  intros Hc. unfold detectAnomaliesForCategory, categoryBody.
  now rewrite (bind_Throw _ _ _ Hc).
Qed.

(** C3, as the code has it: when the store fails,
    [detectAnomaliesForCategory] and [detectAnomaliesForUser] throw (the
    latter whether the listing fails or the fetch of one of the categories
    listed), and [checkTransactionForAnomaly] returns [null]. *)
Theorem store_failure `{JsHost} (E : Env) (userId : string) (e : JsError) :
  (forall categoryId,
      queryCategoryExpenses E userId (Some categoryId) = Throw e ->
      detectAnomaliesForCategory E userId categoryId = Throw e)
  /\ (queryExpenses E userId = Throw e -> detectAnomaliesForUser E userId = Throw e)
  /\ (forall docs categoryId,
         queryExpenses E userId = Ok docs ->
         In categoryId (categoriesOf docs) ->
         queryCategoryExpenses E userId (Some categoryId) = Throw e ->
         exists e', detectAnomaliesForUser E userId = Throw e')
  /\ (forall transaction,
         queryCategoryExpenses E userId (category transaction) = Throw e ->
         checkTransactionForAnomaly E userId transaction = Ok None).
Proof.
  split; [| split; [| split]].
  - intros categoryId. apply category_fetch_failure.
  - intros Hu. unfold detectAnomaliesForUser, userBody.
    now rewrite (bind_Throw _ _ _ Hu).
  - intros docs categoryId Hu Hin Hc.
    unfold detectAnomaliesForUser. rewrite rethrow_id. unfold userBody.
    rewrite (bind_Ok _ _ _ Hu).
    destruct docs as [| d docs]; [contradiction |]. cbn [List.length Nat.eqb].
    destruct (categoriesOf (d :: docs)) as [| c cs] eqn:Hcs; [contradiction |].
    cbn [List.length Nat.eqb].
    destruct (Promise_all_Throw
                (map (fun c' => detectAnomaliesForCategory E userId c') (c :: cs)) e)
      as [e' He'].
    { apply in_map_iff. exists categoryId. split; [| assumption].
      now apply category_fetch_failure. }
    exists e'. now rewrite He'.
  - intros transaction Hc. unfold checkTransactionForAnomaly, checkBody.
    now rewrite (bind_Throw _ _ _ Hc).
Qed.

Lemma store_failure_witness :
  let e := StoreError "unavailable" in
  @detectAnomaliesForCategory SampleHost.host Scenario.brokenStore "u" "food" = Throw e
  /\ @detectAnomaliesForUser SampleHost.host Scenario.brokenStore "u" = Throw e
  /\ @checkTransactionForAnomaly SampleHost.host Scenario.brokenStore "u"
       (Scenario.expense "new" 5000 (Scenario.utc 9)) = Ok None.
Proof.
  pose proof (@store_failure SampleHost.host Scenario.brokenStore "u"
                (StoreError "unavailable")) as (Hcategory & Huser & _ & Hcheck).
  split; [apply Hcategory | split; [apply Huser | apply Hcheck]]; reflexivity.
Defined.

(** C3, as stated, fails for [checkTransactionForAnomaly]: the store's
    error is not surfaced. *)
Lemma check_masks_store_failure :
  queryCategoryExpenses Scenario.brokenStore "u" (Some "food")
  = Throw (StoreError "unavailable")
  /\ @checkTransactionForAnomaly SampleHost.host Scenario.brokenStore "u"
       (Scenario.expense "new" 5000 (Scenario.utc 9)) = Ok None
  /\ isThrow (@checkTransactionForAnomaly SampleHost.host Scenario.brokenStore "u"
                (Scenario.expense "new" 5000 (Scenario.utc 9))) = false.
Proof. repeat split. Qed.

(** ** The fallback path *)

Lemma traverse_Ok {A B} (f : A -> result B) (g : A -> B) (l : list A) :
  (forall x, In x l -> f x = Ok (g x)) -> traverse f l = Ok (map g l).
Proof.
  induction l as [| x l IH]; intros Hf; [reflexivity |].
  simpl. rewrite (Hf x) by now left. simpl.
  rewrite IH by (intros y Hy; apply Hf; now right). reflexivity.
Qed.

(** The outlier-model step fails exactly when the model throws or one of
    its scores is NaN. *)
Lemma outlierModel_fails `{JsHost} (E : Env) (categoryId : string)
      (transactions : list Transaction) :
  outlierModel E categoryId transactions = None
  <-> (isolationForest E (preprocessTransactions (dateNow E) transactions) = None
       \/ exists scores,
            isolationForest E (preprocessTransactions (dateNow E) transactions) = Some scores
            /\ existsb Num.isNaN scores = true).
Proof.
  unfold outlierModel.
  destruct (isolationForest E (preprocessTransactions (dateNow E) transactions))
    as [scores |] eqn:Hf.
  - destruct (existsb Num.isNaN scores) eqn:Hn; split.
    + intros _. right. now exists scores.
    + reflexivity.
    + discriminate.
    + intros [Hnone | (scores' & Hs & Hnan)]; [discriminate |].
      injection Hs as <-. congruence.
  - split; [now left | reflexivity].
Qed.

(** C2 fails on the code: six transactions, the sixth an undated outlier,
    and a model that throws.  The window detector flags the sixth; logging
    its date throws, and the outer handler throws that again. *)
Theorem fallback_log_rethrows `{JsHost} :
  outlierModel (Scenario.envOf Scenario.undatedOutlier Scenario.failingForest)
               "food" Scenario.undatedOutlier = None
  /\ map (fun a => id (tx a))
         (snd (detectAnomaliesWithSlidingWindow Scenario.undatedOutlier)) = ["f"]
  /\ detectAnomaliesForCategory
       (Scenario.envOf Scenario.undatedOutlier Scenario.failingForest) "u" "food"
     = Throw (RangeError "Invalid time value").
Proof. repeat split; vm_compute; reflexivity. Qed.

(** ** The feature extractor *)

Lemma features_of_invalid_amount `{JsHost} (now : float) (t : Transaction) :
  Num.isNaN (parseFloat (amount t)) = true ->
  nth_error (extractFeatures now t) 0 = Some 0%float.
Proof. intros Hnan. unfold extractFeatures. now rewrite Hnan. Qed.

Lemma features_of_invalid_date `{JsHost} (now : float) (t : Transaction) :
  Num.isNaN (date t) = true ->
  exists a, extractFeatures now t = [a; 1; 0; 0.5]%float.
Proof. intros Hnan. unfold extractFeatures. rewrite Hnan. simpl. eauto. Qed.

Lemma features_of_valid_date `{JsHost} (now : float) (t : Transaction) :
  Num.isNaN (date t) = false ->
  nth_error (extractFeatures now t) 3
  = Some (Num.min2 1 ((now - date t) / 2592000000))%float.
Proof. intros Hv. unfold extractFeatures. rewrite Hv. reflexivity. Qed.

(** The defaults of the feature extractor: [0] for an amount that is not
    a number, and day of month [1], day of week [0] and recency [0.5] for a
    date that is not valid; the vector has four components. *)
Lemma feature_vector_defaults `{JsHost} (now : float) (t : Transaction) :
  List.length (extractFeatures now t) = 4%nat
  /\ (Num.isNaN (parseFloat (amount t)) = true ->
      nth_error (extractFeatures now t) 0 = Some 0%float)
  /\ (Num.isNaN (parseFloat (amount t)) = false ->
      nth_error (extractFeatures now t) 0 = Some (parseFloat (amount t)))
  /\ (Num.isNaN (date t) = true ->
      skipn 1 (extractFeatures now t) = [1; 0; 0.5]%float).
Proof.
  split; [reflexivity |]. split; [apply features_of_invalid_amount |].
  split.
  - intros Hnum. unfold extractFeatures. now rewrite Hnum.
  - intros Hnan. unfold extractFeatures. now rewrite Hnan.
Qed.

Lemma feature_vector_defaults_witness :
  nth_error (@extractFeatures SampleHost.host (Scenario.utc 40)
               {| id := "a"; amount := JStr "abc"; date := nan;
                  category := Some "food"; categoryName := None |}) 0
  = Some 0%float.
Proof.
  apply (proj1 (proj2 (@feature_vector_defaults SampleHost.host (Scenario.utc 40)
                         {| id := "a"; amount := JStr "abc"; date := nan;
                            category := Some "food"; categoryName := None |}))).
  reflexivity.
Defined.

(** C6 fails on the code for a transaction dated after the clock reading:
    here 30 days after it, and the recency is [-1], outside [[0, 1]]. *)
Theorem future_date_recency_negative `{JsHost} :
  Date.isValid (Scenario.utc 40) = true
  /\ nth_error (extractFeatures (Scenario.utc 10)
                                (Scenario.expense "a" 50 (Scenario.utc 40))) 3
     = Some (-1)%float
  /\ (-1 <? 0)%float = true.
Proof. repeat split; vm_compute; reflexivity. Qed.

(** ** The reason generator *)

(** C8 fails on the code in its last case: the reason does not depend on
    the date of the anomaly, and the sentence of the last branch, the same
    for every date, names no weekday. *)
Theorem unusual_pattern_reason_names_no_weekday `{JsHost} :
  (forall (anomaly : Transaction) (d : float) (allTransactions : list Transaction),
      generateAnomalyReason
        {| id := id anomaly; amount := amount anomaly; date := d;
           category := category anomaly; categoryName := categoryName anomaly |}
        allTransactions
      = generateAnomalyReason anomaly allTransactions)
  /\ (forall d : float,
         let reason :=
           generateAnomalyReason
             (Scenario.expense "a" 100 d)
             [ Scenario.expense "a" 100 d; Scenario.expense "b" 100 (Scenario.utc 1);
               Scenario.expense "c" 100 (Scenario.utc 2);
               Scenario.expense "d" 100 (Scenario.utc 3);
               Scenario.expense "e" 200 (Scenario.utc 4) ] in
         reason = "This Food expense has an unusual pattern (timing, amount, or frequency) compared to your typical spending."
         /\ existsb (fun day => mentions day reason) weekday = false).
Proof.
  split; [reflexivity |].
  intros d. cbv zeta. split; vm_compute; reflexivity.
Qed.

(** ** Sorting *)

Section SortFacts.
Context {A : Type} (comparefn : A -> A -> float).

Lemma insert_Permutation (x : A) (l : list A) :
  Permutation (x :: l) (Array.insert comparefn x l).
Proof.
  induction l as [| y r IH]; simpl; [reflexivity |].
  destruct (Array.follows comparefn x y); [| reflexivity].
  rewrite perm_swap. now apply perm_skip.
Qed.

Lemma sort_Permutation (l : list A) : Permutation l (Array.sort comparefn l).
Proof.
  induction l as [| x l IH]; simpl; [reflexivity |].
  rewrite <- insert_Permutation. now apply perm_skip.
Qed.

(** An array in which no element has to follow its successor is left as
    it is. *)
Lemma sort_of_sorted (l : list A) :
  Sorted (fun a b => Array.follows comparefn a b = false) l ->
  Array.sort comparefn l = l.
Proof.
  induction 1 as [| a l Hs IH Hhd]; [reflexivity |].
  simpl. rewrite IH. destruct Hhd as [| b r Hab]; simpl; [reflexivity |].
  now rewrite Hab.
Qed.

(** With a comparator that orders the elements satisfying [P]
    consistently, the result is sorted. *)
Variable P : A -> Prop.
Hypothesis asym :
  forall a b, P a -> P b -> Array.follows comparefn a b = true -> inPlace comparefn b a.
Hypothesis trans :
  forall a b c, P a -> P b -> P c ->
                inPlace comparefn a b -> inPlace comparefn b c -> inPlace comparefn a c.

Lemma insert_Forall (Q : A -> Prop) (x : A) (l : list A) :
  Q x -> Forall Q l -> Forall Q (Array.insert comparefn x l).
Proof.
  intros Hx Hl. eapply Permutation_Forall; [apply insert_Permutation |].
  now constructor.
Qed.

Lemma insert_sorted (x : A) (l : list A) :
  P x -> Forall P l -> StronglySorted (inPlace comparefn) l ->
  StronglySorted (inPlace comparefn) (Array.insert comparefn x l).
Proof using asym trans.
  intros Hx Hl Hs. induction Hs as [| y r Hs IH Hy]; simpl.
  - constructor; constructor.
  - inversion Hl as [| ? ? Py Pr]; subst.
    destruct (Array.follows comparefn x y) eqn:Hxy.
    + constructor; [now apply IH |].
      apply insert_Forall; [now apply asym | assumption].
    + constructor; [now constructor |].
      constructor; [assumption |].
      rewrite Forall_forall in Hy, Pr |- *. intros z Hz.
      apply (trans x y z); auto.
Qed.

Lemma sort_sorted (l : list A) :
  Forall P l -> StronglySorted (inPlace comparefn) (Array.sort comparefn l).
Proof using asym trans.
  induction 1 as [| x l Hx Hl IH]; simpl; [constructor |].
  apply insert_sorted; [assumption | | assumption].
  eapply Permutation_Forall; [apply sort_Permutation | assumption].
Qed.
End SortFacts.

(** ** The window detector *)

Lemma slice_of_prefix {A} (xs : list A) (from to : nat) :
  (from <= to)%nat -> Array.slice xs from to = skipn from (firstn to xs).
Proof.
  intros Hle. unfold Array.slice. rewrite firstn_skipn_comm.
  do 2 f_equal. lia.
Qed.

Lemma contextWindow_before `{JsHost} (transactions : list Transaction) (i : nat) :
  contextWindow transactions i
  = skipn (i - Nat.min windowSize i) (firstn i transactions).
Proof. unfold contextWindow. apply slice_of_prefix. lia. Qed.

Lemma nth_error_of_prefix {A} (xs ys : list A) (i : nat) :
  firstn (S i) xs = firstn (S i) ys -> nth_error xs i = nth_error ys i.
Proof.
  revert xs ys. induction i as [| i IH]; intros [| x xs] [| y ys] Heq;
    try discriminate; try reflexivity.
  - now injection Heq as ->.
  - simpl. apply IH. cbn [firstn] in Heq. now injection Heq.
Qed.

Lemma firstn_of_prefix {A} (xs ys : list A) (n m : nat) :
  (n <= m)%nat -> firstn m xs = firstn m ys -> firstn n xs = firstn n ys.
Proof.
  intros Hle Heq.
  rewrite <- (Nat.min_l n m Hle), <- !firstn_firstn. now rewrite Heq.
Qed.

(** The step at index [i] reads the array up to index [i] only. *)
Lemma windowStep_of_prefix `{JsHost} (xs ys : list Transaction) (i : nat) :
  firstn (S i) xs = firstn (S i) ys -> windowStep xs i = windowStep ys i.
Proof.
  intros Heq. unfold windowStep.
  rewrite (nth_error_of_prefix xs ys i Heq), !contextWindow_before.
  now rewrite (firstn_of_prefix xs ys i (S i)) by (auto; lia).
Qed.

Lemma firstn_assign {A} (xs : list A) (j n : nat) (x : A) :
  (n <= j)%nat -> firstn n (assign xs j x) = firstn n xs.
Proof.
  intros Hle. unfold assign.
  destruct (Nat.ltb_spec j (List.length xs)) as [Hj | Hj]; [| reflexivity].
  rewrite firstn_app, firstn_firstn, Nat.min_l by assumption.
  rewrite length_firstn, Nat.min_l by lia.
  replace (n - j)%nat with 0%nat by lia. apply app_nil_r.
Qed.

Lemma windowLoop_steps `{JsHost} (transactions : list Transaction) :
  windowLoop transactions
  = flat_map (fun i => match windowStep transactions i with
                       | Some a => [a]
                       | None => []
                       end)
             (seq minWindowSize (List.length transactions - minWindowSize)).
Proof.
  unfold windowLoop.
  generalize (seq minWindowSize (List.length transactions - minWindowSize)) as indices.
  assert (Hacc : forall indices acc,
             fold_left (fun anomalies i =>
                          match windowStep transactions i with
                          | Some a => anomalies ++ [a]
                          | None => anomalies
                          end) indices acc
             = acc ++ flat_map (fun i => match windowStep transactions i with
                                         | Some a => [a]
                                         | None => []
                                         end) indices).
  { induction indices as [| i l IH]; intros acc; simpl.
    - now rewrite app_nil_r.
    - rewrite IH. destruct (windowStep transactions i); simpl.
      + now rewrite <- app_assoc.
      + reflexivity. }
  intros indices. apply (Hacc indices []).
Qed.

(** In an array in date order no element has to follow its successor. *)
Lemma date_order_follows (a b : Transaction) :
  (date a <=? date b)%float = true -> Array.follows byDate a b = false.
Proof.
  intros Hle. unfold Array.follows, byDate.
  rewrite Binary64Facts.sub_positive.
  destruct (Binary64Facts.leb_not_nan _ _ Hle) as [Ha Hb].
  rewrite Binary64Facts.leb_rank in Hle by assumption.
  rewrite Binary64Facts.ltb_rank by assumption.
  apply Z.leb_le in Hle. apply Z.ltb_ge. assumption.
Qed.

Lemma sort_in_date_order (transactions : list Transaction) :
  inDateOrder transactions -> Array.sort byDate transactions = transactions.
Proof.
  intros Hs. apply sort_of_sorted.
  induction Hs as [| a l Hs IH Hhd]; constructor; [assumption |].
  destruct Hhd; constructor. now apply date_order_follows.
Qed.

Lemma consecutive_in_date_order : inDateOrder Scenario.consecutive.
Proof. vm_compute. repeat constructor. Qed.

(** C9, as stated, fails: the caller's array comes back reordered. *)
Lemma caller_array_is_reordered :
  map id Scenario.shuffled = ["b"; "a"; "c"; "d"; "e"; "f"]
  /\ map id (fst (@detectAnomaliesWithSlidingWindow SampleHost.host Scenario.shuffled))
     = ["a"; "b"; "c"; "d"; "e"; "f"].
Proof. split; vm_compute; reflexivity. Qed.

(** ** Signs *)

Module Binary64Signs.
Import Binary64 Binary64Spec Binary64Facts.
Local Open Scope float_scope.

Lemma round_aux_nonneg (m e : Z) (l : location) :
  nonnegOrNan (binary_round_aux prec emax false m e l).
Proof.
  unfold binary_round_aux.
  destruct (shr_fexp prec emax m e l) as [mrs' e'].
  destruct (shr_fexp prec emax _ e' loc_Exact) as [mrs'' e''].
  destruct (shr_m mrs''); try exact eq_refl; try exact I.
  destruct (e'' <=? emax - prec)%Z; exact eq_refl.
Qed.

Lemma round_nonneg (m : positive) (e : Z) :
  nonnegOrNan (binary_round prec emax false m e).
Proof.
  unfold binary_round. destruct (shl_align m e _) as [mz ez].
  apply round_aux_nonneg.
Qed.

Lemma SFmul_square_nonneg (x : spec_float) : nonnegOrNan (SFmul prec emax x x).
Proof.
  destruct x as [s | s | | s m e]; cbn; try (destruct s; exact eq_refl); try exact I.
  replace (xorb s s) with false by (now destruct s). apply round_aux_nonneg.
Qed.

Lemma SFadd_nonneg (x y : spec_float) :
  nonnegOrNan x -> nonnegOrNan y -> nonnegOrNan (SFadd prec emax x y).
Proof.
  destruct x as [sx | sx | | sx mx ex], y as [sy | sy | | sy my ey];
    cbn; intros Hx Hy; subst; try exact I; try exact eq_refl.
  apply round_nonneg.
Qed.

Lemma SFdiv_nonneg (x y : spec_float) :
  nonnegOrNan x -> nonnegOrNan y -> nonnegOrNan (SFdiv prec emax x y).
Proof.
  destruct x as [sx | sx | | sx mx ex], y as [sy | sy | | sy my ey];
    cbn; intros Hx Hy; subst; try exact I; try exact eq_refl.
  destruct (SFdiv_core_binary prec emax (Zpos mx) ex (Zpos my) ey) as [[mz ez] lz].
  apply round_aux_nonneg.
Qed.

Lemma SFsqrt_nonneg (x : spec_float) :
  nonnegOrNan x -> nonnegOrNan (SFsqrt prec emax x).
Proof.
  destruct x as [s | s | | s m e]; cbn; intros Hx; subst; try exact I; try exact eq_refl.
  destruct (SFsqrt_core_binary prec emax (Zpos m) e) as [[mz ez] lz].
  apply round_aux_nonneg.
Qed.

Lemma square_nonneg (x : float) : nonneg (Num.pow2 x).
Proof. unfold nonneg, Num.pow2. rewrite FloatAxioms.mul_spec. apply SFmul_square_nonneg. Qed.

Lemma add_nonneg (x y : float) : nonneg x -> nonneg y -> nonneg (x + y).
Proof. unfold nonneg. rewrite FloatAxioms.add_spec. apply SFadd_nonneg. Qed.

Lemma div_nonneg (x y : float) : nonneg x -> nonneg y -> nonneg (x / y).
Proof. unfold nonneg. rewrite FloatAxioms.div_spec. apply SFdiv_nonneg. Qed.

Lemma sqrt_nonneg (x : float) : nonneg x -> nonneg (PrimFloat.sqrt x).
Proof. unfold nonneg. rewrite FloatAxioms.sqrt_spec. apply SFsqrt_nonneg. Qed.

Lemma ofNat_nonneg (n : nat) : nonneg (Num.ofNat n).
Proof.
  unfold nonneg, Num.ofNat. rewrite FloatAxioms.of_uint63_spec.
  pose proof (Uint63.to_Z_bounded (Uint63.of_Z (Z.of_nat n))) as Hb.
  destruct (Uint63.to_Z (Uint63.of_Z (Z.of_nat n))) as [| p | p]; simpl.
  - reflexivity.
  - apply round_nonneg.
  - lia.
Qed.

Lemma sum_of_squares_nonneg (mean : float) (xs : list float) (acc : float) :
  nonneg acc ->
  nonneg (fold_left (fun sum val => sum + Num.pow2 (val - mean)) xs acc).
Proof.
  revert acc. induction xs as [| x xs IH]; intros acc Hacc; simpl; [assumption |].
  apply IH. apply add_nonneg; [assumption | apply square_nonneg].
Qed.

(** The standard deviation of a window is NaN or has its sign bit clear. *)
Lemma stdDev_nonneg (contextAmounts : list float) :
  nonneg (stdDev binary64 contextAmounts).
Proof.
  unfold stdDev. cbn [sqrt div add pow2 sub zero ofNat binary64].
  apply sqrt_nonneg, div_nonneg; [| apply ofNat_nonneg].
  apply sum_of_squares_nonneg. reflexivity.
Qed.

(** A standard deviation that is zero is [+0]. *)
Lemma stdDev_zero (contextAmounts : list float) :
  (stdDev binary64 contextAmounts =? 0) = true ->
  Prim2SF (stdDev binary64 contextAmounts) = S754_zero false.
Proof.
  intros Hz. pose proof (stdDev_nonneg contextAmounts) as Hn.
  unfold nonneg in Hn. rewrite FloatAxioms.eqb_spec, Prim2SF_zero in Hz.
  destruct (Prim2SF (stdDev binary64 contextAmounts)) as [s | s | | s m e];
    simpl in Hn, Hz; subst; try discriminate; reflexivity.
Qed.

(** Adding [2.5 * 0] to the mean leaves what it compares above. *)
Lemma threshold_of_zero_deviation (contextAmounts : list float) (x : float) :
  (stdDev binary64 contextAmounts =? 0) = true ->
  Num.gt x (threshold binary64 contextAmounts) = Num.gt x (mean binary64 contextAmounts).
Proof.
  intros Hz. apply stdDev_zero in Hz.
  unfold Num.gt, threshold. cbn [add mul twoAndHalf binary64].
  rewrite !FloatAxioms.ltb_spec, FloatAxioms.add_spec, FloatAxioms.mul_spec, Hz.
  change (SF64mul (Prim2SF 2.5) (S754_zero false)) with (S754_zero false).
  destruct (Prim2SF (mean binary64 contextAmounts)) as [s | s | | s m e];
    try reflexivity.
  destruct s; reflexivity.
Qed.

(** Dividing what exceeds the mean by a zero deviation gives [Infinity]. *)
Lemma score_of_zero_deviation (contextAmounts : list float) (x : float) :
  (stdDev binary64 contextAmounts =? 0) = true ->
  Num.gt x (mean binary64 contextAmounts) = true ->
  score binary64 contextAmounts x = infinity.
Proof.
  intros Hz Hgt. apply stdDev_zero in Hz.
  unfold Num.gt in Hgt. rewrite <- sub_positive in Hgt.
  apply Prim2SF_inj. unfold score. cbn [div sub binary64].
  rewrite FloatAxioms.div_spec, Hz.
  rewrite FloatAxioms.ltb_spec, Prim2SF_zero in Hgt.
  destruct (Prim2SF (x - mean binary64 contextAmounts)) as [s | s | | s m e];
    try discriminate; destruct s; try discriminate; reflexivity.
Qed.
End Binary64Signs.

(** ** A window without deviation *)

(** C1, as the code has it: nothing guards a zero standard deviation.
    The threshold is then the mean; the transaction is flagged exactly when
    its amount exceeds the mean, and its score, a division by zero, is
    [Infinity] (nothing is thrown), with the reason of the highest band.
    This holds for the step of the window detector and for
    [checkTransactionForAnomaly]. *)
Theorem zero_deviation `{JsHost} :
  (forall (transactions : list Transaction) (i : nat) (currentTx : Transaction),
      nth_error transactions i = Some currentTx ->
      let contextAmounts := amountsOf (contextWindow transactions i) in
      let currentAmount := parseFloat (amount currentTx) in
      (stdDev binary64 contextAmounts =? 0)%float = true ->
      windowStep transactions i
      = if Num.gt currentAmount (mean binary64 contextAmounts)
        then Some {| tx := currentTx;
                     anomalyScore := infinity;
                     reason := "This expense of $" ++ hostToFixed currentAmount 2
                               ++ " is extremely high compared to your typical "
                               ++ orEmpty (categoryName currentTx)
                               ++ " spending of around $"
                               ++ hostToFixed (mean binary64 contextAmounts) 2 ++ "." |}
        else None)
  /\ (forall (E : Env) (userId : string) (transaction : Transaction)
             (snapshot : list Transaction),
         queryCategoryExpenses E userId (category transaction) = Ok snapshot ->
         let pastTransactions :=
           filter (fun doc => negb (id doc =? id transaction)%string) snapshot in
         let contextAmounts := amountsOf pastTransactions in
         let currentAmount := parseFloat (amount transaction) in
         (5 <= List.length pastTransactions)%nat ->
         (stdDev binary64 contextAmounts =? 0)%float = true ->
         checkTransactionForAnomaly E userId transaction
         = Ok (Some
                 (if Num.gt currentAmount (mean binary64 contextAmounts)
                  then IsAnomaly
                         {| tx := transaction;
                            anomalyScore := infinity;
                            reason := "This expense of $" ++ hostToFixed currentAmount 2
                                      ++ " is extremely high compared to your typical "
                                      ++ orEmpty (categoryName transaction)
                                      ++ " spending of around $"
                                      ++ hostToFixed (mean binary64 contextAmounts) 2
                                      ++ "." |}
                  else NotAnomaly transaction))).
Proof.
  split.
  - intros transactions i currentTx Hnth contextAmounts currentAmount Hz.
    unfold windowStep. rewrite Hnth. fold contextAmounts currentAmount.
    rewrite (Binary64Signs.threshold_of_zero_deviation _ _ Hz).
    destruct (Num.gt currentAmount (mean binary64 contextAmounts)) eqn:Hgt;
      [| reflexivity].
    rewrite (Binary64Signs.score_of_zero_deviation _ _ Hz Hgt). reflexivity.
  - intros E userId transaction snapshot Hq pastTransactions contextAmounts
           currentAmount Hlen Hz.
    unfold checkTransactionForAnomaly, checkBody.
    rewrite (bind_Ok _ _ _ Hq). fold pastTransactions.
    assert (Hfive : (List.length pastTransactions <? 5)%nat = false)
      by (apply Nat.ltb_ge; lia).
    rewrite Hfive. fold contextAmounts currentAmount.
    rewrite (Binary64Signs.threshold_of_zero_deviation _ _ Hz).
    destruct (Num.gt currentAmount (mean binary64 contextAmounts)) eqn:Hgt;
      [| reflexivity].
    rewrite (Binary64Signs.score_of_zero_deviation _ _ Hz Hgt). reflexivity.
Qed.

(** C1, as stated, fails: after ten expenses of 100 the deviation of the
    window is zero, and the expense of 10000 is flagged, with score
    [Infinity], by the window detector and by the single check. *)
Lemma zero_deviation_is_flagged :
  (stdDev binary64 (@amountsOf SampleHost.host
                      (contextWindow Scenario.flatSeries 10)) =? 0)%float
  = true
  /\ map (fun a => (id (tx a), anomalyScore a))
         (snd (@detectAnomaliesWithSlidingWindow SampleHost.host Scenario.flatSeries))
     = [("big", infinity)]
  /\ verdictScore
       (@checkTransactionForAnomaly SampleHost.host
          (Scenario.envOf (firstn 10 Scenario.flatSeries) Scenario.failingForest) "u"
          (Scenario.expense "big" 10000 (Scenario.utc 10)))
     = Some infinity.
Proof. repeat split; vm_compute; reflexivity. Qed.

Lemma zero_deviation_witness :
  @windowStep SampleHost.host Scenario.flatSeries 10
  = Some {| tx := Scenario.expense "big" 10000 (Scenario.utc 10);
            anomalyScore := infinity;
            reason := "This expense of $10000.00 is extremely high compared to your typical Food spending of around $100.00." |}.
Proof.
  rewrite (proj1 (@zero_deviation SampleHost.host) Scenario.flatSeries 10
             (Scenario.expense "big" 10000 (Scenario.utc 10)));
    vm_compute; reflexivity.
Defined.

(** ** Scores are numbers *)

Module Binary64Scores.
Import Binary64 Binary64Spec Binary64Facts Binary64Signs.
Local Open Scope Z_scope.

Lemma shr_nonneg (m : Z) (l : location) (e n : Z) :
  0 <= m -> 0 <= shr_m (fst (shr (shr_record_of_loc m l) e n)).
Proof.
  intros Hm. unfold shr.
  assert (Hrec : shr_m (shr_record_of_loc m l) = m)
    by (destruct l as [| []]; reflexivity).
  destruct n as [| p | p]; cbn [fst]; try (rewrite Hrec; assumption).
  rewrite iter_pos_nat, shr_iter_m by (rewrite Hrec; assumption).
  rewrite Hrec. apply Z.div_pos; [assumption |].
  apply Z.pow_pos_nonneg; lia.
Qed.

(** Rounding a mantissa that is not negative never gives NaN. *)
Lemma round_aux_not_nan (s : bool) (m e : Z) (l : location) :
  0 <= m -> isNan (binary_round_aux prec emax s m e l) = false.
Proof.
  intros Hm. unfold binary_round_aux, shr_fexp.
  pose proof (shr_nonneg m l e (SpecFloat.fexp prec emax (Zdigits2 m + e) - e) Hm) as H1.
  destruct (shr (shr_record_of_loc m l) e _) as [mrs' e'].
  cbn [fst] in H1.
  set (m2 := round_nearest_even (shr_m mrs') (loc_of_shr_record mrs')).
  assert (H2 : 0 <= m2).
  { unfold m2, round_nearest_even.
    destruct (loc_of_shr_record mrs') as [| []]; try lia.
    destruct (Z.even (shr_m mrs')); lia. }
  pose proof (shr_nonneg m2 loc_Exact e'
                (SpecFloat.fexp prec emax (Zdigits2 m2 + e') - e') H2) as H3.
  destruct (shr (shr_record_of_loc m2 loc_Exact) e' _) as [mrs'' e''].
  cbn [fst] in H3.
  destruct (shr_m mrs''); try lia; [reflexivity |].
  destruct (e'' <=? emax - prec); reflexivity.
Qed.

Lemma div_core_nonneg (m1 m2 : positive) (e1 e2 : Z) :
  0 <= fst (fst (SFdiv_core_binary prec emax (Zpos m1) e1 (Zpos m2) e2)).
Proof.
  unfold SFdiv_core_binary.
  set (s := e1 - e2 - _).
  set (m' := match s with Zpos _ => Z.shiftl (Zpos m1) s | Z0 => Zpos m1 | Zneg _ => 0 end).
  assert (Hm' : 0 <= m').
  { unfold m'. destruct s; try lia. apply Z.shiftl_nonneg. lia. }
  pose proof (Z.div_pos m' (Zpos m2) Hm' ltac:(lia)) as Hq.
  unfold Z.div in Hq. destruct (Z.div_eucl m' (Zpos m2)) as [q r]. exact Hq.
Qed.

(** A quotient by a finite value is NaN only when the dividend is. *)
Lemma SFdiv_finite_not_nan (x : spec_float) (sy : bool) (my : positive) (ey : Z) :
  isNan x = false -> isNan (SFdiv prec emax x (S754_finite sy my ey)) = false.
Proof.
  destruct x as [sx | sx | | sx mx ex]; try discriminate; intros _; try reflexivity.
  cbn [SFdiv].
  pose proof (div_core_nonneg mx my ex ey) as Hq.
  destruct (SFdiv_core_binary prec emax (Zpos mx) ex (Zpos my) ey) as [[mz ez] lz].
  now apply round_aux_not_nan.
Qed.

Lemma round_not_nan (s : bool) (m : positive) (e : Z) :
  isNan (binary_round prec emax s m e) = false.
Proof.
  unfold binary_round. destruct (shl_align m e _) as [mz ez].
  apply round_aux_not_nan. lia.
Qed.

(** A difference is NaN only for a NaN operand, or two infinities of the
    same sign. *)
Lemma SFsub_nan_cases (x y : spec_float) :
  isNan (SFsub prec emax x y) = true ->
  isNan x = true \/ isNan y = true
  \/ exists s, x = S754_infinity s /\ y = S754_infinity s.
Proof.
  destruct x as [sx | sx | | sx mx ex], y as [sy | sy | | sy my ey];
    cbn [SFsub isNan]; auto; try discriminate.
  - destruct sx, sy; discriminate.
  - destruct sx, sy; try discriminate; eauto.
  - destruct (_ - _) as [| p | p]; cbn [binary_normalize]; try discriminate;
      now rewrite round_not_nan.
Qed.

Lemma SFltb_infinity_r (x : spec_float) : SFltb x (S754_infinity true) = false.
Proof. destruct x as [s | [] | | s m e]; reflexivity. Qed.

(** The score of a flagged amount: whatever the mean [m] and the deviation
    [d] of the window, when [x] exceeds [m + c * d] for a positive constant
    [c], the quotient [(x - m) / d] is not NaN. *)
Lemma flagged_score_not_nan (m d x : spec_float) (mc : positive) (ec : Z) :
  valid_binary x = true -> valid_binary m = true ->
  nonnegOrNan d ->
  SFltb (SFadd prec emax m (SFmul prec emax (S754_finite false mc ec) d)) x = true ->
  isNan (SFdiv prec emax (SFsub prec emax x m) d) = false.
Proof.
  intros Vx Vm Hd Hlt.
  destruct d as [sd | sd | | sd md ed]; cbn [nonnegOrNan] in Hd; subst.
  - assert (Hgt : SFltb m x = true).
    { destruct m as [[] | [] | | sm mm em], x as [sx | sx | | sx mx ex];
        try discriminate; exact Hlt. }
    rewrite <- SFsub_positive in Hgt by assumption.
    destruct (SFsub prec emax x m) as [s | s | | s p e]; try discriminate;
      destruct s; try discriminate; reflexivity.
  - destruct m as [sm | [] | | sm mm em], x as [sx | [] | | sx mx ex]; discriminate.
  - destruct m; discriminate.
  - apply SFdiv_finite_not_nan.
    destruct (isNan (SFsub prec emax x m)) eqn:Hnan; [exfalso | reflexivity].
    pose proof (round_aux_nonneg (Zpos (mc * md)) (ec + ed) loc_Exact) as Ht.
    cbn [SFmul xorb] in Hlt.
    set (t := binary_round_aux prec emax false (Zpos (mc * md)) (ec + ed) loc_Exact) in *.
    destruct (SFsub_nan_cases _ _ Hnan) as [Hx | [Hm | (s & -> & ->)]].
    + destruct x; try discriminate.
      destruct (SFadd prec emax m t); discriminate.
    + destruct m; discriminate.
    + destruct s.
      * now rewrite SFltb_infinity_r in Hlt.
      * destruct t as [st | st | | st mt et]; cbn [nonnegOrNan] in Ht; subst;
          discriminate.
Qed.
End Binary64Scores.

(** ** The scores of the anomalies returned *)

Lemma window_score_is_number (contextAmounts : list float) (x : float) :
  Num.gt x (threshold binary64 contextAmounts) = true ->
  Num.isNaN (score binary64 contextAmounts x) = false.
Proof.
  intros Hgt. rewrite Binary64Facts.isNaN_spec.
  unfold Num.gt, threshold in Hgt. unfold score.
  cbn [add sub mul div twoAndHalf binary64] in Hgt |- *.
  rewrite FloatAxioms.ltb_spec, FloatAxioms.add_spec, FloatAxioms.mul_spec in Hgt.
  rewrite FloatAxioms.div_spec, FloatAxioms.sub_spec.
  assert (Hc : exists mc ec, Prim2SF 2.5 = S754_finite false mc ec)
    by (do 2 eexists; reflexivity).
  destruct Hc as (mc & ec & Hc). rewrite Hc in Hgt.
  eapply Binary64Scores.flagged_score_not_nan;
    eauto using Prim2SF_valid, Binary64Signs.stdDev_nonneg.
  apply Binary64Signs.stdDev_nonneg.
Qed.

Lemma windowStep_score `{JsHost} (transactions : list Transaction) (i : nat)
      (a : AnomalyRecord) :
  windowStep transactions i = Some a -> scoreIsNumber a.
Proof.
  unfold windowStep. destruct (nth_error transactions i) as [currentTx |]; [| discriminate].
  destruct (Num.gt _ _) eqn:Hgt; [| discriminate].
  intros [= <-]. now apply window_score_is_number.
Qed.

Lemma windowLoop_scores `{JsHost} (transactions : list Transaction) :
  Forall scoreIsNumber (windowLoop transactions).
Proof.
  rewrite windowLoop_steps. apply Forall_forall. intros a Ha.
  apply in_flat_map in Ha. destruct Ha as (i & _ & Ha).
  destruct (windowStep transactions i) as [a' |] eqn:Hstep; [| contradiction].
  destruct Ha as [<- | []]. now apply (windowStep_score transactions i).
Qed.

Lemma belowThreshold_scores `{JsHost} (scored : list (Transaction * option float)) :
  Forall (fun p => Num.isNaN (snd p) = false) (belowThreshold scored).
Proof.
  induction scored as [| [t [s |]] rest IH]; simpl; auto.
  destruct (s <? -0.3)%float eqn:Hlt; [| assumption].
  constructor; [| assumption].
  now destruct (Binary64Facts.ltb_not_nan _ _ Hlt).
Qed.

Lemma sort_Forall {A} (comparefn : A -> A -> float) (Q : A -> Prop) (l : list A) :
  Forall Q l -> Forall Q (Array.sort comparefn l).
Proof. apply Permutation_Forall, sort_Permutation. Qed.

Lemma outlierModel_scores `{JsHost} (E : Env) (categoryId : string)
      (transactions : list Transaction) (r : CategoryResult) :
  outlierModel E categoryId transactions = Some r -> Forall scoreIsNumber (anomalies r).
Proof.
  unfold outlierModel.
  destruct (isolationForest E _) as [scores |]; [| discriminate].
  destruct (existsb Num.isNaN scores); [discriminate |].
  intros [= <-]. cbn [anomalies]. apply Forall_map.
  eapply Forall_impl; [| apply sort_Forall, belowThreshold_scores].
  intros [t s] Hs. exact Hs.
Qed.

Lemma fallback_scores `{JsHost} (categoryId : string) (transactions : list Transaction)
      (r : CategoryResult) :
  slidingWindowFallback categoryId transactions = Ok r -> Forall scoreIsNumber (anomalies r).
Proof.
  unfold slidingWindowFallback, detectAnomaliesWithSlidingWindow.
  destruct (if (0 <? _)%nat then _ else _) as [logged | e]; [| discriminate].
  intros [= <-]. cbn [anomalies bind]. apply Forall_map.
  eapply Forall_impl; [| apply windowLoop_scores].
  intros a Ha. exact Ha.
Qed.

Lemma category_result_scores `{JsHost} (E : Env) (userId categoryId : string)
      (r : CategoryResult) :
  detectAnomaliesForCategory E userId categoryId = Ok r -> Forall scoreIsNumber (anomalies r).
Proof.
  unfold detectAnomaliesForCategory. rewrite rethrow_id. unfold categoryBody.
  destruct (queryCategoryExpenses E userId (Some categoryId)) as [transactions | e];
    [| discriminate].
  cbn [bind]. destruct (List.length transactions <? 5)%nat.
  - intros [= <-]. constructor.
  - destruct (outlierModel E categoryId transactions) as [r' |] eqn:Hm.
    + intros [= <-]. now apply (outlierModel_scores E categoryId transactions).
    + apply fallback_scores.
Qed.

Lemma Promise_all_Ok {A} (rs : list (result A)) (l : list A) :
  Promise_all rs = Ok l -> Forall (fun a => In (Ok a) rs) l.
Proof.
  revert l. induction rs as [| r rs IH]; intros l; simpl.
  - intros [= <-]. constructor.
  - destruct r as [a | e]; [| discriminate].
    destruct (Promise_all rs) as [l' | e]; [| discriminate].
    intros [= <-]. constructor; [now left |].
    eapply Forall_impl; [| apply IH; reflexivity].
    intros a' Ha'. now right.
Qed.

(** The feed is the sorted concatenation of the categories' anomalies. *)
Lemma user_feed `{JsHost} (E : Env) (userId : string) (feed : list AnomalyRecord) :
  detectAnomaliesForUser E userId = Ok feed ->
  exists found,
    feed = Array.sort byDateThenScore found /\ Forall scoreIsNumber found.
Proof.
  unfold detectAnomaliesForUser. rewrite rethrow_id. unfold userBody.
  destruct (queryExpenses E userId) as [snapshot | e]; [| discriminate].
  cbn [bind].
  destruct (List.length snapshot =? 0)%nat;
    [intros [= <-]; exists []; split; [reflexivity | constructor] |].
  destruct (List.length (categoriesOf snapshot) =? 0)%nat;
    [intros [= <-]; exists []; split; [reflexivity | constructor] |].
  destruct (Promise_all _) as [results | e] eqn:Hall; [| discriminate].
  cbn [bind]. intros [= <-]. eexists; split; [reflexivity |].
  apply Promise_all_Ok in Hall.
  apply Forall_forall. intros a Ha.
  apply in_flat_map in Ha. destruct Ha as (r & Hr & Ha).
  rewrite Forall_forall in Hall. specialize (Hall r Hr).
  apply in_map_iff in Hall. destruct Hall as (c & Hc & _).
  apply category_result_scores in Hc. rewrite Forall_forall in Hc. now apply Hc.
Qed.

(** ** The order of the feed *)

Section FeedOrder.
Import Binary64 Binary64Facts.
Local Open Scope Z_scope.

Lemma keyed_date (a : AnomalyRecord) : keyed a -> Num.isNaN (date (tx a)) = false.
Proof.
  intros [Hd _]. unfold hasValidDate, Date.isValid in Hd.
  now apply negb_true_iff in Hd.
Qed.

Lemma keyed_score (a : AnomalyRecord) : keyed a -> Num.isNaN (abs (anomalyScore a)) = false.
Proof. intros [_ Hs]. now rewrite abs_isNaN. Qed.

(** What the comparator of the feed decides, on ranks: [a] has to follow
    [b] when it is older, or of the same date and less anomalous. *)
Lemma follows_byDateThenScore (a b : AnomalyRecord) :
  keyed a -> keyed b ->
  Array.follows byDateThenScore a b
  = (dateRank a <? dateRank b) || ((dateRank a =? dateRank b) && (scoreRank a <? scoreRank b)).
Proof.
  intros Ha Hb.
  pose proof (keyed_date a Ha) as Da. pose proof (keyed_date b Hb) as Db.
  pose proof (keyed_score a Ha) as Sa. pose proof (keyed_score b Hb) as Sb.
  unfold Array.follows, byDateThenScore.
  rewrite (eqb_rank _ _ Db Da). fold (dateRank a) (dateRank b).
  destruct (Z.eqb_spec (dateRank b) (dateRank a)) as [Heq | Hne]; cbn [negb].
  - rewrite sub_positive, (ltb_rank _ _ Sa Sb). fold (scoreRank a) (scoreRank b).
    rewrite Heq, Z.ltb_irrefl, Z.eqb_refl. reflexivity.
  - rewrite sub_positive, (ltb_rank _ _ Da Db). fold (dateRank a) (dateRank b).
    destruct (Z.eqb_spec (dateRank a) (dateRank b)); [congruence |].
    now rewrite andb_false_l, orb_false_r.
Qed.

Lemma precedes_ranks (a b : AnomalyRecord) :
  keyed a -> keyed b ->
  precedes a b
  = (dateRank b <? dateRank a) || ((dateRank a =? dateRank b) && (scoreRank b <=? scoreRank a)).
Proof.
  intros Ha Hb.
  pose proof (keyed_date a Ha) as Da. pose proof (keyed_date b Hb) as Db.
  pose proof (keyed_score a Ha) as Sa. pose proof (keyed_score b Hb) as Sb.
  unfold precedes.
  now rewrite (ltb_rank _ _ Db Da), (eqb_rank _ _ Da Db), (leb_rank _ _ Sb Sa).
Qed.

Lemma precedes_iff_not_follows (a b : AnomalyRecord) :
  keyed a -> keyed b ->
  precedes a b = negb (Array.follows byDateThenScore a b).
Proof.
  intros Ha Hb. rewrite precedes_ranks, follows_byDateThenScore by assumption.
  destruct (Z.ltb_spec (dateRank b) (dateRank a)),
           (Z.ltb_spec (dateRank a) (dateRank b)),
           (Z.eqb_spec (dateRank a) (dateRank b)),
           (Z.leb_spec (scoreRank b) (scoreRank a)),
           (Z.ltb_spec (scoreRank a) (scoreRank b)); simpl; try reflexivity; lia.
Qed.

Lemma follows_asym (a b : AnomalyRecord) :
  keyed a -> keyed b ->
  Array.follows byDateThenScore a b = true -> Array.follows byDateThenScore b a = false.
Proof.
  intros Ha Hb. rewrite !follows_byDateThenScore by assumption.
  destruct (Z.ltb_spec (dateRank b) (dateRank a)),
           (Z.ltb_spec (dateRank a) (dateRank b)),
           (Z.eqb_spec (dateRank a) (dateRank b)),
           (Z.eqb_spec (dateRank b) (dateRank a)),
           (Z.ltb_spec (scoreRank b) (scoreRank a)),
           (Z.ltb_spec (scoreRank a) (scoreRank b)); simpl; try reflexivity;
    try discriminate; lia.
Qed.

Lemma follows_trans (a b c : AnomalyRecord) :
  keyed a -> keyed b -> keyed c ->
  Array.follows byDateThenScore a b = false ->
  Array.follows byDateThenScore b c = false ->
  Array.follows byDateThenScore a c = false.
Proof.
  intros Ha Hb Hc. rewrite !follows_byDateThenScore by assumption.
  intros Hab Hbc.
  apply orb_false_iff in Hab, Hbc. destruct Hab as [Hab1 Hab2], Hbc as [Hbc1 Hbc2].
  apply Z.ltb_ge in Hab1, Hbc1.
  apply andb_false_iff in Hab2, Hbc2.
  apply orb_false_iff. split.
  - apply Z.ltb_ge. lia.
  - apply andb_false_iff.
    destruct (Z.eqb_spec (dateRank a) (dateRank c)) as [Heq | Hne]; [right | now left].
    apply Z.ltb_ge.
    assert (Hab : dateRank a = dateRank b) by lia.
    assert (Hbc : dateRank b = dateRank c) by lia.
    destruct Hab2 as [Hab2 | Hab2]; [apply Z.eqb_neq in Hab2; lia |].
    destruct Hbc2 as [Hbc2 | Hbc2]; [apply Z.eqb_neq in Hbc2; lia |].
    apply Z.ltb_ge in Hab2, Hbc2. lia.
Qed.

(** Sorting anomalies that all have a date and a score orders them. *)
Lemma sorted_feed_ordered (found : list AnomalyRecord) :
  Forall hasValidDate found -> Forall scoreIsNumber found ->
  feedOrdered (Array.sort byDateThenScore found).
Proof.
  intros Hd Hs.
  assert (Hk : Forall keyed found).
  { rewrite Forall_forall in *. intros a Ha. split; auto. }
  pose proof (sort_sorted byDateThenScore keyed follows_asym follows_trans found Hk) as Hsorted.
  assert (Hk' : Forall keyed (Array.sort byDateThenScore found))
    by now apply sort_Forall.
  unfold feedOrdered.
  induction Hsorted as [| a l Hl IH Ha]; constructor.
  - apply IH. now inversion Hk'.
  - inversion Hk' as [| ? ? Ka Kl]; subst.
    rewrite Forall_forall in *. intros b Hb'.
    rewrite precedes_iff_not_follows by auto.
    now rewrite (Ha b Hb').
Qed.
End FeedOrder.

(** When every anomaly returned has a valid date, the feed is ordered by
    date, most recent first, and anomalies of the same date by the absolute
    value of their score, largest first. *)
Theorem feed_is_ordered `{JsHost} (E : Env) (userId : string) (feed : list AnomalyRecord) :
  detectAnomaliesForUser E userId = Ok feed ->
  Forall hasValidDate feed ->
  feedOrdered feed.
Proof.
  intros Hfeed Hdates.
  destruct (user_feed E userId feed Hfeed) as (found & -> & Hscores).
  apply sorted_feed_ordered; [| assumption].
  eapply Permutation_Forall; [symmetry; apply sort_Permutation | exact Hdates].
Qed.

Lemma feed_is_ordered_witness :
  exists feed,
    @detectAnomaliesForUser SampleHost.host
      (Scenario.envOf Scenario.consecutive Scenario.threeOutliers) "u" = Ok feed
    /\ map (fun a => id (tx a)) feed = ["f"; "d"; "b"]
    /\ feedOrdered feed.
Proof.
  eexists. split; [vm_compute; reflexivity |]. split; [reflexivity |].
  apply (@feed_is_ordered SampleHost.host
           (Scenario.envOf Scenario.consecutive Scenario.threeOutliers) "u").
  - vm_compute. reflexivity.
  - repeat constructor.
Defined.

(** C5: the feed is not most recent first when an anomaly has no valid
    date, for which the comparator has no case: of the three anomalies
    returned the first is dated two days before the third. *)
Lemma undated_anomaly_breaks_order :
  match @detectAnomaliesForUser SampleHost.host
          (Scenario.envOf Scenario.undatedOutlier Scenario.threeOutliers) "u" with
  | Ok feed => map (fun a => (id (tx a), date (tx a))) feed
  | Throw _ => []
  end
  = [("b", Scenario.utc 1); ("f", nan); ("d", Scenario.utc 3)]
  /\ (Scenario.utc 1 <? Scenario.utc 3)%float = true.
Proof. split; vm_compute; reflexivity. Qed.

(** ** Rounding is monotone

    A rounded result is never on the other side of a representable value
    than the exact one: what this says of sums, differences, products and
    quotients is enough to see that the score of a flagged amount is
    positive. *)

Module Binary64Rounding.
Import Binary64 Binary64Spec Binary64Facts.
Local Open Scope Z_scope.

Lemma fexp_value (x : Z) : fexp x = Z.max (x - 53) (-1074).
Proof. reflexivity. Qed.

(** The number of digits orders the values. *)
Lemma digits_le (p q : positive) (a b : Z) :
  0 <= a -> 0 <= b ->
  Zpos p * 2 ^ a <= Zpos q * 2 ^ b ->
  Zpos (digits2_pos p) + a <= Zpos (digits2_pos q) + b.
Proof.
  intros Ha Hb Hle.
  pose proof (digits_lower p) as Hl. pose proof (digits_upper q) as Hu.
  set (dp := Zpos (digits2_pos p)) in *. set (dq := Zpos (digits2_pos q)) in *.
  assert (Hdp : 0 < dp) by (unfold dp; lia).
  assert (Hdq : 0 < dq) by (unfold dq; lia).
  assert (H1 : 2 ^ (dp - 1 + a) <= Zpos p * 2 ^ a).
  { rewrite Z.pow_add_r by lia. apply Z.mul_le_mono_nonneg_r; [| assumption].
    apply Z.pow_nonneg. lia. }
  assert (H2 : Zpos q * 2 ^ b < 2 ^ (dq + b)).
  { rewrite Z.pow_add_r by lia. apply Z.mul_lt_mono_pos_r; [| assumption].
    apply Z.pow_pos_nonneg; lia. }
  assert (H3 : 2 ^ (dp - 1 + a) < 2 ^ (dq + b)) by lia.
  apply Z.pow_lt_mono_r_iff in H3; lia.
Qed.

Lemma digits_shift (p : positive) (k : Z) (q : positive) :
  0 <= k -> Zpos q = Zpos p * 2 ^ k ->
  Zpos (digits2_pos q) = Zpos (digits2_pos p) + k.
Proof.
  intros Hk Hq.
  pose proof (digits_le p q k 0 Hk ltac:(lia)) as H1.
  pose proof (digits_le q p 0 k ltac:(lia) Hk) as H2.
  rewrite Z.pow_0_r, Z.mul_1_r in H1, H2. lia.
Qed.

Lemma shr_m_value (m : Z) (l : location) (e n : Z) :
  0 <= m ->
  shr_m (fst (shr (shr_record_of_loc m l) e n)) = m / 2 ^ Z.max n 0.
Proof.
  intros Hm. unfold shr.
  assert (Hrec : shr_m (shr_record_of_loc m l) = m)
    by (destruct l as [| []]; reflexivity).
  destruct n as [| p | p]; cbn [fst].
  - now rewrite Hrec, Z.div_1_r.
  - rewrite iter_pos_nat, shr_iter_m by (rewrite Hrec; assumption).
    rewrite Hrec, positive_nat_Z. f_equal.
  - now rewrite Hrec, Z.div_1_r.
Qed.

Lemma round_nearest_even_bounds (m : Z) (l : location) :
  m <= round_nearest_even m l <= m + 1
  /\ (l = loc_Exact -> round_nearest_even m l = m).
Proof.
  unfold round_nearest_even. destruct l as [| []]; try destruct (Z.even m);
    repeat split; try lia; discriminate.
Qed.

Lemma round_aux_finish (s : bool) (q e : Z) (l : location) :
  binary_round_aux prec emax s q e l
  = finish s
      (round_nearest_even (shr_m (fst (shr_fexp prec emax q e l)))
                          (loc_of_shr_record (fst (shr_fexp prec emax q e l))))
      (snd (shr_fexp prec emax q e l)).
Proof. unfold binary_round_aux, finish. now destruct (shr_fexp prec emax q e l). Qed.

Lemma finish_zero (s : bool) (e : Z) : finish s 0 e = S754_zero s.
Proof.
  unfold finish, shr_fexp, shr. cbn [Zdigits2 shr_record_of_loc].
  destruct (SpecFloat.fexp prec emax (0 + e) - e) as [| p | p]; try reflexivity.
  assert (Hz : forall n r sb, shr_m (Nat.iter n shr_1 (Build_shr_record 0 r sb)) = 0).
  { intros n r sb. rewrite shr_iter_m by (cbn; lia). cbn [shr_m]. apply Z.div_0_l.
    apply Z.pow_nonzero; lia. }
  rewrite iter_pos_nat. now rewrite Hz.
Qed.

Lemma finish_small (s : bool) (p : positive) (e : Z) :
  Zpos p < 2 ^ prec -> emin <= e ->
  finish s (Zpos p) e
  = if e <=? emax - prec then S754_finite s p e else S754_infinity s.
Proof.
  intros Hp He. unfold finish, shr_fexp. cbn [Zdigits2].
  assert (Hd : Zpos (digits2_pos p) <= 53).
  { pose proof (digits_lower p) as Hl. change prec with 53 in Hp.
    assert (H : 2 ^ (Zpos (digits2_pos p) - 1) < 2 ^ 53) by lia.
    apply Z.pow_lt_mono_r_iff in H; lia. }
  assert (Hn : SpecFloat.fexp prec emax (Zpos (digits2_pos p) + e) - e <= 0).
  { rewrite fexp_value. rewrite emin_value in He. lia. }
  unfold shr. destruct (SpecFloat.fexp prec emax _ - e) as [| n | n]; try lia; reflexivity.
Qed.

Lemma finish_carry (s : bool) (e : Z) :
  emin <= e ->
  finish s (2 ^ prec) e
  = if e + 1 <=? emax - prec then S754_finite s (2 ^ 52)%positive (e + 1)
    else S754_infinity s.
Proof.
  intros He. unfold finish, shr_fexp.
  change (Zdigits2 (2 ^ prec)) with 54.
  assert (Hn : SpecFloat.fexp prec emax (54 + e) - e = 1).
  { rewrite fexp_value. rewrite emin_value in He. lia. }
  rewrite Hn. reflexivity.
Qed.

(** The rank of a rounded value does not depend on its sign but for its
    own. *)
Lemma finish_opp (m e : Z) :
  rankSF (finish true m e) = - rankSF (finish false m e).
Proof.
  unfold finish. destruct (shr_fexp prec emax m e loc_Exact) as [mrs e'].
  destruct (shr_m mrs); try reflexivity.
  destruct (e' <=? emax - prec); reflexivity.
Qed.

Lemma round_aux_opp (q e : Z) (l : location) :
  rankSF (binary_round_aux prec emax true q e l)
  = - rankSF (binary_round_aux prec emax false q e l).
Proof. rewrite !round_aux_finish. apply finish_opp. Qed.

Lemma round_opp (p : positive) (e : Z) :
  rankSF (binary_round prec emax true p e) = - rankSF (binary_round prec emax false p e).
Proof.
  unfold binary_round. destruct (shl_align p e _) as [mz ez]. apply round_aux_opp.
Qed.

Lemma bounded_fexp (m : positive) (e : Z) :
  bounded prec emax m e = true -> fexp (Zpos (digits2_pos m) + e) = e.
Proof.
  unfold bounded, canonical_mantissa. rewrite andb_true_iff, Z.eqb_eq. tauto.
Qed.

Lemma rankSF_finite_value (s : bool) (m : positive) (e : Z) :
  rankSF (S754_finite s m e) = cond_Zopp s ((e + 1074) * 9007199254740992 + Zpos m).
Proof. reflexivity. Qed.

Lemma rankSF_infinity_value (s : bool) :
  rankSF (S754_infinity s) = cond_Zopp s 36893488147419103232.
Proof. reflexivity. Qed.

Lemma finish_lower (m2 e1 : Z) (mr : positive) (er : Z) :
  0 < m2 <= 2 ^ prec -> emin <= e1 ->
  bounded prec emax mr er = true ->
  (er - emin) * 2 ^ prec + Zpos mr <= (e1 - emin) * 2 ^ prec + m2 ->
  rankSF (S754_finite false mr er) <= rankSF (finish false m2 e1).
Proof.
  intros Hm He Hb Hle.
  pose proof (rankSF_finite mr er Hb) as Hr.
  rewrite rankSF_finite_value. cbn [cond_Zopp].
  rewrite emin_value in *. change (2 ^ prec) with 9007199254740992 in *.
  destruct (Z.eq_dec m2 9007199254740992) as [-> | Hne].
  - change 9007199254740992 with (2 ^ prec) at 2.
    rewrite finish_carry by (rewrite emin_value; assumption).
    destruct (e1 + 1 <=? emax - prec).
    + rewrite rankSF_finite_value. cbn [cond_Zopp].
      change (Zpos (2 ^ 52)) with 4503599627370496. lia.
    + rewrite rankSF_infinity_value. cbn [cond_Zopp]. lia.
  - destruct m2 as [| p | p]; try lia.
    rewrite finish_small
      by (rewrite ?emin_value; change (2 ^ prec) with 9007199254740992; lia).
    destruct (e1 <=? emax - prec).
    + rewrite rankSF_finite_value. cbn [cond_Zopp]. lia.
    + rewrite rankSF_infinity_value. cbn [cond_Zopp]. lia.
Qed.

Lemma finish_upper (m2 e1 : Z) (mr : positive) (er : Z) :
  0 <= m2 <= 2 ^ prec -> emin <= e1 ->
  bounded prec emax mr er = true ->
  (e1 - emin) * 2 ^ prec + m2 <= (er - emin) * 2 ^ prec + Zpos mr ->
  rankSF (finish false m2 e1) <= rankSF (S754_finite false mr er).
Proof.
  intros Hm He Hb Hle.
  pose proof (rankSF_finite mr er Hb) as Hr.
  pose proof (bounded_mantissa mr er Hb) as Hmr.
  pose proof (bounded_canonical mr er Hb) as (Her & Hdr & Hcan).
  pose proof (digits_lower mr) as Hlow.
  rewrite (rankSF_finite_value false mr er). cbn [cond_Zopp].
  rewrite emin_value in *. change (2 ^ prec) with 9007199254740992 in *.
  unfold emax, prec in Her.
  destruct (Z.eq_dec m2 9007199254740992) as [-> | Hne].
  - change 9007199254740992 with (2 ^ prec) at 1.
    rewrite finish_carry by (rewrite emin_value; assumption).
    assert (Hlt : e1 + 1 <= er) by lia.
    destruct (Z.leb_spec (e1 + 1) (emax - prec)) as [Hfin | Hinf];
      [| unfold emax, prec in Hinf; lia].
    rewrite rankSF_finite_value. cbn [cond_Zopp].
    change (Zpos (2 ^ 52)) with 4503599627370496.
    destruct Hcan as [Hcan | Hcan]; [lia |].
    rewrite Hcan in Hlow. change (2 ^ (prec - 1)) with 4503599627370496 in Hlow. lia.
  - destruct m2 as [| p | p]; try lia.
    + rewrite finish_zero. cbn [rankSF]. lia.
    + rewrite finish_small
        by (rewrite ?emin_value; change (2 ^ prec) with 9007199254740992; lia).
      destruct (Z.leb_spec e1 (emax - prec)) as [Hfin | Hinf].
      * rewrite rankSF_finite_value. cbn [cond_Zopp]. lia.
      * unfold emax, prec in Hinf. lia.
Qed.

Lemma finish_rank_nonneg (m e : Z) : emin <= e -> 0 <= rankSF (finish false m e).
Proof.
  intros He. unfold finish, shr_fexp.
  pose proof (shr_exponent (shr_record_of_loc m loc_Exact) e
                (SpecFloat.fexp prec emax (Zdigits2 m + e) - e)) as Hex.
  destruct (shr _ e _) as [mrs e']. cbn [snd] in Hex.
  destruct (shr_m mrs); cbn [rankSF]; try lia.
  destruct (e' <=? emax - prec).
  - rewrite rankSF_finite_value. cbn [cond_Zopp]. rewrite emin_value in He. lia.
  - rewrite rankSF_infinity_value. cbn [cond_Zopp]. lia.
Qed.

Lemma pow2_split (a b : Z) : 0 <= a -> 0 <= b -> 2 ^ (a + b) = 2 ^ a * 2 ^ b.
Proof. intros. now apply Z.pow_add_r. Qed.

Lemma pow2_pos (a : Z) : 0 <= a -> 0 < 2 ^ a.
Proof. intros. apply Z.pow_pos_nonneg; lia. Qed.

(** What a shift by [fexp] leaves of a positive mantissa. *)
Lemma shr_fexp_value (q : positive) (e : Z) (l : location) :
  e <= fexp (Zpos (digits2_pos q) + e) ->
  let e1 := fexp (Zpos (digits2_pos q) + e) in
  shr_m (fst (shr_fexp prec emax (Zpos q) e l)) = Zpos q / 2 ^ (e1 - e)
  /\ snd (shr_fexp prec emax (Zpos q) e l) = e1
  /\ Zpos q / 2 ^ (e1 - e) < 2 ^ prec
  /\ emin <= e1.
Proof.
  intros Hn e1. unfold shr_fexp. cbn [Zdigits2]. fold e1.
  rewrite shr_exponent, shr_m_value by lia.
  replace (Z.max (e1 - e) 0) with (e1 - e) by lia.
  repeat split.
  - lia.
  - pose proof (digits_upper q) as Hu.
    set (dq := Zpos (digits2_pos q)) in *.
    assert (Hdq : 0 < dq) by (unfold dq; lia).
    apply Z.div_lt_upper_bound; [apply pow2_pos; lia |].
    rewrite <- pow2_split by (unfold prec; lia).
    eapply Z.lt_le_trans; [exact Hu |].
    apply Z.pow_le_mono_r; [lia |].
    unfold e1. rewrite fexp_value. unfold prec. lia.
  - unfold e1. rewrite fexp_value, emin_value. lia.
Qed.

(** Rounding never goes below a representable value that the exact one
    reaches. *)
Lemma round_aux_lower (q : positive) (e : Z) (l : location) (mr : positive) (er b : Z) :
  e <= fexp (Zpos (digits2_pos q) + e) ->
  bounded prec emax mr er = true ->
  b <= e -> b <= er ->
  Zpos mr * 2 ^ (er - b) <= Zpos q * 2 ^ (e - b) ->
  rankSF (S754_finite false mr er)
  <= rankSF (binary_round_aux prec emax false (Zpos q) e l).
Proof.
  intros Hn Hb Hbe Hber Hle.
  rewrite round_aux_finish.
  destruct (shr_fexp_value q e l Hn) as (Hm1 & He1 & Hlt & Hemin).
  rewrite Hm1, He1.
  set (loc := loc_of_shr_record _).
  set (e1 := fexp (Zpos (digits2_pos q) + e)) in *.
  destruct (round_nearest_even_bounds (Zpos q / 2 ^ (e1 - e)) loc) as [[Hlo Hhi] _].
  set (m2 := round_nearest_even _ _) in *.
  pose proof (digits_le mr q (er - b) (e - b) ltac:(lia) ltac:(lia) Hle) as Hd.
  pose proof (bounded_fexp mr er Hb) as Hcan.
  pose proof (bounded_mantissa mr er Hb) as Hmr.
  pose proof (digits_lower q) as Hql.
  set (dq := Zpos (digits2_pos q)) in *.
  set (dr := Zpos (digits2_pos mr)) in *.
  assert (Hdq : 0 < dq) by (unfold dq; lia).
  assert (Her : er <= e1).
  { unfold e1. rewrite <- Hcan, !fexp_value. lia. }
  assert (Hpn : 0 < 2 ^ (e1 - e)) by (apply pow2_pos; lia).
  assert (Hm1pos : 0 < Zpos q / 2 ^ (e1 - e) \/ er = e1).
  { destruct (Z.eq_dec er e1) as [Heq | Hne]; [now right | left].
    apply Z.div_str_pos. split; [assumption |].
    eapply Z.le_trans; [| exact Hql].
    apply Z.pow_le_mono_r; [lia |].
    unfold e1 in *. rewrite fexp_value in *.
    pose proof (bounded_canonical mr er Hb) as (Hrange & _). rewrite emin_value in Hrange.
    lia. }
  assert (Hmr1 : er = e1 -> Zpos mr <= Zpos q / 2 ^ (e1 - e)).
  { intros Heq. apply Z.div_le_lower_bound; [assumption |].
    rewrite Heq in Hle.
    replace (e1 - b) with ((e1 - e) + (e - b)) in Hle by lia.
    rewrite pow2_split, Z.mul_assoc in Hle by lia.
    apply Z.mul_le_mono_pos_r in Hle; [lia | apply pow2_pos; lia]. }
  apply finish_lower; try assumption.
  - split; [| lia]. destruct Hm1pos as [Hp | Heq]; [lia |].
    specialize (Hmr1 Heq). lia.
  - rewrite emin_value in *. change (2 ^ prec) with 9007199254740992 in *.
    destruct (Z.eq_dec er e1) as [Heq | Hne].
    + specialize (Hmr1 Heq). rewrite Heq. lia.
    + lia.
Qed.

(** A mantissa that is a multiple of the power shifted out is shifted
    exactly. *)
Lemma shr_1_even (r : shr_record) (k : Z) :
  loc_of_shr_record r = loc_Exact -> 0 <= k -> shr_m r = 2 * k ->
  loc_of_shr_record (shr_1 r) = loc_Exact.
Proof.
  destruct r as [m [] []]; cbn [loc_of_shr_record shr_m]; try discriminate.
  intros _ Hk Hm. destruct m as [| [p | p |] | p]; cbn; try reflexivity; lia.
Qed.

Lemma shr_iter_multiple (n : nat) (r : shr_record) (k : Z) :
  loc_of_shr_record r = loc_Exact -> 0 <= k -> shr_m r = k * 2 ^ Z.of_nat n ->
  loc_of_shr_record (Nat.iter n shr_1 r) = loc_Exact.
Proof.
  revert k. induction n as [| n IH]; intros k Hloc Hk Hm; [exact Hloc |].
  rewrite Nat.iter_succ.
  rewrite Nat2Z.inj_succ, Z.pow_succ_r in Hm by lia.
  apply (shr_1_even _ k); [| assumption |].
  - apply (IH (2 * k)); [assumption | lia | lia].
  - rewrite shr_iter_m by lia. rewrite Hm.
    replace (k * (2 * 2 ^ Z.of_nat n)) with (2 * k * 2 ^ Z.of_nat n) by ring.
    apply Z.div_mul. apply Z.pow_nonzero; lia.
Qed.

Lemma shr_multiple (m e n k : Z) :
  0 <= k -> m = k * 2 ^ Z.max n 0 ->
  loc_of_shr_record (fst (shr (shr_record_of_loc m loc_Exact) e n)) = loc_Exact.
Proof.
  intros Hk Hm. unfold shr. destruct n as [| p | p]; cbn [fst]; try reflexivity.
  rewrite iter_pos_nat. apply (shr_iter_multiple _ _ k); [reflexivity | assumption |].
  cbn [shr_record_of_loc shr_m]. rewrite positive_nat_Z. exact Hm.
Qed.

(** Rounding never goes above a representable value that the exact one
    does not exceed. *)
Lemma round_aux_upper (q : positive) (e : Z) (mr : positive) (er b : Z) :
  e <= fexp (Zpos (digits2_pos q) + e) ->
  bounded prec emax mr er = true ->
  b <= e -> b <= er ->
  Zpos q * 2 ^ (e - b) <= Zpos mr * 2 ^ (er - b) ->
  rankSF (binary_round_aux prec emax false (Zpos q) e loc_Exact)
  <= rankSF (S754_finite false mr er).
Proof.
  intros Hn Hb Hbe Hber Hle.
  rewrite round_aux_finish.
  destruct (shr_fexp_value q e loc_Exact Hn) as (Hm1 & He1 & Hlt & Hemin).
  rewrite Hm1, He1.
  set (e1 := fexp (Zpos (digits2_pos q) + e)) in *.
  pose proof (digits_le q mr (e - b) (er - b) ltac:(lia) ltac:(lia) Hle) as Hd.
  pose proof (bounded_fexp mr er Hb) as Hcan.
  pose proof (bounded_mantissa mr er Hb) as Hmr.
  assert (Her : e1 <= er).
  { unfold e1. rewrite <- Hcan, !fexp_value. lia. }
  assert (Hpn : 0 < 2 ^ (e1 - e)) by (apply pow2_pos; lia).
  assert (Hm2 : e1 = er ->
                round_nearest_even (Zpos q / 2 ^ (e1 - e))
                  (loc_of_shr_record (fst (shr_fexp prec emax (Zpos q) e loc_Exact)))
                <= Zpos mr).
  { intros Heq. rewrite <- Heq in Hle.
    replace (e1 - b) with ((e1 - e) + (e - b)) in Hle by lia.
    rewrite pow2_split, Z.mul_assoc in Hle by lia.
    apply Z.mul_le_mono_pos_r in Hle; [| apply pow2_pos; lia].
    pose proof (Z.mul_div_le (Zpos q) (2 ^ (e1 - e)) Hpn) as Hfloor.
    destruct (Z.eq_dec (Zpos q) (Zpos q / 2 ^ (e1 - e) * 2 ^ (e1 - e))) as [Hex | Hinex].
    - unfold shr_fexp. cbn [Zdigits2]. fold e1.
      rewrite (shr_multiple (Zpos q) e (e1 - e) (Zpos q / 2 ^ (e1 - e)));
        [| apply Z.div_pos; lia
         | replace (Z.max (e1 - e) 0) with (e1 - e) by lia; exact Hex].
      cbn [round_nearest_even]. apply Z.div_le_upper_bound; [assumption |]. lia.
    - destruct (round_nearest_even_bounds (Zpos q / 2 ^ (e1 - e))
                  (loc_of_shr_record (fst (shr_fexp prec emax (Zpos q) e loc_Exact))))
        as [[_ Hhi] _].
      assert (Hstrict : Zpos q / 2 ^ (e1 - e) < Zpos mr).
      { destruct (Z.lt_ge_cases (Zpos q / 2 ^ (e1 - e)) (Zpos mr)) as [Hlt' | Hge];
          [assumption | exfalso].
        assert (Zpos mr * 2 ^ (e1 - e) <= Zpos q / 2 ^ (e1 - e) * 2 ^ (e1 - e))
          by (apply Z.mul_le_mono_nonneg_r; lia).
        lia. }
      lia. }
  set (loc := loc_of_shr_record _) in *.
  destruct (round_nearest_even_bounds (Zpos q / 2 ^ (e1 - e)) loc) as [[Hlo Hhi] _].
  set (m2 := round_nearest_even _ _) in *.
  assert (Hm1nonneg : 0 <= Zpos q / 2 ^ (e1 - e)) by (apply Z.div_pos; lia).
  apply finish_upper; try assumption.
  - lia.
  - rewrite emin_value in *. change (2 ^ prec) with 9007199254740992 in *.
    destruct (Z.eq_dec e1 er) as [Heq | Hne].
    + specialize (Hm2 Heq). rewrite Heq. lia.
    + lia.
Qed.

(** The alignment that precedes a rounding keeps the value, and leaves
    nothing for the rounding to shift back. *)
Lemma shl_align_fexp (p : positive) (e : Z) :
  emin <= e ->
  let mz := fst (shl_align p e (fexp (Zpos (digits2_pos p) + e))) in
  let ez := snd (shl_align p e (fexp (Zpos (digits2_pos p) + e))) in
  Zpos mz * 2 ^ (ez - emin) = Zpos p * 2 ^ (e - emin)
  /\ ez <= fexp (Zpos (digits2_pos mz) + ez)
  /\ emin <= ez.
Proof.
  intros He mz ez.
  set (f := fexp (Zpos (digits2_pos p) + e)) in *.
  assert (Hf : emin <= f) by (unfold f; rewrite fexp_value, emin_value; lia).
  assert (Hez : ez = Z.min e f) by apply shl_align_exponent.
  destruct (Z.le_gt_cases f e) as [Hle | Hgt].
  - assert (Hmz : Zpos mz = Zpos p * 2 ^ (e - f)) by now apply shl_align_value.
    replace ez with f in * by lia.
    pose proof (digits_shift p (e - f) mz ltac:(lia) Hmz) as Hd.
    repeat split; [| | assumption].
    + rewrite Hmz, <- Z.mul_assoc, <- pow2_split by lia. do 2 f_equal. lia.
    + rewrite Hd. replace (Zpos (digits2_pos p) + (e - f) + f)
        with (Zpos (digits2_pos p) + e) by lia.
      fold f. lia.
  - assert (Hsame : shl_align p e f = (p, e)).
    { unfold shl_align. destruct (f - e) eqn:Hd; try reflexivity; lia. }
    unfold mz, ez. rewrite Hsame. cbn [fst snd]. fold f. repeat split; lia.
Qed.

Lemma round_lower (p : positive) (e : Z) (mr : positive) (er : Z) :
  emin <= e -> bounded prec emax mr er = true ->
  Zpos mr * 2 ^ (er - emin) <= Zpos p * 2 ^ (e - emin) ->
  rankSF (S754_finite false mr er) <= rankSF (binary_round prec emax false p e).
Proof.
  intros He Hb Hle. unfold binary_round.
  destruct (shl_align_fexp p e He) as (Hv & Hn & Hez).
  destruct (shl_align p e _) as [mz ez]. cbn [fst snd] in *.
  pose proof (bounded_canonical mr er Hb) as (Her & _).
  apply (round_aux_lower mz ez loc_Exact mr er emin); try assumption; try lia.
Qed.

Lemma round_upper (p : positive) (e : Z) (mr : positive) (er : Z) :
  emin <= e -> bounded prec emax mr er = true ->
  Zpos p * 2 ^ (e - emin) <= Zpos mr * 2 ^ (er - emin) ->
  rankSF (binary_round prec emax false p e) <= rankSF (S754_finite false mr er).
Proof.
  intros He Hb Hle. unfold binary_round.
  destruct (shl_align_fexp p e He) as (Hv & Hn & Hez).
  destruct (shl_align p e _) as [mz ez]. cbn [fst snd] in *.
  pose proof (bounded_canonical mr er Hb) as (Her & _).
  apply (round_aux_upper mz ez mr er emin); try assumption; try lia.
Qed.

Lemma round_rank_nonneg (p : positive) (e : Z) :
  emin <= e -> 0 <= rankSF (binary_round prec emax false p e).
Proof.
  intros He. unfold binary_round.
  destruct (shl_align_fexp p e He) as (_ & Hn & Hez).
  destruct (shl_align p e _) as [mz ez]. cbn [fst snd] in *.
  rewrite round_aux_finish. apply finish_rank_nonneg.
  destruct (shr_fexp_value mz ez loc_Exact Hn) as (_ & -> & _ & Hemin). exact Hemin.
Qed.

(** Rounding an exact value [S * 2 ^ k] never goes below a representable
    value that it reaches. *)
Lemma normalize_lower (x : spec_float) (S k : Z) :
  valid_binary x = true -> isBounded x = true -> emin <= k ->
  scaled x <= S * 2 ^ (k - emin) ->
  rankSF x <= rankSF (binary_normalize prec emax S k false).
Proof.
  intros Hv Hx Hk Hle.
  assert (Hp : 0 < 2 ^ (k - emin)) by (apply pow2_pos; lia).
  destruct x as [sx | sx | | sx mx ex]; try discriminate; cbn [valid_binary scaled] in *.
  - assert (HS : 0 <= S) by nia.
    destruct S as [| p | p]; cbn [binary_normalize rankSF]; try lia.
    now apply round_rank_nonneg.
  - pose proof (rankSF_finite mx ex Hv) as Hr.
    pose proof (bounded_canonical mx ex Hv) as (Hex & _).
    assert (Hq : 0 < Zpos mx * 2 ^ (ex - emin)).
    { apply Z.mul_pos_pos; [lia | apply pow2_pos; lia]. }
    destruct sx; cbn [cond_Zopp] in Hle.
    + rewrite rankSF_finite_value. cbn [cond_Zopp].
      rewrite emin_value in Hr. change (2 ^ prec) with 9007199254740992 in Hr.
      destruct S as [| p | p]; cbn [binary_normalize].
      * cbn [rankSF]. lia.
      * pose proof (round_rank_nonneg p k Hk). lia.
      * rewrite round_opp.
        pose proof (round_upper p k mx ex Hk Hv) as Hu.
        rewrite rankSF_finite_value in Hu. cbn [cond_Zopp] in Hu.
        assert (Zpos p * 2 ^ (k - emin) <= Zpos mx * 2 ^ (ex - emin)).
        { change (Zneg p) with (- Zpos p) in Hle. lia. }
        lia.
    + destruct S as [| p | p]; cbn [binary_normalize]; try nia.
      now apply round_lower.
Qed.

Lemma mul_compare_mono_r (a b c : Z) : 0 < c -> (a * c ?= b * c) = (a ?= b).
Proof.
  intros Hc. destruct (Z.compare_spec a b) as [-> | Hlt | Hgt].
  - apply Z.compare_refl.
  - apply Z.compare_lt_iff. nia.
  - apply Z.compare_gt_iff. nia.
Qed.

(** The exact value orders the numbers as [SFcompare] does. *)
Lemma scaled_compare (x y : spec_float) :
  valid_binary x = true -> valid_binary y = true ->
  isBounded x = true -> isBounded y = true ->
  SFcompare x y = Some (scaled x ?= scaled y).
Proof.
  intros Vx Vy Bx By.
  destruct x as [sx | sx | | sx mx ex], y as [sy | sy | | sy my ey];
    try discriminate; cbn [valid_binary] in *.
  - reflexivity.
  - pose proof (bounded_canonical my ey Vy) as (Hey & _).
    assert (0 < Zpos my * 2 ^ (ey - emin))
      by (apply Z.mul_pos_pos; [lia | apply pow2_pos; lia]).
    cbn [SFcompare scaled]. f_equal. destruct sy; cbn [cond_Zopp]; symmetry.
    + apply Z.compare_gt_iff. lia.
    + apply Z.compare_lt_iff. lia.
  - pose proof (bounded_canonical mx ex Vx) as (Hex & _).
    assert (0 < Zpos mx * 2 ^ (ex - emin))
      by (apply Z.mul_pos_pos; [lia | apply pow2_pos; lia]).
    cbn [SFcompare scaled]. f_equal. destruct sx; cbn [cond_Zopp]; symmetry.
    + apply Z.compare_lt_iff. lia.
    + apply Z.compare_gt_iff. lia.
  - rewrite (compare_aligned sx sy mx my ex ey Vx Vy). f_equal.
    pose proof (bounded_canonical mx ex Vx) as (Hex & _).
    pose proof (bounded_canonical my ey Vy) as (Hey & _).
    unfold aligned, scaled.
    rewrite !shl_align_value by lia.
    set (k := Z.min ex ey).
    assert (Hk : 0 < 2 ^ (k - emin)) by (apply pow2_pos; lia).
    rewrite <- (mul_compare_mono_r _ _ (2 ^ (k - emin))) by assumption.
    assert (Hsx : Zpos mx * 2 ^ (ex - k) * 2 ^ (k - emin) = Zpos mx * 2 ^ (ex - emin)).
    { rewrite <- Z.mul_assoc, <- pow2_split by lia. do 2 f_equal. lia. }
    assert (Hsy : Zpos my * 2 ^ (ey - k) * 2 ^ (k - emin) = Zpos my * 2 ^ (ey - emin)).
    { rewrite <- Z.mul_assoc, <- pow2_split by lia. do 2 f_equal. lia. }
    f_equal.
    + destruct sx; cbn [cond_Zopp]; rewrite ?Z.mul_opp_l, Hsx; reflexivity.
    + destruct sy; cbn [cond_Zopp]; rewrite ?Z.mul_opp_l, Hsy; reflexivity.
Qed.

Lemma scaled_rank (x y : spec_float) :
  valid_binary x = true -> valid_binary y = true ->
  isBounded x = true -> isBounded y = true ->
  (scaled x ?= scaled y) = (rankSF x ?= rankSF y).
Proof.
  intros Vx Vy Bx By.
  pose proof (scaled_compare x y Vx Vy Bx By) as Hs.
  rewrite SFcompare_rank in Hs by (assumption || (destruct x, y; now try discriminate)).
  now injection Hs.
Qed.

Lemma scaled_le_rank (x y : spec_float) :
  valid_binary x = true -> valid_binary y = true ->
  isBounded x = true -> isBounded y = true ->
  scaled x <= scaled y <-> rankSF x <= rankSF y.
Proof.
  intros Vx Vy Bx By. unfold Z.le. now rewrite scaled_rank.
Qed.

Lemma aligned_scaled (s : bool) (m : positive) (e k : Z) :
  emin <= k -> k <= e ->
  cond_Zopp s (Zpos (fst (shl_align m e k))) * 2 ^ (k - emin)
  = scaled (S754_finite s m e).
Proof.
  intros Hk Hke. rewrite shl_align_value by assumption. cbn [scaled].
  assert (Hs : Zpos m * 2 ^ (e - k) * 2 ^ (k - emin) = Zpos m * 2 ^ (e - emin)).
  { rewrite <- Z.mul_assoc, <- pow2_split by lia. do 2 f_equal. lia. }
  destruct s; cbn [cond_Zopp]; rewrite ?Z.mul_opp_l, Hs; reflexivity.
Qed.

Lemma rank_of_zero_le (x : spec_float) :
  valid_binary x = true -> isBounded x = true ->
  scaled x <= 0 -> rankSF x <= 0.
Proof.
  intros Vx Bx Hle.
  now apply (scaled_le_rank x (S754_zero false)) in Hle.
Qed.

(** A sum never rounds below a representable value that the exact sum
    reaches. *)
Lemma SFadd_lower (x m t : spec_float) :
  valid_binary x = true -> valid_binary m = true -> valid_binary t = true ->
  isBounded x = true -> isBounded m = true -> isBounded t = true ->
  scaled x <= scaled m + scaled t ->
  rankSF x <= rankSF (SFadd prec emax m t).
Proof.
  intros Vx Vm Vt Bx Bm Bt Hle.
  destruct m as [sm | sm | | sm mm em], t as [st | st | | st mt et]; try discriminate.
  - cbn [scaled] in Hle.
    assert (Hz : rankSF (SFadd prec emax (S754_zero sm) (S754_zero st)) = 0)
      by (destruct sm, st; reflexivity).
    rewrite Hz. now apply rank_of_zero_le.
  - cbn [SFadd]. apply scaled_le_rank; auto.
  - cbn [SFadd]. apply scaled_le_rank; auto. cbn [scaled] in *. lia.
  - cbn [SFadd]. cbn [valid_binary] in Vm, Vt.
    pose proof (bounded_canonical mm em Vm) as (Hem & _).
    pose proof (bounded_canonical mt et Vt) as (Het & _).
    apply normalize_lower; try assumption; try lia.
    rewrite Z.mul_add_distr_r, !aligned_scaled by lia. exact Hle.
Qed.

(** Nor does a difference. *)
Lemma SFsub_lower (x a m : spec_float) :
  valid_binary x = true -> valid_binary a = true -> valid_binary m = true ->
  isBounded x = true -> isBounded a = true -> isBounded m = true ->
  scaled x <= scaled a - scaled m ->
  rankSF x <= rankSF (SFsub prec emax a m).
Proof.
  intros Vx Va Vm Bx Ba Bm Hle.
  destruct a as [sa | sa | | sa ma ea], m as [sm | sm | | sm mm em]; try discriminate.
  - cbn [scaled] in Hle.
    assert (Hz : rankSF (SFsub prec emax (S754_zero sa) (S754_zero sm)) = 0)
      by (destruct sa, sm; reflexivity).
    rewrite Hz. now apply rank_of_zero_le.
  - cbn [SFsub]. apply scaled_le_rank; auto.
    cbn [scaled] in *. destruct sm; cbn [negb cond_Zopp] in *; lia.
  - cbn [SFsub]. apply scaled_le_rank; auto. cbn [scaled] in *. lia.
  - cbn [SFsub]. cbn [valid_binary] in Va, Vm.
    pose proof (bounded_canonical ma ea Va) as (Hea & _).
    pose proof (bounded_canonical mm em Vm) as (Hem & _).
    apply normalize_lower; try assumption; try lia.
    rewrite Z.mul_sub_distr_r, !aligned_scaled by lia. exact Hle.
Qed.

(** A product with a factor in [[2, 4)] is not below the other factor. *)
Lemma SFmul_factor_lower (mc md : positive) (ed : Z) :
  2 ^ 52 <= Zpos mc ->
  bounded prec emax md ed = true ->
  rankSF (S754_finite false md ed)
  <= rankSF (SFmul prec emax (S754_finite false mc (-51)) (S754_finite false md ed)).
Proof.
  intros Hc Hd. cbn [SFmul xorb].
  assert (Hle : Zpos md * 2 ^ 51 <= Zpos (mc * md) * 2 ^ 0).
  { rewrite Pos2Z.inj_mul. change (2 ^ 52) with 4503599627370496 in Hc.
    change (2 ^ 51) with 2251799813685248. change (2 ^ 0) with 1. nia. }
  assert (Hwide : Zpos md * 2 ^ 52 <= Zpos (mc * md) * 2 ^ 0).
  { rewrite Pos2Z.inj_mul. change (2 ^ 52) with 4503599627370496 in *.
    change (2 ^ 0) with 1. nia. }
  pose proof (digits_le md (mc * md) 52 0 ltac:(lia) ltac:(lia) Hwide) as Hdig.
  apply (round_aux_lower (mc * md) (-51 + ed) loc_Exact md ed (-51 + ed)); try assumption.
  - rewrite fexp_value. lia.
  - lia.
  - lia.
  - replace (ed - (-51 + ed)) with 51 by lia.
    replace (-51 + ed - (-51 + ed)) with 0 by lia. exact Hle.
Qed.

(** The quotient of a positive value by one that is not larger is
    positive. *)
Lemma SFdiv_positive (mu md : positive) (eu ed : Z) :
  bounded prec emax mu eu = true -> bounded prec emax md ed = true ->
  rankSF (S754_finite false md ed) <= rankSF (S754_finite false mu eu) ->
  signedNonzero false
    (SFdiv prec emax (S754_finite false mu eu) (S754_finite false md ed)).
Proof.
  intros Hu Hd Hle. cbn [SFdiv xorb]. unfold SFdiv_core_binary. cbn [Zdigits2].
  rewrite !rankSF_finite_value in Hle. cbn [cond_Zopp] in Hle.
  pose proof (bounded_mantissa mu eu Hu) as Hmu.
  pose proof (bounded_mantissa md ed Hd) as Hmd.
  change (2 ^ prec) with 9007199254740992 in Hmu, Hmd.
  pose proof (bounded_canonical mu eu Hu) as (Heu & Hdu & Hcu).
  pose proof (bounded_canonical md ed Hd) as (Hed & Hdd & Hcd).
  rewrite emin_value in *. unfold prec, emax in *.
  pose proof (digits_lower mu) as Hlu. pose proof (digits_upper md) as Hud.
  set (du := Zpos (digits2_pos mu)) in *. set (dd := Zpos (digits2_pos md)) in *.
  assert (Hdu0 : 0 < du) by (unfold du; lia).
  assert (Hdd0 : 0 < dd) by (unfold dd; lia).
  assert (Hexp : ed <= eu) by lia.
  assert (Hdig : dd + ed <= du + eu).
  { destruct (Z.eq_dec ed eu) as [-> | Hne].
    - assert (Hm : Zpos md * 2 ^ 0 <= Zpos mu * 2 ^ 0) by lia.
      pose proof (digits_le md mu 0 0 ltac:(lia) ltac:(lia) Hm). fold dd du in H. lia.
    - lia. }
  set (e' := Z.min (SpecFloat.fexp 53 1024 (du + eu - (dd + ed))) (eu - ed)).
  assert (He' : -1074 <= e') by (unfold e'; rewrite fexp_value; lia).
  assert (Hs : 0 <= eu - ed - e') by (unfold e'; lia).
  assert (Hwide : dd + 1 <= du + (eu - ed - e')).
  { unfold e'. rewrite fexp_value. lia. }
  set (m' := match eu - ed - e' with
             | 0 => Zpos mu
             | Zpos _ => Z.shiftl (Zpos mu) (eu - ed - e')
             | Zneg _ => 0
             end).
  assert (Hm' : m' = Zpos mu * 2 ^ (eu - ed - e')).
  { unfold m'. destruct (eu - ed - e') as [| p | p] eqn:Hsv.
    - now rewrite Z.mul_1_r.
    - apply Z.shiftl_mul_pow2. lia.
    - lia. }
  assert (Hbig : Zpos md < m').
  { rewrite Hm'.
    eapply Z.lt_le_trans; [exact Hud |].
    eapply Z.le_trans; [apply (Z.pow_le_mono_r 2 dd (du - 1 + (eu - ed - e'))); lia |].
    rewrite pow2_split by lia.
    apply Z.mul_le_mono_nonneg_r; [apply Z.pow_nonneg; lia | exact Hlu]. }
  assert (Hq : 0 < m' / Zpos md).
  { apply Z.div_str_pos. lia. }
  unfold Z.div in Hq.
  destruct (Z.div_eucl m' (Zpos md)) as [q r]. cbn [fst] in Hq.
  destruct q as [| q | q]; try lia.
  apply binary_round_aux_nonzero. rewrite emin_value. exact He'.
Qed.

Lemma rank_positive_cases (x : spec_float) :
  valid_binary x = true -> 0 < rankSF x ->
  x = S754_infinity false
  \/ exists m e, x = S754_finite false m e /\ bounded prec emax m e = true.
Proof.
  destruct x as [s | s | | s m e]; cbn [rankSF valid_binary]; intros V Hr; try lia.
  - destruct s; cbn [cond_Zopp] in Hr; try lia. now left.
  - pose proof (rankSF_finite m e V) as Hm.
    destruct s; cbn [cond_Zopp] in Hr; try lia. right. eauto.
Qed.

Lemma SFltb_rank (x y : spec_float) :
  valid_binary x = true -> valid_binary y = true ->
  SFltb x y = true -> rankSF x < rankSF y.
Proof.
  intros Vx Vy Hlt. unfold SFltb in Hlt.
  destruct (isNan x) eqn:Nx; [destruct x; discriminate |].
  destruct (isNan y) eqn:Ny; [destruct x, y; discriminate |].
  rewrite SFcompare_rank in Hlt by assumption.
  destruct (rankSF x ?= rankSF y) eqn:Hc; try discriminate.
  now apply Z.compare_lt_iff.
Qed.

(** The score of a flagged amount is positive: when [x] exceeds
    [m + c * d] for a deviation [d] that is positive and a factor [c] in
    [[2, 4)], the quotient [(x - m) / d] is positive.  The threshold [a],
    its term [t] and the difference [u] are the rounded ones. *)
Lemma flagged_quotient_positive (m d x t a u : spec_float) (mc : positive) :
  2 ^ 52 <= Zpos mc ->
  valid_binary m = true -> valid_binary d = true -> valid_binary x = true ->
  valid_binary t = true -> valid_binary a = true -> valid_binary u = true ->
  t = SFmul prec emax (S754_finite false mc (-51)) d ->
  a = SFadd prec emax m t ->
  u = SFsub prec emax x m ->
  nonnegOrNan d -> SFeqb d (S754_zero false) = false ->
  SFltb a x = true ->
  SFltb (S754_zero false) (SFdiv prec emax u d) = true.
Proof.
  intros Hc Vm Vd Vx Vt Va Vu Et Ea Eu Hd Hnz Hlt.
  destruct d as [sd | sd | | sd md ed]; cbn [nonnegOrNan] in Hd; subst sd || idtac.
  - discriminate.
  - (* an infinite deviation gives an infinite or undefined threshold *)
    cbn [SFmul xorb] in Et. subst t.
    destruct m as [sm | [] | | sm mm em]; cbn [SFadd] in Ea; subst a;
      destruct x as [sx | [] | | sx mx ex]; discriminate.
  - cbn [SFmul] in Et. subst t. destruct m; cbn [SFadd] in Ea; subst a; discriminate.
  - cbn [valid_binary] in Vd.
    pose proof (SFmul_factor_lower mc md ed Hc Vd) as Ht. rewrite <- Et in Ht.
    pose proof (rankSF_finite md ed Vd) as Hdpos.
    rewrite rankSF_finite_value in Ht. cbn [cond_Zopp] in Ht.
    rewrite emin_value in Hdpos. change (2 ^ prec) with 9007199254740992 in Hdpos.
    destruct (rank_positive_cases t Vt ltac:(lia)) as [Hti | (mt & et & Htf & Vtf)].
    + (* the term overflows: no amount exceeds the threshold *)
      rewrite Hti in Ea.
      destruct m as [sm | [] | | sm mm em]; cbn [SFadd] in Ea; subst a;
        destruct x as [sx | [] | | sx mx ex]; discriminate.
    + rewrite Htf in Ea, Ht.
      assert (Hinf : u = S754_infinity false ->
                     SFltb (S754_zero false)
                           (SFdiv prec emax u (S754_finite false md ed)) = true)
        by (intros ->; reflexivity).
      destruct (isBounded m) eqn:Bm.
      2:{ (* an infinite or undefined mean *)
        destruct m as [sm | [] | | sm mm em]; try discriminate; cbn [SFadd] in Ea; subst a;
          try (destruct x as [sx | [] | | sx mx ex]; discriminate).
        apply Hinf. subst u.
        destruct x as [sx | [] | | sx mx ex]; try discriminate; reflexivity. }
      destruct (isBounded x) eqn:Bx.
      2:{ destruct x as [sx | [] | | sx mx ex]; try discriminate.
          - destruct a as [sa | [] | | [] ma ea]; discriminate.
          - apply Hinf. subst u. destruct m; try discriminate; reflexivity.
          - destruct a; discriminate. }
      (* the mean and the amount are finite *)
      assert (Hsum : scaled m + scaled (S754_finite false mt et) <= scaled x).
      { destruct (Z.le_gt_cases (scaled m + scaled (S754_finite false mt et)) (scaled x))
          as [Hle | Hgt]; [assumption | exfalso].
        pose proof (SFadd_lower x m (S754_finite false mt et) Vx Vm Vtf Bx Bm eq_refl
                      ltac:(lia)) as Hlow.
        rewrite <- Ea in Hlow.
        pose proof (SFltb_rank a x Va Vx Hlt). lia. }
      pose proof (SFsub_lower (S754_finite false mt et) x m Vtf Vx Vm eq_refl Bx Bm
                    ltac:(lia)) as Hu.
      rewrite <- Eu in Hu. rewrite rankSF_finite_value in Hu. cbn [cond_Zopp] in Hu.
      rewrite rankSF_finite_value in Ht. cbn [cond_Zopp] in Ht.
      destruct (rank_positive_cases u Vu ltac:(lia)) as [Hui | (mu & eu & Huf & Vuf)].
      * now apply Hinf.
      * rewrite Huf.
        assert (Hle : rankSF (S754_finite false md ed) <= rankSF (S754_finite false mu eu)).
        { rewrite Huf in Hu. rewrite !rankSF_finite_value in *. cbn [cond_Zopp] in *. lia. }
        pose proof (SFdiv_positive mu md eu ed Vuf Vd Hle) as Hpos.
        clear Hinf.
        destruct (SFdiv prec emax _ _) as [s | s | | s p e]; cbn [signedNonzero] in Hpos;
          try contradiction; rewrite Hpos; reflexivity.
Qed.

End Binary64Rounding.

(** The score of an amount above the threshold of a window whose standard
    deviation is not zero is positive. *)
Lemma window_score_positive (contextAmounts : list float) (x : float) :
  Num.gt x (threshold binary64 contextAmounts) = true ->
  (stdDev binary64 contextAmounts =? 0)%float = false ->
  (0 <? score binary64 contextAmounts x)%float = true.
Proof.
  intros Hgt Hsd.
  unfold Num.gt, threshold in Hgt. unfold score.
  cbn [add sub mul div twoAndHalf binary64] in Hgt |- *.
  set (m := mean binary64 contextAmounts) in *.
  set (d := stdDev binary64 contextAmounts) in *.
  rewrite FloatAxioms.ltb_spec in Hgt |- *.
  rewrite FloatAxioms.eqb_spec in Hsd.
  rewrite FloatAxioms.div_spec.
  apply (Binary64Rounding.flagged_quotient_positive
           (Prim2SF m) (Prim2SF d) (Prim2SF x)
           (Prim2SF (2.5 * d)) (Prim2SF (m + 2.5 * d)) (Prim2SF (x - m))
           5629499534213120);
    auto using Prim2SF_valid.
  - lia.
  - now rewrite FloatAxioms.mul_spec.
  - now rewrite FloatAxioms.add_spec.
  - now rewrite FloatAxioms.sub_spec.
  - apply Binary64Signs.stdDev_nonneg.
Qed.

(** So is the score of any amount above the threshold: with a zero
    deviation it is [Infinity]. *)
Lemma flagged_score_positive (contextAmounts : list float) (x : float) :
  Num.gt x (threshold binary64 contextAmounts) = true ->
  (0 <? score binary64 contextAmounts x)%float = true.
Proof.
  intros Hgt.
  destruct (stdDev binary64 contextAmounts =? 0)%float eqn:Hsd.
  - rewrite (Binary64Signs.threshold_of_zero_deviation _ _ Hsd) in Hgt.
    now rewrite (Binary64Signs.score_of_zero_deviation _ _ Hsd Hgt).
  - now apply window_score_positive.
Qed.

(** ** The score against the factor *)

Module ScoreBounds.
Import Reals Lra.
Local Open Scope R_scope.

Lemma stdDev_exact_nonneg (contextAmounts : list R) :
  0 <= stdDev Exact.arith contextAmounts.
Proof. unfold stdDev. cbn [sqrt Exact.arith]. apply sqrt_pos. Qed.

(** C10, as the code supports it: every score the window detector
    attaches is positive, that of a window whose standard deviation is not
    zero included; and read in exact real arithmetic, the score of an amount
    above the threshold of such a window exceeds 2.5. *)
Theorem flagged_score_bounds `{JsHost} :
  (forall (transactions : list Transaction) (i : nat) (a : AnomalyRecord),
      windowStep transactions i = Some a ->
      PrimFloat.ltb 0%float (anomalyScore a) = true)
  /\ (forall (contextAmounts : list R) (currentAmount : R),
         stdDev Exact.arith contextAmounts <> 0 ->
         currentAmount > threshold Exact.arith contextAmounts ->
         score Exact.arith contextAmounts currentAmount > 5 / 2).
Proof.
  split.
  - intros transactions i a Hstep. unfold windowStep in Hstep.
    destruct (nth_error transactions i) as [currentTx |]; [| discriminate].
    destruct (Num.gt _ _) eqn:Hgt; [| discriminate].
    injection Hstep as <-. cbn [anomalyScore].
    now apply flagged_score_positive.
  - intros contextAmounts currentAmount Hsd Hgt.
    pose proof (stdDev_exact_nonneg contextAmounts) as Hpos.
    unfold score, threshold in *.
    cbn [add sub mul div twoAndHalf Exact.arith] in *.
    set (sd := stdDev Exact.arith contextAmounts) in *.
    set (mu := mean Exact.arith contextAmounts) in *.
    assert (Hsd0 : 0 < sd) by lra.
    apply Rlt_gt. apply (Rmult_lt_reg_r sd); [assumption |].
    replace ((currentAmount - mu) / sd * sd) with (currentAmount - mu) by (field; lra).
    lra.
Qed.

Lemma flagged_score_bounds_witness :
  (exists a,
      @windowStep SampleHost.host Scenario.consecutive 5 = Some a
      /\ PrimFloat.ltb 0%float (anomalyScore a) = true)
  /\ score Exact.arith [0; 0; 0; 0; 10] 13 > 5 / 2.
Proof.
  destruct (@flagged_score_bounds SampleHost.host) as [Hfloat Hexact].
  split.
  - eexists. split; [vm_compute; reflexivity |].
    apply (Hfloat Scenario.consecutive 5%nat). vm_compute. reflexivity.
  - assert (Hmean : mean Exact.arith [0; 0; 0; 0; 10] = 2).
    { unfold mean. cbn. field. }
    assert (Hsd : stdDev Exact.arith [0; 0; 0; 0; 10] = 4).
    { unfold stdDev. rewrite Hmean. cbn.
      replace ((0 + (0 - 2) * (0 - 2) + (0 - 2) * (0 - 2) + (0 - 2) * (0 - 2)
                + (0 - 2) * (0 - 2) + (10 - 2) * (10 - 2)) / (1 + 1 + 1 + 1 + 1))
        with (4 * 4) by field.
      apply sqrt_square. lra. }
    apply Hexact.
    + rewrite Hsd. lra.
    + unfold threshold. rewrite Hmean, Hsd. cbn. lra.
Defined.
End ScoreBounds.

(** C10, as stated, fails in binary64: after amounts 1, 3, 4, 8 and 9 the
    first value above the threshold is flagged with a standard deviation
    that is not zero, and its score is 2.5, not more. *)
Lemma score_rounds_to_factor :
  (stdDev binary64 (@amountsOf SampleHost.host (contextWindow Scenario.roundingSeries 5)) =? 0)%float
  = false
  /\ map (fun a => (id (tx a), anomalyScore a))
         (snd (@detectAnomaliesWithSlidingWindow SampleHost.host Scenario.roundingSeries))
     = [("f", 2.5%float)]
  /\ (2.5 <? 2.5)%float = false.
Proof. repeat split; vm_compute; reflexivity. Qed.

(** ** The range of the recency *)

Module Binary64Recency.
Import Binary64 Binary64Spec Binary64Facts Binary64Signs Binary64Scores.
Local Open Scope Z_scope.

Lemma SFltb_SFleb (x y : spec_float) : SFltb x y = true -> SFleb x y = true.
Proof. unfold SFltb, SFleb. now destruct (SFcompare x y) as [[] |]. Qed.

(** The difference of two bounded values is not negative when the first is
    not the smaller. *)
Lemma SFsub_not_negative (x y : spec_float) :
  valid_binary x = true -> valid_binary y = true ->
  isBounded x = true -> isBounded y = true ->
  SFleb y x = true ->
  SFleb (S754_zero false) (SFsub prec emax x y) = true.
Proof.
  intros Vx Vy Bx By Hle.
  destruct x as [sx | sx | | sx mx ex], y as [sy | sy | | sy my ey]; try discriminate.
  - destruct sx, sy; reflexivity.
  - destruct sy; [reflexivity | discriminate].
  - destruct sx; [discriminate | reflexivity].
  - simpl in Vx, Vy. cbn [SFsub].
    assert (Hez : emin <= Z.min ex ey).
    { apply bounded_canonical in Vx, Vy. lia. }
    unfold SFleb in Hle. rewrite (compare_aligned sy sx my mx ey ex Vy Vx) in Hle.
    rewrite (Z.min_comm ey ex) in Hle. unfold aligned in Hle.
    set (a := cond_Zopp sx _) in *. set (b := cond_Zopp sy _) in *.
    destruct (Z.compare_spec b a) as [Heq | Hlt | Hgt]; try discriminate.
    + replace (a - b) with 0 by lia. reflexivity.
    + apply SFltb_SFleb. rewrite (normalize_positive _ _ Hez). apply Z.ltb_lt. lia.
Qed.

(** Dividing by a positive finite value keeps what is not negative so. *)
Lemma SFdiv_not_negative (x : spec_float) (mc : positive) (ec : Z) :
  SFleb (S754_zero false) x = true ->
  SFleb (S754_zero false) (SFdiv prec emax x (S754_finite false mc ec)) = true.
Proof.
  destruct x as [sx | sx | | sx mx ex]; try discriminate.
  - intros _. reflexivity.
  - destruct sx; [discriminate | reflexivity].
  - destruct sx; [discriminate | intros _]. cbn [SFdiv xorb].
    pose proof (div_core_nonneg mx mc ex ec) as Hq.
    destruct (SFdiv_core_binary prec emax (Zpos mx) ex (Zpos mc) ec) as [[mz ez] lz].
    cbn [fst] in Hq.
    pose proof (round_aux_nonneg mz ez lz) as Hs.
    pose proof (round_aux_not_nan false mz ez lz Hq) as Hn.
    destruct (binary_round_aux prec emax false mz ez lz) as [s | s | | s m e];
      cbn [nonnegOrNan] in Hs; subst; try discriminate; reflexivity.
Qed.

Local Open Scope float_scope.

Lemma is_finite_bounded (x : float) :
  is_finite x = true -> isBounded (Prim2SF x) = true.
Proof.
  unfold is_finite, is_nan, is_infinity.
  rewrite !FloatAxioms.eqb_spec, FloatAxioms.abs_spec.
  change (Prim2SF infinity) with (S754_infinity false).
  destruct (Prim2SF x) as [s | s | | s m e]; try reflexivity; intros Hf.
  - destruct s; discriminate.
  - discriminate.
Qed.

Lemma min2_one_upper (x : float) :
  Num.isNaN x = false -> (Num.min2 1 x <=? 1) = true.
Proof.
  intros Hx. unfold Num.min2. rewrite Hx.
  change (Num.isNaN 1) with false. cbn [orb].
  destruct (1 <? x) eqn:H1; [reflexivity |].
  destruct (x <? 1) eqn:H2.
  - rewrite ltb_rank in H2 by (auto; reflexivity).
    rewrite leb_rank by (auto; reflexivity).
    apply Z.ltb_lt in H2. apply Z.leb_le. lia.
  - change (get_sign 1) with false. cbn iota.
    rewrite ltb_rank in H1, H2 by (auto; reflexivity).
    rewrite leb_rank by (auto; reflexivity).
    apply Z.ltb_ge in H1. now apply Z.leb_le.
Qed.

Lemma min2_one_lower (x : float) :
  (0 <=? x) = true -> (0 <=? Num.min2 1 x) = true.
Proof.
  intros Hx. destruct (leb_not_nan _ _ Hx) as [_ Hn].
  unfold Num.min2. rewrite Hn.
  change (Num.isNaN 1) with false. cbn [orb].
  destruct (1 <? x); [reflexivity |].
  destruct (x <? 1); [assumption |].
  change (get_sign 1) with false. cbn iota. assumption.
Qed.

(** The quotient of the recency is not negative for a date that is not
    after the clock reading. *)
Lemma elapsed_not_negative (now t : float) :
  is_finite now = true -> is_finite t = true -> (t <=? now) = true ->
  (0 <=? (now - t) / (1000 * 60 * 60 * 24 * 30)) = true.
Proof.
  intros Fn Ft Hle.
  assert (Hc : exists mc ec,
             Prim2SF (1000 * 60 * 60 * 24 * 30) = S754_finite false mc ec)
    by (do 2 eexists; reflexivity).
  destruct Hc as (mc & ec & Hc).
  rewrite FloatAxioms.leb_spec, FloatAxioms.div_spec, FloatAxioms.sub_spec, Hc, Prim2SF_zero.
  apply SFdiv_not_negative, SFsub_not_negative;
    auto using Prim2SF_valid, is_finite_bounded.
  now rewrite <- FloatAxioms.leb_spec.
Qed.
End Binary64Recency.

(** For a transaction whose date is valid and not after the clock reading,
    the recency lies in [[0, 1]]. *)
Lemma recency_in_unit_interval `{JsHost} (now : float) (t : Transaction) :
  is_finite now = true -> is_finite (date t) = true ->
  (date t <=? now)%float = true ->
  exists r,
    nth_error (extractFeatures now t) 3 = Some r
    /\ (0 <=? r)%float = true /\ (r <=? 1)%float = true.
Proof.
  intros Fn Ft Hle.
  pose proof (Binary64Recency.elapsed_not_negative now (date t) Fn Ft Hle) as Hpos.
  destruct (Binary64Facts.leb_not_nan _ _ Hle) as [Hvalid _].
  destruct (Binary64Facts.leb_not_nan _ _ Hpos) as [_ Hnum].
  eexists. split; [| split].
  - unfold extractFeatures. rewrite Hvalid. reflexivity.
  - now apply Binary64Recency.min2_one_lower.
  - now apply Binary64Recency.min2_one_upper.
Qed.

Lemma recency_in_unit_interval_witness :
  exists r,
    nth_error (@extractFeatures SampleHost.host (Scenario.utc 40)
                 (Scenario.expense "a" 50 (Scenario.utc 10))) 3 = Some r
    /\ (0 <=? r)%float = true /\ (r <=? 1)%float = true.
Proof.
  apply (@recency_in_unit_interval SampleHost.host (Scenario.utc 40)
           (Scenario.expense "a" 50 (Scenario.utc 10))); reflexivity.
Defined.

(** ** Further properties of the module *)

(** Six expenses of 50, 52, 49, 51, 53 and 500 on consecutive days: the
    window detector flags the sixth and no other, with a positive score and
    a reason that names the category. *)
Lemma consecutive_days_scenario :
  map (fun a => (id (tx a), reason a))
      (snd (@detectAnomaliesWithSlidingWindow SampleHost.host Scenario.consecutive))
  = [("f", "This expense of $500.00 is extremely high compared to your typical Food spending of around $51.00.")]
  /\ forallb (fun a => (0 <? anomalyScore a)%float)
             (snd (@detectAnomaliesWithSlidingWindow SampleHost.host Scenario.consecutive))
     = true.
Proof. split; vm_compute; reflexivity. Qed.

(** ** The order of the outlier model's anomalies *)

Lemma belowThreshold_flagged `{JsHost} (scored : list (Transaction * option float)) :
  Forall (fun p => (snd p <? -0.3)%float = true) (belowThreshold scored).
Proof.
  induction scored as [| [t [s |]] rest IH]; simpl; auto.
  destruct (s <? -0.3)%float eqn:Hlt; [| assumption].
  now constructor.
Qed.

Lemma StronglySorted_map {A B} (R : A -> A -> Prop) (R' : B -> B -> Prop) (g : A -> B)
      (P : A -> Prop) (l : list A) :
  (forall a b, P a -> P b -> R a b -> R' (g a) (g b)) ->
  Forall P l -> StronglySorted R l -> StronglySorted R' (map g l).
Proof.
  intros Hg Hp Hs. induction Hs as [| a l Hs IH Ha]; simpl; constructor.
  - apply IH. now inversion Hp.
  - inversion Hp as [| ? ? Pa Pl]; subst.
    apply Forall_map. rewrite Forall_forall in *. intros b Hb. apply Hg; auto.
Qed.

Section ScoreOrder.
Import Binary64 Binary64Facts.

Lemma follows_byScore (p q : Transaction * float) :
  Array.follows (fun a b => (snd a - snd b)%float) p q = (snd q <? snd p)%float.
Proof. unfold Array.follows. apply sub_positive. Qed.

Lemma byScore_asym (p q : Transaction * float) :
  Num.isNaN (snd p) = false -> Num.isNaN (snd q) = false ->
  Array.follows (fun a b => (snd a - snd b)%float) p q = true ->
  inPlace (fun a b => (snd a - snd b)%float) q p.
Proof.
  intros Hp Hq. unfold inPlace. rewrite !follows_byScore, !ltb_rank by assumption.
  intros Hlt. apply Z.ltb_lt in Hlt. apply Z.ltb_ge. lia.
Qed.

Lemma byScore_trans (p q r : Transaction * float) :
  Num.isNaN (snd p) = false -> Num.isNaN (snd q) = false -> Num.isNaN (snd r) = false ->
  inPlace (fun a b => (snd a - snd b)%float) p q ->
  inPlace (fun a b => (snd a - snd b)%float) q r ->
  inPlace (fun a b => (snd a - snd b)%float) p r.
Proof.
  intros Hp Hq Hr. unfold inPlace. rewrite !follows_byScore, !ltb_rank by assumption.
  intros Hpq Hqr. apply Z.ltb_ge in Hpq, Hqr. apply Z.ltb_ge. lia.
Qed.

Lemma byScore_inPlace (p q : Transaction * float) :
  Num.isNaN (snd p) = false -> Num.isNaN (snd q) = false ->
  inPlace (fun a b => (snd a - snd b)%float) p q ->
  (snd p <=? snd q)%float = true.
Proof.
  intros Hp Hq. unfold inPlace. rewrite follows_byScore, ltb_rank, leb_rank by assumption.
  intros Hpq. apply Z.ltb_ge in Hpq. now apply Z.leb_le.
Qed.
End ScoreOrder.

(** What the outlier-model step returns when it does not fail: the
    transactions scored below [-0.3], most anomalous (lowest score) first,
    with neither message nor method label. *)
Lemma outlierModel_flags `{JsHost} (E : Env) (categoryId : string)
      (transactions : list Transaction) (r : CategoryResult) :
  outlierModel E categoryId transactions = Some r ->
  Forall (fun a => (anomalyScore a <? -0.3)%float = true) (anomalies r)
  /\ StronglySorted (fun a b => (anomalyScore a <=? anomalyScore b)%float = true) (anomalies r)
  /\ message r = None /\ method r = None.
Proof.
  unfold outlierModel.
  destruct (isolationForest E _) as [scores |]; [| discriminate].
  destruct (existsb Num.isNaN scores); [discriminate |].
  intros [= <-]. cbn [anomalies message method].
  set (flagged := belowThreshold (scoredFrom scores 0 transactions)).
  pose proof (belowThreshold_flagged (scoredFrom scores 0 transactions)) as Hflag.
  pose proof (belowThreshold_scores (scoredFrom scores 0 transactions)) as Hnum.
  fold flagged in Hflag, Hnum.
  repeat split.
  - apply Forall_map. cbn [anomalyScore withResolvedName].
    now apply sort_Forall.
  - apply (StronglySorted_map
             (inPlace (fun a b => (snd a - snd b)%float)) _ _
             (fun p => Num.isNaN (snd p) = false)).
    + intros p q Hp Hq Hpq. cbn [anomalyScore withResolvedName].
      now apply byScore_inPlace.
    + now apply sort_Forall.
    + apply (sort_sorted _ (fun p => Num.isNaN (snd p) = false)); auto.
      * intros a b. apply byScore_asym.
      * intros a b c. apply byScore_trans.
Qed.

(** ** The order the window detector leaves and reports *)

Section DateOrder.
Import Binary64 Binary64Facts.

Lemma follows_byDate (a b : Transaction) :
  Array.follows byDate a b = (date b <? date a)%float.
Proof. unfold Array.follows, byDate. apply sub_positive. Qed.

Lemma byDate_asym (a b : Transaction) :
  Num.isNaN (date a) = false -> Num.isNaN (date b) = false ->
  Array.follows byDate a b = true -> inPlace byDate b a.
Proof.
  intros Ha Hb. unfold inPlace. rewrite !follows_byDate, !ltb_rank by assumption.
  intros Hlt. apply Z.ltb_lt in Hlt. apply Z.ltb_ge. lia.
Qed.

Lemma byDate_trans (a b c : Transaction) :
  Num.isNaN (date a) = false -> Num.isNaN (date b) = false -> Num.isNaN (date c) = false ->
  inPlace byDate a b -> inPlace byDate b c -> inPlace byDate a c.
Proof.
  intros Ha Hb Hc. unfold inPlace. rewrite !follows_byDate, !ltb_rank by assumption.
  intros Hab Hbc. apply Z.ltb_ge in Hab, Hbc. apply Z.ltb_ge. lia.
Qed.

Lemma byDate_inPlace (a b : Transaction) :
  Num.isNaN (date a) = false -> Num.isNaN (date b) = false ->
  inPlace byDate a b -> (date a <=? date b)%float = true.
Proof.
  intros Ha Hb. unfold inPlace. rewrite follows_byDate, ltb_rank, leb_rank by assumption.
  intros Hab. apply Z.ltb_ge in Hab. now apply Z.leb_le.
Qed.

Lemma sort_byDate_sorted (transactions : list Transaction) :
  Forall (fun t => Num.isNaN (date t) = false) transactions ->
  StronglySorted (fun a b => (date a <=? date b)%float = true)
                 (Array.sort byDate transactions).
Proof.
  intros Hv.
  rewrite <- (map_id (Array.sort byDate transactions)).
  apply (StronglySorted_map (inPlace byDate) _ (fun t => t)
           (fun t => Num.isNaN (date t) = false)).
  - intros a b Ha Hb. now apply byDate_inPlace.
  - now apply sort_Forall.
  - apply (sort_sorted byDate (fun t => Num.isNaN (date t) = false)); auto.
    + exact byDate_asym.
    + exact byDate_trans.
Qed.
End DateOrder.

Lemma StronglySorted_nth {A} (R : A -> A -> Prop) (xs : list A) (i j : nat) (x y : A) :
  StronglySorted R xs -> (i < j)%nat ->
  nth_error xs i = Some x -> nth_error xs j = Some y -> R x y.
Proof.
  intros Hs. revert i j. induction Hs as [| a l Hs IH Ha]; intros i j Hij Hx Hy.
  - destruct i; discriminate.
  - destruct j as [| j]; [lia |]. cbn in Hy.
    destruct i as [| i]; cbn in Hx.
    + injection Hx as <-. rewrite Forall_forall in Ha. apply Ha.
      eapply nth_error_In; eassumption.
    + apply (IH i j); [lia | assumption | assumption].
Qed.

(** What is picked along increasing indices of a sorted array is sorted. *)
Lemma picked_sorted {A B} (R : A -> A -> Prop) (xs : list A)
      (f : nat -> option B) (g : B -> A) :
  (forall i b, f i = Some b -> nth_error xs i = Some (g b)) ->
  StronglySorted R xs ->
  forall n a,
    StronglySorted R
      (map g (flat_map (fun i => match f i with Some b => [b] | None => [] end)
                       (seq a n))).
Proof.
  intros Hf Hs. induction n as [| n IH]; intros a; [constructor |].
  cbn [seq flat_map]. rewrite map_app.
  destruct (f a) as [b |] eqn:Hb; cbn [map app]; [| apply IH].
  constructor; [apply IH |].
  apply Forall_forall. intros y Hy.
  apply in_map_iff in Hy. destruct Hy as (b' & <- & Hb').
  apply in_flat_map in Hb'. destruct Hb' as (j & Hj & Hb').
  apply in_seq in Hj.
  destruct (f j) as [b'' |] eqn:Hfj; [| contradiction].
  destruct Hb' as [<- | []].
  apply (StronglySorted_nth R xs a j); auto. lia.
Qed.

Lemma windowStep_tx `{JsHost} (transactions : list Transaction) (i : nat)
      (a : AnomalyRecord) :
  windowStep transactions i = Some a -> nth_error transactions i = Some (tx a).
Proof.
  unfold windowStep. destruct (nth_error transactions i) as [currentTx |]; [| discriminate].
  destruct (Num.gt _ _); [| discriminate]. now intros [= <-].
Qed.

(** When every date is valid, the call leaves the caller's array in date
    order, oldest first, and reports the anomalies in that order. *)
Theorem window_detector_date_order `{JsHost} (transactions : list Transaction) :
  Forall (fun t => Date.isValid (date t) = true) transactions ->
  StronglySorted (fun a b => (date a <=? date b)%float = true)
                 (fst (detectAnomaliesWithSlidingWindow transactions))
  /\ StronglySorted (fun a b => (date a <=? date b)%float = true)
                    (map tx (snd (detectAnomaliesWithSlidingWindow transactions))).
Proof.
  intros Hv.
  assert (Hn : Forall (fun t => Num.isNaN (date t) = false) transactions).
  { eapply Forall_impl; [| exact Hv]. intros t Ht. unfold Date.isValid in Ht.
    now apply negb_true_iff in Ht. }
  pose proof (sort_byDate_sorted transactions Hn) as Hs.
  unfold detectAnomaliesWithSlidingWindow. cbn [fst snd]. split; [exact Hs |].
  rewrite windowLoop_steps.
  apply (picked_sorted _ (Array.sort byDate transactions)); [| exact Hs].
  intros i b. apply windowStep_tx.
Qed.

Lemma window_detector_date_order_witness :
  map id (fst (@detectAnomaliesWithSlidingWindow SampleHost.host Scenario.shuffled))
  = ["a"; "b"; "c"; "d"; "e"; "f"]
  /\ StronglySorted (fun a b => (date a <=? date b)%float = true)
       (fst (@detectAnomaliesWithSlidingWindow SampleHost.host Scenario.shuffled))
  /\ StronglySorted (fun a b => (date a <=? date b)%float = true)
       (map tx (snd (@detectAnomaliesWithSlidingWindow SampleHost.host Scenario.shuffled))).
Proof.
  split; [vm_compute; reflexivity |].
  apply (@window_detector_date_order SampleHost.host Scenario.shuffled).
  repeat constructor.
Defined.

(** ** What the threshold lets through *)

Module Binary64Threshold.
Import Binary64 Binary64Spec Binary64Facts Binary64Rounding.
Local Open Scope Z_scope.

Lemma SFmul_nonneg (mc : positive) (ec : Z) (d : spec_float) :
  nonnegOrNan d -> nonnegOrNan (SFmul prec emax (S754_finite false mc ec) d).
Proof.
  destruct d as [s | s | | s m e]; cbn [nonnegOrNan SFmul xorb]; intros Hd; subst;
    try exact eq_refl; try exact I.
  apply Binary64Signs.round_aux_nonneg.
Qed.

Lemma rank_SFltb (x y : spec_float) :
  valid_binary x = true -> valid_binary y = true ->
  isNan x = false -> isNan y = false ->
  rankSF x < rankSF y -> SFltb x y = true.
Proof.
  intros Vx Vy Nx Ny Hlt. unfold SFltb. rewrite SFcompare_rank by assumption.
  apply Z.compare_lt_iff in Hlt. now rewrite Hlt.
Qed.

(** Adding a term that is not negative never gives less. *)
Lemma SFadd_not_below (m t : spec_float) :
  valid_binary m = true -> valid_binary t = true ->
  isBounded m = true -> isBounded t = true -> nonnegOrNan t ->
  rankSF m <= rankSF (SFadd prec emax m t).
Proof.
  intros Vm Vt Bm Bt Ht. apply SFadd_lower; try assumption.
  destruct t as [s | s | | s mt et]; try discriminate; cbn [scaled nonnegOrNan] in *.
  - lia.
  - subst s. cbn [cond_Zopp]. cbn [valid_binary] in Vt.
    pose proof (bounded_canonical mt et Vt) as (He & _).
    assert (0 < Zpos mt * 2 ^ (et - emin))
      by (apply Z.mul_pos_pos; [lia | apply pow2_pos; lia]).
    lia.
Qed.

(** What exceeds [m + c * d], for [c] positive and [d] not negative,
    exceeds [m]. *)
Lemma above_threshold_above_mean (m d x t a : spec_float) (mc : positive) (ec : Z) :
  valid_binary m = true -> valid_binary x = true ->
  valid_binary t = true -> valid_binary a = true ->
  t = SFmul prec emax (S754_finite false mc ec) d ->
  a = SFadd prec emax m t ->
  nonnegOrNan d ->
  SFltb a x = true -> SFltb m x = true.
Proof.
  intros Vm Vx Vt Va Et Ea Hd Hlt.
  pose proof (SFmul_nonneg mc ec d Hd) as Ht. rewrite <- Et in Ht.
  assert (Nx : isNan x = false) by (destruct a, x; try discriminate; reflexivity).
  assert (Na : isNan a = false) by (destruct a; try discriminate; reflexivity).
  destruct (isBounded t) eqn:Bt.
  - destruct (isBounded m) eqn:Bm.
    + pose proof (SFadd_not_below m t Vm Vt Bm Bt Ht) as Hle. rewrite <- Ea in Hle.
      pose proof (SFltb_rank a x Va Vx Hlt) as Hax.
      apply rank_SFltb; try assumption; [destruct m; now try discriminate | lia].
    + destruct m as [sm | sm | | sm mm em]; try discriminate;
        destruct t as [st | st | | st mt et]; try discriminate;
        cbn [SFadd] in Ea; subst a; try discriminate; exact Hlt.
  - destruct t as [st | st | | st mt et]; try discriminate; cbn [nonnegOrNan] in Ht.
    + subst st.
      destruct m as [sm | [] | | sm mm em]; cbn [SFadd] in Ea; subst a;
        destruct x as [sx | [] | | sx mx ex]; discriminate.
    + destruct m; cbn [SFadd] in Ea; subst a; discriminate.
Qed.
End Binary64Threshold.

Lemma flagged_above_mean (contextAmounts : list float) (x : float) :
  Num.gt x (threshold binary64 contextAmounts) = true ->
  Num.gt x (mean binary64 contextAmounts) = true.
Proof.
  unfold Num.gt, threshold. cbn [add mul twoAndHalf binary64].
  set (m := mean binary64 contextAmounts).
  set (d := stdDev binary64 contextAmounts).
  rewrite !FloatAxioms.ltb_spec. intros Hgt.
  assert (Hc : exists mc ec, Prim2SF 2.5 = S754_finite false mc ec)
    by (do 2 eexists; reflexivity).
  destruct Hc as (mc & ec & Hc).
  apply (Binary64Threshold.above_threshold_above_mean
           (Prim2SF m) (Prim2SF d) (Prim2SF x) (Prim2SF (2.5 * d)) (Prim2SF (m + 2.5 * d))
           mc ec);
    auto using Prim2SF_valid.
  - now rewrite FloatAxioms.mul_spec, Hc.
  - now rewrite FloatAxioms.add_spec.
  - apply Binary64Signs.stdDev_nonneg.
Qed.

(** ** Amounts that are not numbers *)

Section NotANumber.
Import Binary64 Binary64Facts.
Local Open Scope float_scope.

Lemma add_isNaN (x y : float) :
  Num.isNaN x = true \/ Num.isNaN y = true -> Num.isNaN (x + y) = true.
Proof.
  rewrite !isNaN_spec, FloatAxioms.add_spec.
  intros [Hx | Hy].
  - destruct (Prim2SF x); try discriminate. reflexivity.
  - destruct (Prim2SF y); try discriminate. now destruct (Prim2SF x).
Qed.

Lemma div_isNaN (x y : float) : Num.isNaN x = true -> Num.isNaN (x / y) = true.
Proof.
  rewrite !isNaN_spec, FloatAxioms.div_spec. intros Hx.
  destruct (Prim2SF x); try discriminate. reflexivity.
Qed.

Lemma gt_NaN (x y : float) :
  Num.isNaN x = true \/ Num.isNaN y = true -> Num.gt x y = false.
Proof.
  unfold Num.gt. rewrite !isNaN_spec, FloatAxioms.ltb_spec.
  intros [Hx | Hy].
  - destruct (Prim2SF x); try discriminate. now destruct (Prim2SF y).
  - destruct (Prim2SF y); try discriminate. reflexivity.
Qed.

Lemma sum_isNaN (xs : list float) (acc : float) :
  Num.isNaN acc = true \/ existsb Num.isNaN xs = true ->
  Num.isNaN (fold_left (fun sum val => sum + val) xs acc) = true.
Proof.
  revert acc. induction xs as [| x xs IH]; intros acc; cbn [fold_left existsb].
  - intros [Ha | Hx]; [assumption | discriminate].
  - intros [Ha | Hx]; apply IH.
    + left. apply add_isNaN. now left.
    + apply orb_true_iff in Hx. destruct Hx as [Hx | Hx]; [left | now right].
      apply add_isNaN. now right.
Qed.

(** One amount that is not a number makes the mean, and so the threshold,
    NaN. *)
Lemma threshold_isNaN (contextAmounts : list float) :
  existsb Num.isNaN contextAmounts = true ->
  Num.isNaN (threshold binary64 contextAmounts) = true.
Proof.
  intros Hx. unfold threshold, mean. cbn [add mul div zero ofNat twoAndHalf binary64].
  apply add_isNaN. left. apply div_isNaN. apply sum_isNaN. now right.
Qed.

Lemma amountsOf_isNaN `{JsHost} (ts : list Transaction) :
  existsb Num.isNaN (amountsOf ts)
  = existsb (fun t => Num.isNaN (parseFloat (amount t))) ts.
Proof. unfold amountsOf. induction ts as [| t ts IH]; cbn; congruence. Qed.
End NotANumber.

(** An amount is flagged only if it exceeds the mean of its context: the
    detector and the single check never flag an amount at or below the
    average. *)
Theorem flagged_amount_exceeds_mean `{JsHost} :
  (forall (transactions : list Transaction) (i : nat) (a : AnomalyRecord),
      windowStep transactions i = Some a ->
      Num.gt (parseFloat (amount (tx a)))
             (mean binary64 (amountsOf (contextWindow transactions i))) = true)
  /\ (forall (E : Env) (userId : string) (transaction : Transaction)
             (snapshot : list Transaction) (a : AnomalyRecord),
         queryCategoryExpenses E userId (category transaction) = Ok snapshot ->
         checkTransactionForAnomaly E userId transaction = Ok (Some (IsAnomaly a)) ->
         Num.gt (parseFloat (amount transaction))
                (mean binary64
                   (amountsOf
                      (filter (fun doc => negb (id doc =? id transaction)%string) snapshot)))
         = true).
Proof.
  split.
  - intros transactions i a. unfold windowStep.
    destruct (nth_error transactions i) as [currentTx |]; [| discriminate].
    destruct (Num.gt _ _) eqn:Hgt; [| discriminate].
    intros [= <-]. cbn [tx]. now apply flagged_above_mean.
  - intros E userId transaction snapshot a Hq.
    unfold checkTransactionForAnomaly, checkBody. rewrite (bind_Ok _ _ _ Hq).
    destruct (List.length _ <? 5)%nat; [discriminate |].
    destruct (Num.gt _ _) eqn:Hgt; [| discriminate].
    intros _. now apply flagged_above_mean.
Qed.

Lemma flagged_amount_exceeds_mean_witness :
  exists a,
    @windowStep SampleHost.host Scenario.consecutive 5 = Some a
    /\ Num.gt (@parseFloat SampleHost.host (amount (tx a)))
              (mean binary64 (@amountsOf SampleHost.host
                                (contextWindow Scenario.consecutive 5))) = true.
Proof.
  eexists. split; [vm_compute; reflexivity |].
  apply (proj1 (@flagged_amount_exceeds_mean SampleHost.host) Scenario.consecutive 5%nat).
  vm_compute. reflexivity.
Defined.

(** An amount that is not a number is never flagged, and while one is in
    the context nothing is: the step pushes no record, and the single check
    answers that the transaction is no anomaly. *)
Theorem unparseable_amount_disables `{JsHost} :
  (forall (transactions : list Transaction) (i : nat) (currentTx : Transaction),
      nth_error transactions i = Some currentTx ->
      Num.isNaN (parseFloat (amount currentTx)) = true
      \/ existsb (fun t => Num.isNaN (parseFloat (amount t)))
                 (contextWindow transactions i) = true ->
      windowStep transactions i = None)
  /\ (forall (E : Env) (userId : string) (transaction : Transaction)
             (snapshot : list Transaction),
         queryCategoryExpenses E userId (category transaction) = Ok snapshot ->
         let pastTransactions :=
           filter (fun doc => negb (id doc =? id transaction)%string) snapshot in
         (5 <= List.length pastTransactions)%nat ->
         Num.isNaN (parseFloat (amount transaction)) = true
         \/ existsb (fun t => Num.isNaN (parseFloat (amount t))) pastTransactions = true ->
         checkTransactionForAnomaly E userId transaction
         = Ok (Some (NotAnomaly transaction))).
Proof.
  split.
  - intros transactions i currentTx Hnth Hnan. unfold windowStep. rewrite Hnth.
    rewrite gt_NaN; [reflexivity |].
    destruct Hnan as [Hcur | Hctx]; [now left | right].
    apply threshold_isNaN. now rewrite amountsOf_isNaN.
  - intros E userId transaction snapshot Hq pastTransactions Hlen Hnan.
    unfold checkTransactionForAnomaly, checkBody. rewrite (bind_Ok _ _ _ Hq).
    fold pastTransactions.
    assert (Hfive : (List.length pastTransactions <? 5)%nat = false)
      by (apply Nat.ltb_ge; lia).
    rewrite Hfive. rewrite gt_NaN; [reflexivity |].
    destruct Hnan as [Hcur | Hctx]; [now left | right].
    apply threshold_isNaN. now rewrite amountsOf_isNaN.
Qed.

Lemma unparseable_amount_disables_witness :
  let missing := {| id := "c"; amount := JUndefined; date := Scenario.utc 2;
                    category := Some "food"; categoryName := Some "Food" |} in
  let stored :=
    [ Scenario.expense "a" 50 (Scenario.utc 0); Scenario.expense "b" 52 (Scenario.utc 1);
      missing; Scenario.expense "d" 51 (Scenario.utc 3);
      Scenario.expense "e" 53 (Scenario.utc 4) ] in
  @windowStep SampleHost.host (stored ++ [Scenario.expense "f" 500000 (Scenario.utc 5)]) 5
  = None
  /\ @checkTransactionForAnomaly SampleHost.host
       (Scenario.envOf stored Scenario.failingForest) "u"
       (Scenario.expense "f" 500000 (Scenario.utc 5))
     = Ok (Some (NotAnomaly (Scenario.expense "f" 500000 (Scenario.utc 5)))).
Proof.
  cbv zeta.
  destruct (@unparseable_amount_disables SampleHost.host) as [Hstep Hcheck].
  split.
  - eapply Hstep; [reflexivity |]. right. reflexivity.
  - eapply Hcheck; [reflexivity | simpl; lia |]. right. reflexivity.
Defined.

(** The verdict on a transaction is the same whether or not a copy of it
    is already stored: documents with its id are left out of the context. *)
Theorem check_ignores_stored_copy `{JsHost} (E E' : Env) (userId : string)
        (transaction stored : Transaction) (before after : list Transaction) :
  queryCategoryExpenses E userId (category transaction) = Ok (before ++ after) ->
  queryCategoryExpenses E' userId (category transaction) = Ok (before ++ stored :: after) ->
  id stored = id transaction ->
  checkTransactionForAnomaly E' userId transaction
  = checkTransactionForAnomaly E userId transaction.
Proof.
  intros Hq Hq' Hid.
  unfold checkTransactionForAnomaly, checkBody.
  rewrite (bind_Ok _ _ _ Hq), (bind_Ok _ _ _ Hq').
  rewrite !filter_app. cbn [filter].
  rewrite Hid, String.eqb_refl. reflexivity.
Qed.

Lemma check_ignores_stored_copy_witness :
  let new := Scenario.expense "f" 500 (Scenario.utc 5) in
  @checkTransactionForAnomaly SampleHost.host
    (Scenario.envOf Scenario.consecutive Scenario.failingForest) "u" new
  = @checkTransactionForAnomaly SampleHost.host
      (Scenario.envOf (firstn 5 Scenario.consecutive) Scenario.failingForest) "u" new.
Proof.
  apply (@check_ignores_stored_copy SampleHost.host
           (Scenario.envOf (firstn 5 Scenario.consecutive) Scenario.failingForest)
           (Scenario.envOf Scenario.consecutive Scenario.failingForest)
           "u" (Scenario.expense "f" 500 (Scenario.utc 5))
           (Scenario.expense "f" 500 (Scenario.utc 5))
           (firstn 5 Scenario.consecutive) []); reflexivity.
Defined.

(** With five to ten earlier transactions, the single check decides as
    the window detector does at the end of the array made of them and the
    transaction checked, and with the same score. *)
Theorem check_agrees_with_window `{JsHost} (E : Env) (userId : string)
        (transaction : Transaction) (snapshot : list Transaction) :
  queryCategoryExpenses E userId (category transaction) = Ok snapshot ->
  let pastTransactions :=
    filter (fun doc => negb (id doc =? id transaction)%string) snapshot in
  (minWindowSize <= List.length pastTransactions <= windowSize)%nat ->
  verdictScore (checkTransactionForAnomaly E userId transaction)
  = option_map anomalyScore
      (windowStep (pastTransactions ++ [transaction]) (List.length pastTransactions)).
Proof.
  intros Hq pastTransactions [Hmin Hmax].
  unfold checkTransactionForAnomaly, checkBody. rewrite (bind_Ok _ _ _ Hq).
  fold pastTransactions.
  assert (Hfive : (List.length pastTransactions <? 5)%nat = false)
    by (apply Nat.ltb_ge; unfold minWindowSize in Hmin; lia).
  rewrite Hfive.
  unfold windowStep.
  rewrite nth_error_app2, Nat.sub_diag by lia. cbn [nth_error].
  assert (Hctx : contextWindow (pastTransactions ++ [transaction])
                               (List.length pastTransactions) = pastTransactions).
  { rewrite contextWindow_before.
    rewrite Nat.min_r by lia. rewrite Nat.sub_diag. cbn [skipn].
    rewrite firstn_app, Nat.sub_diag, firstn_all. cbn [firstn]. apply app_nil_r. }
  rewrite Hctx.
  destruct (Num.gt _ _); reflexivity.
Qed.

Lemma check_agrees_with_window_witness :
  let new := Scenario.expense "f" 500 (Scenario.utc 5) in
  let past := firstn 5 Scenario.consecutive in
  verdictScore (@checkTransactionForAnomaly SampleHost.host
                  (Scenario.envOf past Scenario.failingForest) "u" new)
  = option_map anomalyScore (@windowStep SampleHost.host (past ++ [new]) 5).
Proof.
  apply (@check_agrees_with_window SampleHost.host
           (Scenario.envOf (firstn 5 Scenario.consecutive) Scenario.failingForest) "u"
           (Scenario.expense "f" 500 (Scenario.utc 5)) (firstn 5 Scenario.consecutive)).
  - reflexivity.
  - unfold minWindowSize, windowSize. simpl. lia.
Defined.

(** ** The shape of a category result *)

Lemma outlierModel_shape `{JsHost} (E : Env) (wanted : string)
      (transactions : list Transaction) (r : CategoryResult) :
  outlierModel E wanted transactions = Some r ->
  categoryId r = wanted /\ message r = None /\ method r = None.
Proof.
  unfold outlierModel.
  destruct (isolationForest E _) as [scores |]; [| discriminate].
  destruct (existsb Num.isNaN scores); [discriminate |].
  intros [= <-]. repeat split.
Qed.

Lemma fallback_shape `{JsHost} (wanted : string) (transactions : list Transaction)
      (r : CategoryResult) :
  slidingWindowFallback wanted transactions = Ok r ->
  categoryId r = wanted /\ message r = None
  /\ method r = Some "Sliding window detection"
  /\ anomalies r
     = map (withResolvedName (fst (detectAnomaliesWithSlidingWindow transactions))
                             wanted)
           (snd (detectAnomaliesWithSlidingWindow transactions)).
Proof.
  unfold slidingWindowFallback.
  destruct (detectAnomaliesWithSlidingWindow transactions) as [sorted found].
  destruct (if (0 <? _)%nat then _ else _) as [logged | e]; [| discriminate].
  intros [= <-]. repeat split.
Qed.

(** A result tells which path produced it: the message is there exactly
    when fewer than five transactions were fetched, the method label
    exactly when the outlier model failed on five or more, and the result
    names the category asked for. *)
Theorem category_result_shape `{JsHost} (E : Env) (userId wanted : string)
        (transactions : list Transaction) (r : CategoryResult) :
  queryCategoryExpenses E userId (Some wanted) = Ok transactions ->
  detectAnomaliesForCategory E userId wanted = Ok r ->
  categoryId r = wanted
  /\ (message r = Some "Not enough transaction data for anomaly detection"
      <-> (List.length transactions < 5)%nat)
  /\ (message r = None <-> (5 <= List.length transactions)%nat)
  /\ (method r = Some "Sliding window detection"
      <-> (5 <= List.length transactions)%nat
          /\ outlierModel E wanted transactions = None)
  /\ (method r = None
      <-> (List.length transactions < 5)%nat
          \/ outlierModel E wanted transactions <> None).
Proof.
  intros Hq. unfold detectAnomaliesForCategory. rewrite rethrow_id. unfold categoryBody.
  rewrite (bind_Ok _ _ _ Hq).
  destruct (Nat.ltb_spec (List.length transactions) 5) as [Hlt | Hge].
  - intros [= <-]. cbn [categoryId message method].
    repeat split; intros; shape.
  - destruct (outlierModel E wanted transactions) as [r' |] eqn:Hm.
    + intros [= <-]. destruct (outlierModel_shape _ _ _ _ Hm) as (Hc & Hmsg & Hmeth).
      rewrite Hc, Hmsg, Hmeth. repeat split; intros; shape.
    + intros Hf. destruct (fallback_shape _ _ _ Hf) as (Hc & Hmsg & Hmeth & _).
      rewrite Hc, Hmsg, Hmeth. repeat split; intros; shape.
Qed.

Lemma category_result_shape_witness :
  exists r,
    @detectAnomaliesForCategory SampleHost.host
      (Scenario.envOf Scenario.consecutive Scenario.failingForest) "u" "food" = Ok r
    /\ categoryId r = "food"
    /\ message r = None
    /\ method r = Some "Sliding window detection".
Proof.
  eexists. split; [vm_compute; reflexivity |].
  destruct (@category_result_shape SampleHost.host
              (Scenario.envOf Scenario.consecutive Scenario.failingForest) "u" "food"
              Scenario.consecutive _ eq_refl eq_refl)
    as (Hc & _ & Hmsg & Hmeth & _).
  split; [exact Hc |]. split.
  - apply Hmsg. simpl. lia.
  - apply Hmeth. split; [simpl; lia | reflexivity].
Defined.

(** ** Where the anomalies come from *)

Lemma resolveCategoryName_frame `{JsHost} (transactions : list Transaction)
      (categoryId : string) (t : Transaction) :
  let t' := resolveCategoryName transactions categoryId t in
  id t' = id t /\ amount t' = amount t /\ date t' = date t /\ category t' = category t
  /\ (truthy (categoryName t) = true -> t' = t).
Proof.
  cbv zeta. unfold resolveCategoryName.
  destruct (truthy (categoryName t)) eqn:Hn; cbn [negb andb]; [repeat split |].
  destruct (truthy (category t)); [| repeat split; discriminate].
  destruct (Array.find _ transactions); repeat split; discriminate.
Qed.

Lemma belowThreshold_In `{JsHost} (scores : list float) (transactions : list Transaction)
      (k : nat) (t : Transaction) (s : float) :
  In (t, s) (belowThreshold (scoredFrom scores k transactions))
  <-> exists i, nth_error transactions i = Some t
                /\ nth_error scores (k + i) = Some s
                /\ (s <? -0.3)%float = true.
Proof.
  revert k. induction transactions as [| t0 rest IH]; intros k; cbn [scoredFrom belowThreshold].
  - split; [contradiction | intros (i & Hi & _); destruct i; discriminate].
  - assert (Hrest : In (t, s) (belowThreshold (scoredFrom scores (S k) rest))
                    <-> exists i, nth_error (t0 :: rest) (S i) = Some t
                                  /\ nth_error scores (k + S i) = Some s
                                  /\ (s <? -0.3)%float = true).
    { rewrite IH. split; intros (i & Hi & Hs & Hlt); exists i; cbn [nth_error] in *;
        (split; [assumption |]); (split; [| assumption]);
        replace (k + S i)%nat with (S k + i)%nat in * by lia; assumption. }
    destruct (nth_error scores k) as [s0 |] eqn:Hk.
    + destruct (s0 <? -0.3)%float eqn:Hlt.
      * cbn [In]. rewrite Hrest. split.
        -- intros [[= <- <-] | (i & Hi)]; [exists 0%nat | exists (S i); exact Hi].
           rewrite Nat.add_0_r. auto.
        -- intros ([| i] & Hi & Hs & Hl).
           ++ left. cbn in Hi. rewrite Nat.add_0_r in Hs. congruence.
           ++ right. exists i. auto.
      * rewrite Hrest. split.
        -- intros (i & Hi). exists (S i). exact Hi.
        -- intros ([| i] & Hi & Hs & Hl); [| exists i; auto].
           rewrite Nat.add_0_r in Hs. congruence.
    + rewrite Hrest. split.
      * intros (i & Hi). exists (S i). exact Hi.
      * intros ([| i] & Hi & Hs & Hl); [| exists i; auto].
        rewrite Nat.add_0_r in Hs. congruence.
Qed.

Lemma belowThreshold_length `{JsHost} (scored : list (Transaction * option float)) :
  (List.length (belowThreshold scored) <= List.length scored)%nat.
Proof.
  induction scored as [| [t [s |]] rest IH]; cbn [belowThreshold List.length]; try lia.
  destruct (s <? -0.3)%float; cbn [List.length]; lia.
Qed.

Lemma scoredFrom_length (scores : list float) (k : nat) (transactions : list Transaction) :
  List.length (scoredFrom scores k transactions) = List.length transactions.
Proof.
  revert k. induction transactions as [| t rest IH]; intros k; cbn; [reflexivity |].
  now rewrite IH.
Qed.

Lemma flat_map_option_length {A B} (f : A -> option B) (l : list A) :
  (List.length (flat_map (fun i => match f i with Some b => [b] | None => [] end) l)
   <= List.length l)%nat.
Proof.
  induction l as [| x l IH]; cbn [flat_map List.length]; [lia |].
  rewrite length_app. destruct (f x); cbn [List.length]; lia.
Qed.

Lemma windowLoop_length `{JsHost} (transactions : list Transaction) :
  (List.length (windowLoop transactions) <= List.length transactions - minWindowSize)%nat.
Proof.
  rewrite windowLoop_steps.
  eapply Nat.le_trans; [apply flat_map_option_length |]. now rewrite length_seq.
Qed.

Lemma windowLoop_In `{JsHost} (transactions : list Transaction) (a : AnomalyRecord) :
  In a (windowLoop transactions) -> In (tx a) transactions.
Proof.
  rewrite windowLoop_steps. intros Ha.
  apply in_flat_map in Ha. destruct Ha as (i & _ & Ha).
  destruct (windowStep transactions i) as [a' |] eqn:Hstep; [| contradiction].
  destruct Ha as [<- | []].
  apply windowStep_tx in Hstep. eapply nth_error_In; eassumption.
Qed.

(** Every anomaly of a category result is one of the transactions
    fetched, unchanged but for its category name, and there are no more
    anomalies than transactions. *)
Theorem anomalies_are_fetched `{JsHost} (E : Env) (userId categoryId : string)
        (transactions : list Transaction) (r : CategoryResult) :
  queryCategoryExpenses E userId (Some categoryId) = Ok transactions ->
  detectAnomaliesForCategory E userId categoryId = Ok r ->
  (forall a, In a (anomalies r) ->
             exists t, In t transactions
                       /\ id (tx a) = id t /\ amount (tx a) = amount t
                       /\ date (tx a) = date t /\ category (tx a) = category t
                       /\ (truthy (categoryName t) = true -> tx a = t))
  /\ (List.length (anomalies r) <= List.length transactions)%nat.
Proof.
  intros Hq. unfold detectAnomaliesForCategory. rewrite rethrow_id. unfold categoryBody.
  rewrite (bind_Ok _ _ _ Hq).
  destruct (List.length transactions <? 5)%nat.
  { intros [= <-]. cbn [anomalies]. split; [contradiction | cbn; lia]. }
  destruct (outlierModel E categoryId transactions) as [r' |] eqn:Hm.
  - intros [= <-]. unfold outlierModel in Hm.
    destruct (isolationForest E _) as [scores |]; [| discriminate].
    destruct (existsb Num.isNaN scores); [discriminate |].
    injection Hm as <-. cbn [anomalies]. split.
    + intros a Ha. apply in_map_iff in Ha. destruct Ha as ([t s] & <- & Hts).
      cbn [fst snd withResolvedName tx].
      eapply Permutation_in in Hts; [| symmetry; apply sort_Permutation].
      apply belowThreshold_In in Hts. destruct Hts as (i & Hi & _).
      exists t. split; [eapply nth_error_In; eassumption |].
      apply resolveCategoryName_frame.
    + rewrite length_map.
      rewrite <- (Permutation_length (sort_Permutation _ _)).
      eapply Nat.le_trans; [apply belowThreshold_length |].
      now rewrite scoredFrom_length.
  - intros Hf. destruct (fallback_shape _ _ _ Hf) as (_ & _ & _ & ->).
    unfold detectAnomaliesWithSlidingWindow. cbn [fst snd]. split.
    + intros a Ha. apply in_map_iff in Ha. destruct Ha as (a0 & <- & Ha0).
      cbn [withResolvedName tx]. apply windowLoop_In in Ha0.
      eapply Permutation_in in Ha0; [| symmetry; apply sort_Permutation].
      exists (tx a0). split; [assumption |]. apply resolveCategoryName_frame.
    + rewrite length_map.
      eapply Nat.le_trans; [apply windowLoop_length |].
      rewrite <- (Permutation_length (sort_Permutation _ _)). lia.
Qed.

Lemma anomalies_are_fetched_witness :
  exists r,
    @detectAnomaliesForCategory SampleHost.host
      (Scenario.envOf Scenario.consecutive Scenario.threeOutliers) "u" "food" = Ok r
    /\ (List.length (anomalies r) <= List.length Scenario.consecutive)%nat.
Proof.
  eexists. split; [vm_compute; reflexivity |].
  apply (@anomalies_are_fetched SampleHost.host
           (Scenario.envOf Scenario.consecutive Scenario.threeOutliers) "u" "food"
           Scenario.consecutive); reflexivity.
Defined.

(** ** The categories of a user *)

Lemma Set_add_In (categories : list string) (c x : string) :
  In x (Set_add categories c) <-> In x categories \/ x = c.
Proof.
  unfold Set_add. destruct (existsb (String.eqb c) categories) eqn:Hex.
  - apply existsb_exists in Hex. destruct Hex as (y & Hy & Heq).
    apply String.eqb_eq in Heq. subst y.
    split; [now left | intros [Hin | ->]; assumption].
  - rewrite in_app_iff. cbn [In]. intuition congruence.
Qed.

Lemma Set_add_NoDup (categories : list string) (c : string) :
  NoDup categories -> NoDup (Set_add categories c).
Proof.
  intros Hnd. unfold Set_add. destruct (existsb (String.eqb c) categories) eqn:Hex;
    [assumption |].
  apply NoDup_app; [assumption | repeat constructor; intros [] |].
  intros x Hx [Heq | []]. subst x.
  assert (Hc : existsb (String.eqb c) categories = true).
  { apply existsb_exists. exists c. split; [assumption | apply String.eqb_refl]. }
  congruence.
Qed.

Lemma categories_fold (docs : list Transaction) (acc : list string) :
  let categories :=
    fold_left (fun categories data =>
                 if truthy (category data)
                 then Set_add categories (orEmpty (category data))
                 else categories) docs acc in
  (NoDup acc -> NoDup categories)
  /\ forall c, In c categories
               <-> In c acc
                   \/ exists doc, In doc docs /\ category doc = Some c /\ c <> "".
Proof.
  cbv zeta. revert acc. induction docs as [| d docs IH]; intros acc; cbn [fold_left].
  - split; [auto |]. intros c. split; [now left |].
    intros [Hc | (doc & [] & _)]. exact Hc.
  - destruct (IH (if truthy (category d) then Set_add acc (orEmpty (category d)) else acc))
      as [Hnd Hin].
    split.
    + intros Hacc. apply Hnd. destruct (truthy (category d)); [| assumption].
      now apply Set_add_NoDup.
    + intros c. rewrite Hin. clear Hnd Hin IH.
      destruct (category d) as [[| ch s] |] eqn:Hd; cbn [truthy orEmpty].
      * split.
        -- intros [Hc | (doc & Hdoc & Hcat)]; [now left |].
           right. exists doc. split; [now right | assumption].
        -- intros [Hc | (doc & [<- | Hdoc] & Hcat & Hne)]; [now left | | ].
           ++ rewrite Hd in Hcat. injection Hcat as <-. contradiction.
           ++ right. exists doc. auto.
      * rewrite Set_add_In. split.
        -- intros [[Hc | ->] | (doc & Hdoc & Hcat)].
           ++ now left.
           ++ right. exists d. split; [now left |]. split; [assumption | discriminate].
           ++ right. exists doc. split; [now right | assumption].
        -- intros [Hc | (doc & [<- | Hdoc] & Hcat & Hne)].
           ++ left. now left.
           ++ left. right. congruence.
           ++ right. exists doc. auto.
      * split.
        -- intros [Hc | (doc & Hdoc & Hcat)]; [now left |].
           right. exists doc. split; [now right | assumption].
        -- intros [Hc | (doc & [<- | Hdoc] & Hcat & Hne)]; [now left | congruence |].
           right. exists doc. auto.
Qed.

Lemma categories_listed_once_aux (docs : list Transaction) (c : string) :
  In c (categoriesOf docs)
  <-> exists doc, In doc docs /\ category doc = Some c /\ c <> "".
Proof.
  destruct (categories_fold docs []) as [_ Hin].
  unfold categoriesOf. rewrite Hin. cbn [In]. tauto.
Qed.

(** Each category is analysed once, however many of the user's expenses
    carry it: the categories listed are, without repetition, the non-empty
    categories of the expenses. *)
Theorem categories_listed_once (docs : list Transaction) :
  NoDup (categoriesOf docs)
  /\ forall c, In c (categoriesOf docs)
               <-> exists doc, In doc docs /\ category doc = Some c /\ c <> "".
Proof.
  split.
  - destruct (categories_fold docs []) as [Hnd _]. apply Hnd. constructor.
  - apply categories_listed_once_aux.
Qed.

Lemma categories_listed_once_witness :
  categoriesOf Scenario.consecutive = ["food"]
  /\ In "food" (categoriesOf Scenario.consecutive).
Proof.
  split; [reflexivity |].
  apply (proj2 (categories_listed_once Scenario.consecutive) "food").
  exists (Scenario.expense "a" 50 (Scenario.utc 0)).
  split; [left; reflexivity | split; [reflexivity | discriminate]].
Defined.

(** ** The feed of a user *)

Lemma Promise_all_map {A} (rs : list (result A)) (l : list A) :
  Promise_all rs = Ok l -> rs = map Ok l.
Proof.
  revert l. induction rs as [| r rs IH]; intros l; cbn [Promise_all].
  - now intros [= <-].
  - destruct r as [a | e]; [| discriminate].
    destruct (Promise_all rs) as [l' | e]; [| discriminate].
    intros [= <-]. cbn [map]. now rewrite (IH l').
Qed.

Lemma Promise_all_of_Ok {A B} (f : A -> result B) (g : A -> B) (l : list A) :
  (forall x, In x l -> f x = Ok (g x)) -> Promise_all (map f l) = Ok (map g l).
Proof.
  induction l as [| x l IH]; intros Hf; [reflexivity |].
  cbn [map Promise_all]. rewrite (Hf x) by now left.
  rewrite IH by (intros y Hy; apply Hf; now right). reflexivity.
Qed.

(** The feed holds the anomalies of the user's categories, each as often
    as its category result does: the final sort loses and adds nothing. *)
Theorem feed_gathers_categories `{JsHost} (E : Env) (userId : string)
        (docs : list Transaction) (feed : list AnomalyRecord) :
  queryExpenses E userId = Ok docs ->
  detectAnomaliesForUser E userId = Ok feed ->
  exists results,
    map (fun categoryId => detectAnomaliesForCategory E userId categoryId)
        (categoriesOf docs)
    = map Ok results
    /\ Permutation feed (flat_map anomalies results).
Proof.
  intros Hq. unfold detectAnomaliesForUser. rewrite rethrow_id. unfold userBody.
  rewrite (bind_Ok _ _ _ Hq).
  destruct docs as [| d docs]; cbn [List.length Nat.eqb].
  { intros [= <-]. exists []. split; [reflexivity | constructor]. }
  destruct (categoriesOf (d :: docs)) as [| c cs] eqn:Hcs; cbn [List.length Nat.eqb].
  { intros [= <-]. exists []. split; [reflexivity | constructor]. }
  destruct (Promise_all _) as [results | e] eqn:Hall; [| discriminate].
  cbn [bind]. intros [= <-]. exists results. split.
  - now apply Promise_all_map.
  - symmetry. apply sort_Permutation.
Qed.

Lemma feed_gathers_categories_witness :
  exists feed results,
    @detectAnomaliesForUser SampleHost.host
      (Scenario.envOf Scenario.consecutive Scenario.threeOutliers) "u" = Ok feed
    /\ map (fun c => @detectAnomaliesForCategory SampleHost.host
                       (Scenario.envOf Scenario.consecutive Scenario.threeOutliers) "u" c)
           (categoriesOf Scenario.consecutive)
       = map Ok results
    /\ Permutation feed (flat_map anomalies results).
Proof.
  eexists.
  destruct (@feed_gathers_categories SampleHost.host
              (Scenario.envOf Scenario.consecutive Scenario.threeOutliers) "u"
              Scenario.consecutive _ eq_refl eq_refl) as (results & Hr & Hp).
  exists results. split; [reflexivity |]. split; assumption.
Defined.

(** A user none of whose categories has five expenses gets an empty
    feed. *)
Theorem sparse_categories_empty_feed `{JsHost} (E : Env) (userId : string)
        (docs : list Transaction) :
  queryExpenses E userId = Ok docs ->
  (forall c, In c (categoriesOf docs) ->
             exists transactions,
               queryCategoryExpenses E userId (Some c) = Ok transactions
               /\ (List.length transactions < 5)%nat) ->
  detectAnomaliesForUser E userId = Ok [].
Proof.
  intros Hq Hsparse. unfold detectAnomaliesForUser. rewrite rethrow_id. unfold userBody.
  rewrite (bind_Ok _ _ _ Hq).
  destruct (List.length docs =? 0)%nat; [reflexivity |].
  destruct (List.length (categoriesOf docs) =? 0)%nat; [reflexivity |].
  rewrite (Promise_all_of_Ok _
             (fun c => {| anomalies := [];
                          categoryId := c;
                          message := Some "Not enough transaction data for anomaly detection";
                          method := None |})).
  - cbn [bind]. f_equal.
    assert (Hnil : forall cs : list string,
               flat_map anomalies
                 (map (fun c => {| anomalies := [];
                                   categoryId := c;
                                   message := Some "Not enough transaction data for anomaly detection";
                                   method := None |}) cs) = []).
    { induction cs as [| c cs IH]; cbn; [reflexivity | exact IH]. }
    now rewrite Hnil.
  - intros c Hc. destruct (Hsparse c Hc) as (transactions & Hqc & Hlen).
    unfold detectAnomaliesForCategory, categoryBody. rewrite (bind_Ok _ _ _ Hqc).
    apply Nat.ltb_lt in Hlen. now rewrite Hlen.
Qed.

Lemma sparse_categories_empty_feed_witness :
  @detectAnomaliesForUser SampleHost.host
    (Scenario.envOf Scenario.threeExpenses Scenario.failingForest) "u" = Ok [].
Proof.
  apply (@sparse_categories_empty_feed SampleHost.host
           (Scenario.envOf Scenario.threeExpenses Scenario.failingForest) "u"
           Scenario.threeExpenses); [reflexivity |].
  intros c _. exists Scenario.threeExpenses. split; [reflexivity | simpl; lia].
Defined.

(** A user none of whose expenses has a category gets an empty feed, and
    no category is queried. *)
Theorem uncategorized_empty_feed `{JsHost} (E : Env) (userId : string)
        (docs : list Transaction) :
  queryExpenses E userId = Ok docs ->
  Forall (fun doc => truthy (category doc) = false) docs ->
  categoriesOf docs = [] /\ detectAnomaliesForUser E userId = Ok [].
Proof.
  intros Hq Hnone.
  assert (Hcs : categoriesOf docs = []).
  { destruct (categoriesOf docs) as [| c cs] eqn:Hc; [reflexivity | exfalso].
    assert (Hin : In c (categoriesOf docs)) by (rewrite Hc; now left).
    apply categories_listed_once_aux in Hin. destruct Hin as (doc & Hdoc & Hcat & Hne).
    rewrite Forall_forall in Hnone. specialize (Hnone doc Hdoc).
    rewrite Hcat in Hnone. destruct c; [contradiction | discriminate]. }
  split; [assumption |].
  unfold detectAnomaliesForUser, userBody. rewrite (bind_Ok _ _ _ Hq), Hcs.
  now destruct (List.length docs =? 0)%nat.
Qed.

Lemma uncategorized_empty_feed_witness :
  let loose := {| id := "a"; amount := JNum 50; date := Scenario.utc 0;
                  category := None; categoryName := None |} in
  @detectAnomaliesForUser SampleHost.host
    (Scenario.envOf [loose; loose] Scenario.failingForest) "u" = Ok [].
Proof.
  cbv zeta.
  set (loose := {| id := "a"; amount := JNum 50; date := Scenario.utc 0;
                   category := None; categoryName := None |}).
  apply (proj2 (@uncategorized_empty_feed SampleHost.host
                  (Scenario.envOf [loose; loose] Scenario.failingForest) "u"
                  [loose; loose] eq_refl ltac:(repeat constructor))).
Defined.

(** ** Category names *)

Lemma resolveCategoryName_named `{JsHost} (transactions : list Transaction)
      (categoryId : string) (t : Transaction) :
  truthy (category t) = true ->
  categoryName (resolveCategoryName transactions categoryId t) <> None
  /\ ((exists named, In named transactions
                     /\ truthy (categoryName named) = true
                     /\ category named = Some categoryId) ->
      truthy (categoryName (resolveCategoryName transactions categoryId t)) = true).
Proof.
  intros Hc. unfold resolveCategoryName. rewrite Hc.
  destruct (truthy (categoryName t)) eqn:Hn; cbn [negb andb].
  - split; [| auto]. destruct (categoryName t); [discriminate | discriminate].
  - unfold Array.find.
    destruct (find _ transactions) as [categoryObj |] eqn:Hfind; cbn [setCategoryName categoryName].
    + apply find_some in Hfind. destruct Hfind as [_ Hp].
      apply andb_true_iff in Hp. destruct Hp as [Hp _].
      split; [| auto]. destruct (categoryName categoryObj); discriminate.
    + split; [discriminate |].
      intros (named & Hin & Hname & Hcat).
      pose proof (find_none _ _ Hfind named Hin) as Hp. cbn beta in Hp.
      rewrite Hname, Hcat, String.eqb_refl in Hp. discriminate.
Qed.

(** Every anomaly returned that has a category carries a category name;
    the name is not empty when some transaction fetched for the category has
    a display name. *)
Theorem category_names_resolved `{JsHost} (E : Env) (userId categoryId : string)
        (transactions : list Transaction) (r : CategoryResult) (a : AnomalyRecord) :
  queryCategoryExpenses E userId (Some categoryId) = Ok transactions ->
  detectAnomaliesForCategory E userId categoryId = Ok r ->
  In a (anomalies r) ->
  truthy (category (tx a)) = true ->
  categoryName (tx a) <> None
  /\ ((exists named, In named transactions
                     /\ truthy (categoryName named) = true
                     /\ category named = Some categoryId) ->
      truthy (categoryName (tx a)) = true).
Proof.
  intros Hq. unfold detectAnomaliesForCategory. rewrite rethrow_id. unfold categoryBody.
  rewrite (bind_Ok _ _ _ Hq).
  destruct (List.length transactions <? 5)%nat.
  { intros [= <-] []. }
  assert (Hres : forall ts a0,
             (forall named, In named transactions -> In named ts) ->
             truthy (category (tx (withResolvedName ts categoryId a0))) = true ->
             categoryName (tx (withResolvedName ts categoryId a0)) <> None
             /\ ((exists named, In named transactions
                                /\ truthy (categoryName named) = true
                                /\ category named = Some categoryId) ->
                 truthy (categoryName (tx (withResolvedName ts categoryId a0))) = true)).
  { intros ts a0 Hsub Hc. cbn [withResolvedName tx] in *.
    destruct (resolveCategoryName_frame ts categoryId (tx a0)) as (_ & _ & _ & Hcat & _).
    rewrite Hcat in Hc.
    destruct (resolveCategoryName_named ts categoryId (tx a0) Hc) as [Hsome Htruthy].
    split; [assumption |]. intros (named & Hin & Hn). apply Htruthy.
    exists named. split; [now apply Hsub | assumption]. }
  destruct (outlierModel E categoryId transactions) as [r' |] eqn:Hm.
  - intros [= <-]. unfold outlierModel in Hm.
    destruct (isolationForest E _) as [scores |]; [| discriminate].
    destruct (existsb Num.isNaN scores); [discriminate |].
    injection Hm as <-. cbn [anomalies]. intros Ha.
    apply in_map_iff in Ha. destruct Ha as (p & <- & _).
    apply Hres. auto.
  - intros Hf. destruct (fallback_shape _ _ _ Hf) as (_ & _ & _ & ->).
    unfold detectAnomaliesWithSlidingWindow. cbn [fst snd]. intros Ha.
    apply in_map_iff in Ha. destruct Ha as (a0 & <- & _).
    apply Hres. intros named Hin.
    eapply Permutation_in; [apply sort_Permutation | exact Hin].
Qed.

Lemma category_names_resolved_witness :
  let bare (i : string) (x d : float) :=
    {| id := i; amount := JNum x; date := d; category := Some "food"; categoryName := None |} in
  let stored :=
    [ bare "a" 50%float (Scenario.utc 0); bare "b" 52%float (Scenario.utc 1);
      bare "c" 49%float (Scenario.utc 2); Scenario.expense "d" 51 (Scenario.utc 3);
      bare "e" 53%float (Scenario.utc 4); bare "f" 500%float (Scenario.utc 5) ] in
  exists r a,
    @detectAnomaliesForCategory SampleHost.host
      (Scenario.envOf stored Scenario.failingForest) "u" "food" = Ok r
    /\ anomalies r = [a]
    /\ id (tx a) = "f"
    /\ truthy (categoryName (tx a)) = true.
Proof.
  cbv zeta.
  match goal with
  | |- exists r a, detectAnomaliesForCategory (Scenario.envOf ?d _) _ _ = _ /\ _ =>
      set (stored := d)
  end.
  eexists. eexists. split; [vm_compute; reflexivity |].
  split; [reflexivity |]. split; [reflexivity |].
  eapply (@category_names_resolved SampleHost.host
            (Scenario.envOf stored Scenario.failingForest) "u" "food" stored).
  - reflexivity.
  - vm_compute. reflexivity.
  - left. reflexivity.
  - reflexivity.
  - exists (Scenario.expense "d" 51 (Scenario.utc 3)).
    split; [do 3 right; left; reflexivity | split; reflexivity].
Defined.

(** ** The reason when amounts are not numbers *)

Section ReasonEdges.
Import Binary64 Binary64Facts.
Local Open Scope float_scope.

Lemma div_by_NaN (x y : float) : Num.isNaN y = true -> Num.isNaN (x / y) = true.
Proof.
  rewrite !isNaN_spec, FloatAxioms.div_spec. intros Hy.
  destruct (Prim2SF y); try discriminate. now destruct (Prim2SF x).
Qed.

Lemma max2_isNaN (a b : float) :
  Num.isNaN a = true \/ Num.isNaN b = true -> Num.isNaN (Num.max2 a b) = true.
Proof.
  intros Hab. unfold Num.max2.
  assert (Hor : Num.isNaN a || Num.isNaN b = true)
    by (apply orb_true_iff; exact Hab).
  rewrite Hor. reflexivity.
Qed.

Lemma max_isNaN (xs : list float) (acc : float) :
  Num.isNaN acc = true \/ existsb Num.isNaN xs = true ->
  Num.isNaN (fold_left Num.max2 xs acc) = true.
Proof.
  revert acc. induction xs as [| x xs IH]; intros acc; cbn [fold_left existsb].
  - intros [Ha | Hx]; [assumption | discriminate].
  - intros [Ha | Hx]; apply IH.
    + left. apply max2_isNaN. now left.
    + apply orb_true_iff in Hx. destruct Hx as [Hx | Hx]; [left | now right].
      apply max2_isNaN. now right.
Qed.

Lemma eqb_NaN (x y : float) : Num.isNaN y = true -> (x =? y) = false.
Proof.
  rewrite isNaN_spec, FloatAxioms.eqb_spec. intros Hy.
  destruct (Prim2SF y); try discriminate. now destruct (Prim2SF x).
Qed.
End ReasonEdges.

(** When the amount of some transaction of the category is not a number,
    every reason is the generic one; and an anomaly whose amount is not
    stored as a number is never told to be the largest expense. *)
Theorem reason_edge_cases `{JsHost} (anomaly : Transaction)
        (allTransactions : list Transaction) :
  (existsb (fun t => Num.isNaN (parseFloat (amount t))) allTransactions = true ->
   generateAnomalyReason anomaly allTransactions
   = ("This " ++ orEmpty (categoryName anomaly)
        ++ " expense has an unusual pattern (timing, amount, or frequency) compared to your typical spending.")%string)
  /\ ((forall x, amount anomaly <> JNum x) ->
      let amounts := amountsOf allTransactions in
      let avgAmount := (fold_left (fun sum val => sum + val) amounts 0
                        / Num.ofNat (List.length amounts))%float in
      let amountRatio := (ToNumber (amount anomaly) / avgAmount)%float in
      generateAnomalyReason anomaly allTransactions
      = (if Num.gt amountRatio 3 then
           "This expense is " ++ hostToFixed amountRatio 1 ++ "x higher than your average "
             ++ orEmpty (categoryName anomaly) ++ " spending."
         else if Num.gt amountRatio 1.5 then
           "This expense is significantly higher than your typical "
             ++ orEmpty (categoryName anomaly) ++ " transactions."
         else
           "This " ++ orEmpty (categoryName anomaly)
             ++ " expense has an unusual pattern (timing, amount, or frequency) compared to your typical spending.")%string).
Proof.
  split.
  - intros Hnan. rewrite <- amountsOf_isNaN in Hnan.
    unfold generateAnomalyReason.
    assert (Havg : Num.isNaN (fold_left (fun sum val => sum + val)
                                        (amountsOf allTransactions) 0
                              / Num.ofNat (List.length (amountsOf allTransactions)))%float
                   = true).
    { apply div_isNaN, sum_isNaN. now right. }
    assert (Hratio : forall c, Num.gt (ToNumber (amount anomaly)
                                       / (fold_left (fun sum val => sum + val)
                                                    (amountsOf allTransactions) 0
                                          / Num.ofNat (List.length (amountsOf allTransactions))))%float
                                      c = false).
    { intros c. apply gt_NaN. left. now apply div_by_NaN. }
    rewrite !Hratio.
    assert (Hmax : strictEqualsNumber (amount anomaly) (Num.max (amountsOf allTransactions))
                   = false).
    { unfold strictEqualsNumber. destruct (amount anomaly); try reflexivity.
      apply eqb_NaN. unfold Num.max. apply max_isNaN. now right. }
    rewrite Hmax. reflexivity.
  - intros Hstr. cbv zeta. unfold generateAnomalyReason.
    assert (Hmax : strictEqualsNumber (amount anomaly) (Num.max (amountsOf allTransactions))
                   = false).
    { unfold strictEqualsNumber. destruct (amount anomaly) as [| x |]; try reflexivity.
      now destruct (Hstr x). }
    rewrite Hmax. reflexivity.
Qed.

Lemma reason_edge_cases_witness :
  let missing := {| id := "c"; amount := JUndefined; date := Scenario.utc 2;
                    category := Some "food"; categoryName := Some "Food" |} in
  @generateAnomalyReason SampleHost.host (Scenario.expense "f" 500 (Scenario.utc 5))
    [ Scenario.expense "a" 50 (Scenario.utc 0); missing;
      Scenario.expense "f" 500 (Scenario.utc 5) ]
  = "This Food expense has an unusual pattern (timing, amount, or frequency) compared to your typical spending.".
Proof.
  cbv zeta.
  apply (proj1 (@reason_edge_cases SampleHost.host (Scenario.expense "f" 500 (Scenario.utc 5)) _)).
  reflexivity.
Defined.

(** ** The features are numbers *)

Section FeatureNumbers.
Import Binary64 Binary64Facts.
Local Open Scope float_scope.

Lemma of_uint63_not_NaN (n : PrimInt63.int) : Num.isNaN (of_uint63 n) = false.
Proof.
  rewrite isNaN_spec, FloatAxioms.of_uint63_spec.
  destruct (Uint63.to_Z n) as [| p | p]; cbn [binary_normalize]; try reflexivity;
    apply Binary64Scores.round_not_nan.
Qed.

Lemma opp_isNaN (x : float) : Num.isNaN (- x) = Num.isNaN x.
Proof. rewrite !isNaN_spec, FloatAxioms.opp_spec. now destruct (Prim2SF x). Qed.

Lemma ofZ_not_NaN (z : Z) : Num.isNaN (Num.ofZ z) = false.
Proof.
  unfold Num.ofZ. destruct (z <? 0)%Z; [rewrite opp_isNaN |]; apply of_uint63_not_NaN.
Qed.

Lemma min2_not_NaN (a b : float) :
  Num.isNaN a = false -> Num.isNaN b = false -> Num.isNaN (Num.min2 a b) = false.
Proof.
  intros Ha Hb. unfold Num.min2. rewrite Ha, Hb. cbn [orb].
  destruct (a <? b); [assumption |]. destruct (b <? a); [assumption |].
  now destruct (get_sign a).
Qed.

Lemma elapsed_not_NaN (now t : float) :
  is_finite now = true -> is_finite t = true ->
  Num.isNaN ((now - t) / (1000 * 60 * 60 * 24 * 30)) = false.
Proof.
  intros Fn Ft.
  assert (Hc : exists mc ec,
             Prim2SF (1000 * 60 * 60 * 24 * 30) = S754_finite false mc ec)
    by (do 2 eexists; reflexivity).
  destruct Hc as (mc & ec & Hc).
  rewrite isNaN_spec, FloatAxioms.div_spec, FloatAxioms.sub_spec, Hc.
  apply Binary64Scores.SFdiv_finite_not_nan.
  apply Binary64Recency.is_finite_bounded in Fn, Ft.
  match goal with |- ?nan = false => destruct nan eqn:Hn; [| reflexivity] end.
  destruct (Binary64Scores.SFsub_nan_cases _ _ Hn) as [Hx | [Hy | (s & Hx & _)]].
  - destruct (Prim2SF now); discriminate.
  - destruct (Prim2SF t); discriminate.
  - rewrite Hx in Fn. discriminate.
Qed.
End FeatureNumbers.

(** Whatever the transaction holds, its feature vector has four
    components and none of them is NaN, and the recency is at most 1, when
    the clock reading is finite and the date is a time value or
    invalid. *)
Theorem features_are_numbers `{JsHost} (now : float) (t : Transaction) :
  is_finite now = true ->
  Num.isNaN (date t) = true \/ is_finite (date t) = true ->
  List.length (extractFeatures now t) = 4%nat
  /\ Forall (fun x => Num.isNaN x = false) (extractFeatures now t)
  /\ (exists r, nth_error (extractFeatures now t) 3 = Some r /\ (r <=? 1)%float = true).
Proof.
  intros Fn Hd. split; [reflexivity |].
  assert (Hamount : Num.isNaN (if Num.isNaN (parseFloat (amount t)) then 0%float
                               else parseFloat (amount t)) = false).
  { destruct (Num.isNaN (parseFloat (amount t))) eqn:Hn; [reflexivity | exact Hn]. }
  unfold extractFeatures.
  destruct (Num.isNaN (date t)) eqn:Hnan; cbn [negb].
  - split; [| eexists; split; reflexivity].
    repeat constructor; assumption.
  - destruct Hd as [Hd | Hd]; [discriminate |].
    pose proof (elapsed_not_NaN now (date t) Fn Hd) as Hq.
    split.
    + repeat constructor; try assumption.
      * apply ofZ_not_NaN.
      * apply ofZ_not_NaN.
      * apply min2_not_NaN; [reflexivity | exact Hq].
    + eexists. split; [reflexivity |].
      now apply Binary64Recency.min2_one_upper.
Qed.

Lemma features_are_numbers_witness :
  Forall (fun x => Num.isNaN x = false)
         (@extractFeatures SampleHost.host (Scenario.utc 10)
            {| id := "a"; amount := JStr "n/a"; date := Scenario.utc 40;
               category := Some "food"; categoryName := None |}).
Proof.
  apply (@features_are_numbers SampleHost.host (Scenario.utc 10)
           {| id := "a"; amount := JStr "n/a"; date := Scenario.utc 40;
              category := Some "food"; categoryName := None |}).
  - reflexivity.
  - right. reflexivity.
Defined.

(** ** What the outlier model flags *)

(** When the outlier-model step does not fail, it returns the
    transactions whose score is below [-0.3] and no other, a transaction
    without a score never, most anomalous first, with their reasons and
    resolved names and with neither message nor method label. *)
Theorem outlier_model_selects `{JsHost} (E : Env) (categoryId : string)
        (transactions : list Transaction) (scores : list float) (r : CategoryResult) :
  isolationForest E (preprocessTransactions (dateNow E) transactions) = Some scores ->
  outlierModel E categoryId transactions = Some r ->
  (forall a,
      In a (anomalies r)
      <-> exists i t s,
            nth_error transactions i = Some t
            /\ nth_error scores i = Some s
            /\ (s <? -0.3)%float = true
            /\ a = withResolvedName transactions categoryId
                     {| tx := t; anomalyScore := s;
                        reason := generateAnomalyReason t transactions |})
  /\ StronglySorted (fun a b => (anomalyScore a <=? anomalyScore b)%float = true)
                    (anomalies r)
  /\ message r = None /\ method r = None.
Proof.
  intros Hscores Hm.
  destruct (outlierModel_flags E categoryId transactions r Hm) as (_ & Hsorted & Hmsg & Hmeth).
  split; [| auto].
  unfold outlierModel in Hm. rewrite Hscores in Hm.
  destruct (existsb Num.isNaN scores); [discriminate |].
  injection Hm as <-. cbn [anomalies]. intros a. rewrite in_map_iff. split.
  - intros ([t s] & <- & Hts). cbn [fst snd].
    eapply Permutation_in in Hts; [| symmetry; apply sort_Permutation].
    apply belowThreshold_In in Hts. destruct Hts as (i & Hi & Hs & Hlt).
    exists i, t, s. auto.
  - intros (i & t & s & Hi & Hs & Hlt & ->). exists (t, s). split; [reflexivity |].
    eapply Permutation_in; [apply sort_Permutation |].
    apply belowThreshold_In. exists i. auto.
Qed.

Lemma outlier_model_selects_witness :
  exists r,
    @outlierModel SampleHost.host
      (Scenario.envOf Scenario.consecutive Scenario.threeOutliers) "food"
      Scenario.consecutive = Some r
    /\ map (fun a => (id (tx a), anomalyScore a)) (anomalies r)
       = [("b", -0.5); ("f", -0.45); ("d", -0.4)]%float
    /\ StronglySorted (fun a b => (anomalyScore a <=? anomalyScore b)%float = true)
                      (anomalies r)
    /\ message r = None /\ method r = None.
Proof.
  eexists. split; [vm_compute; reflexivity |]. split; [vm_compute; reflexivity |].
  apply (@outlier_model_selects SampleHost.host
           (Scenario.envOf Scenario.consecutive Scenario.threeOutliers) "food"
           Scenario.consecutive [-0.1; -0.5; -0.1; -0.4; -0.1; -0.45]%float).
  - reflexivity.
  - vm_compute. reflexivity.
Defined.

(** ** The sign of a score tells the path *)

(** The scores of a result of the fallback are positive, those of a
    result of the outlier model are below [-0.3]. *)
Theorem score_sign_by_path `{JsHost} (E : Env) (userId categoryId : string)
        (r : CategoryResult) (a : AnomalyRecord) :
  detectAnomaliesForCategory E userId categoryId = Ok r ->
  In a (anomalies r) ->
  (method r = Some "Sliding window detection" /\ (0 <? anomalyScore a)%float = true)
  \/ (method r = None /\ (anomalyScore a <? -0.3)%float = true).
Proof.
  unfold detectAnomaliesForCategory. rewrite rethrow_id. unfold categoryBody.
  destruct (queryCategoryExpenses E userId (Some categoryId)) as [transactions | e];
    [| discriminate].
  cbn [bind]. destruct (List.length transactions <? 5)%nat.
  { intros [= <-] []. }
  destruct (outlierModel E categoryId transactions) as [r' |] eqn:Hm.
  - intros [= <-] Ha. right.
    destruct (outlierModel_flags E categoryId transactions r' Hm) as (Hflag & _ & _ & Hmeth).
    split; [assumption |]. rewrite Forall_forall in Hflag. now apply Hflag.
  - intros Hf Ha. left.
    destruct (fallback_shape _ _ _ Hf) as (_ & _ & Hmeth & Han).
    split; [assumption |]. rewrite Han in Ha.
    apply in_map_iff in Ha. destruct Ha as (a0 & <- & Ha0). cbn [withResolvedName anomalyScore].
    unfold detectAnomaliesWithSlidingWindow in Ha0. cbn [snd fst] in Ha0.
    rewrite windowLoop_steps in Ha0.
    apply in_flat_map in Ha0. destruct Ha0 as (i & _ & Ha0).
    destruct (windowStep _ i) as [a' |] eqn:Hstep; [| contradiction].
    destruct Ha0 as [<- | []].
    unfold windowStep in Hstep.
    destruct (nth_error _ i) as [currentTx |]; [| discriminate].
    destruct (Num.gt _ _) eqn:Hgt; [| discriminate].
    injection Hstep as <-. cbn [anomalyScore]. now apply flagged_score_positive.
Qed.

Lemma score_sign_by_path_witness :
  exists r a,
    @detectAnomaliesForCategory SampleHost.host
      (Scenario.envOf Scenario.consecutive Scenario.failingForest) "u" "food" = Ok r
    /\ anomalies r = [a]
    /\ (0 <? anomalyScore a)%float = true.
Proof.
  eexists. eexists. split; [vm_compute; reflexivity |]. split; [reflexivity |].
  destruct (@score_sign_by_path SampleHost.host
              (Scenario.envOf Scenario.consecutive Scenario.failingForest) "u" "food"
              _ _ eq_refl (or_introl eq_refl)) as [[_ Hpos] | [Hnone _]].
  - exact Hpos.
  - discriminate Hnone.
Defined.

(** ** The reach of the window *)

Lemma skipn_assign {A} (xs : list A) (j from : nat) (x : A) :
  (j < from)%nat -> skipn from (assign xs j x) = skipn from xs.
Proof.
  intros Hlt. unfold assign.
  destruct (Nat.ltb_spec j (List.length xs)) as [Hj | Hj]; [| reflexivity].
  rewrite skipn_app, length_firstn, Nat.min_l by lia.
  rewrite (skipn_all2 (firstn j xs)) by (rewrite length_firstn; lia).
  cbn [app]. replace (from - j)%nat with (S (from - S j)) by lia.
  change (skipn (S (from - S j)) (x :: skipn (S j) xs))
    with (skipn (from - S j) (skipn (S j) xs)).
  rewrite skipn_skipn. f_equal. lia.
Qed.

Lemma nth_error_skipn_0 {A} (xs : list A) (i : nat) :
  nth_error xs i = nth_error (skipn i xs) 0.
Proof.
  revert xs. induction i as [| i IH]; intros [| x xs]; cbn; auto.
Qed.

(** The step at index [i] reads the ten transactions before it and the
    one at [i], and nothing older: assigning to an index more than ten
    places before [i] changes nothing of what the step does. *)
Theorem window_forgets_older `{JsHost} (transactions : list Transaction) (i j : nat)
        (t' : Transaction) :
  (j + windowSize < i)%nat ->
  contextWindow (assign transactions j t') i = contextWindow transactions i
  /\ windowStep (assign transactions j t') i = windowStep transactions i.
Proof.
  intros Hj. unfold windowSize in Hj.
  assert (Hctx : contextWindow (assign transactions j t') i = contextWindow transactions i).
  { unfold contextWindow, Array.slice, windowSize.
    rewrite Nat.min_l by lia. now rewrite skipn_assign by lia. }
  split; [exact Hctx |].
  unfold windowStep. rewrite Hctx.
  rewrite (nth_error_skipn_0 (assign transactions j t')), skipn_assign by lia.
  now rewrite <- nth_error_skipn_0.
Qed.

Lemma window_forgets_older_witness :
  let changed := assign Scenario.longSeries 0 (Scenario.expense "old" 5 (Scenario.utc 0)) in
  map id changed <> map id Scenario.longSeries
  /\ option_map (fun a => id (tx a)) (@windowStep SampleHost.host Scenario.longSeries 11)
     = Some "big"
  /\ @windowStep SampleHost.host changed 11
     = @windowStep SampleHost.host Scenario.longSeries 11.
Proof.
  cbv zeta. split; [vm_compute; discriminate |].
  split; [vm_compute; reflexivity |].
  apply (@window_forgets_older SampleHost.host Scenario.longSeries 11 0
           (Scenario.expense "old" 5 (Scenario.utc 0))).
  unfold windowSize. lia.
Defined.


(** ** How many the window detector can flag *)

(** The detector flags at most as many transactions as there are beyond
    the five oldest, and none of them when there are no more than five; each
    record carries a transaction found past the fifth place of the sorted
    array. *)
Theorem window_flags_after_five `{JsHost} (transactions : list Transaction) :
  let sorted := fst (detectAnomaliesWithSlidingWindow transactions) in
  let found := snd (detectAnomaliesWithSlidingWindow transactions) in
  (List.length found <= List.length transactions - minWindowSize)%nat
  /\ ((List.length transactions <= minWindowSize)%nat -> found = [])
  /\ forall a, In a found -> In (tx a) (skipn minWindowSize sorted).
Proof.
  cbv zeta. unfold detectAnomaliesWithSlidingWindow. cbn [fst snd].
  assert (Hlen : (List.length (windowLoop (Array.sort byDate transactions))
                  <= List.length transactions - minWindowSize)%nat).
  { eapply Nat.le_trans; [apply windowLoop_length |].
    rewrite <- (Permutation_length (sort_Permutation _ _)). lia. }
  split; [exact Hlen |]. split.
  - intros Hfew. destruct (windowLoop _); [reflexivity |]. cbn [List.length] in Hlen. lia.
  - intros a Ha. rewrite windowLoop_steps in Ha.
    apply in_flat_map in Ha. destruct Ha as (i & Hi & Ha).
    apply in_seq in Hi.
    destruct (windowStep _ i) as [a' |] eqn:Hstep; [| contradiction].
    destruct Ha as [<- | []]. apply windowStep_tx in Hstep.
    rewrite nth_error_skipn_0 in Hstep.
    replace i with (i - minWindowSize + minWindowSize)%nat in Hstep by lia.
    rewrite <- skipn_skipn in Hstep. rewrite <- nth_error_skipn_0 in Hstep.
    eapply nth_error_In; eassumption.
Qed.

Lemma window_flags_after_five_witness :
  snd (@detectAnomaliesWithSlidingWindow SampleHost.host Scenario.threeExpenses) = [].
Proof.
  apply (proj1 (proj2 (@window_flags_after_five SampleHost.host Scenario.threeExpenses))).
  unfold minWindowSize. simpl. lia.
Defined.

(** ** When the single check answers [null] *)

(** The single check never throws; it answers [null] exactly when the
    store fails or fewer than five other transactions of the category are
    stored, and otherwise gives a verdict on the transaction it was
    given. *)
Theorem check_null_cases `{JsHost} (E : Env) (userId : string) (transaction : Transaction) :
  (exists v, checkTransactionForAnomaly E userId transaction = Ok v)
  /\ (checkTransactionForAnomaly E userId transaction = Ok None
      <-> (exists e, queryCategoryExpenses E userId (category transaction) = Throw e)
          \/ exists snapshot,
               queryCategoryExpenses E userId (category transaction) = Ok snapshot
               /\ (List.length
                     (filter (fun doc => negb (id doc =? id transaction)%string) snapshot)
                   < 5)%nat)
  /\ (forall v, checkTransactionForAnomaly E userId transaction = Ok (Some v) ->
                (exists a, v = IsAnomaly a /\ tx a = transaction)
                \/ v = NotAnomaly transaction).
Proof.
  unfold checkTransactionForAnomaly, checkBody.
  destruct (queryCategoryExpenses E userId (category transaction)) as [snapshot | e];
    cbn [bind].
  - destruct (Nat.ltb_spec
                (List.length
                   (filter (fun doc => negb (id doc =? id transaction)%string) snapshot)) 5)
      as [Hlt | Hge].
    + split; [eauto |]. split; [| discriminate].
      split; [| reflexivity]. intros _. right. eauto.
    + destruct (Num.gt _ _).
      * split; [eauto |]. split.
        -- split; [discriminate |].
           intros [(e & He) | (s & Hs & Hlt)]; [discriminate |].
           injection Hs as <-. lia.
        -- intros v [= <-]. left. eauto.
      * split; [eauto |]. split.
        -- split; [discriminate |].
           intros [(e & He) | (s & Hs & Hlt)]; [discriminate |].
           injection Hs as <-. lia.
        -- intros v [= <-]. now right.
  - split; [eauto |]. split; [| discriminate].
    split; [| reflexivity]. intros _. left. eauto.
Qed.

Lemma check_null_cases_witness :
  @checkTransactionForAnomaly SampleHost.host
    (Scenario.envOf Scenario.threeExpenses Scenario.failingForest) "u"
    (Scenario.expense "new" 5000 (Scenario.utc 9)) = Ok None.
Proof.
  apply (proj1 (proj2 (@check_null_cases SampleHost.host
                         (Scenario.envOf Scenario.threeExpenses Scenario.failingForest) "u"
                         (Scenario.expense "new" 5000 (Scenario.utc 9))))).
  right. exists Scenario.threeExpenses. split; [reflexivity | simpl; lia].
Defined.

(** ** The bands of the reason *)

Section Bands.
Import Binary64 Binary64Facts.
Local Open Scope float_scope.

Lemma leb_not_ltb (x y : float) :
  Num.isNaN x = false -> Num.isNaN y = false -> (x <=? y) = negb (y <? x).
Proof.
  intros Hx Hy. rewrite leb_rank, ltb_rank by assumption.
  destruct (Z.leb_spec (rank x) (rank y)), (Z.ltb_spec (rank y) (rank x)); try reflexivity; lia.
Qed.
End Bands.

(** For a score that is a number, as every score attached is, the reason
    of the window detector is that of the highest band above 5, of the
    middle band above 3 and up to 5, and of the lowest up to 3; so is that
    of the single check. *)
Theorem reason_bands `{JsHost} (currentTx : Transaction) (currentAmount mean score : float) :
  Num.isNaN score = false ->
  ((5 <? score)%float = true ->
   windowReason currentTx currentAmount mean score
   = ("This expense of $" ++ hostToFixed currentAmount 2
       ++ " is extremely high compared to your typical "
       ++ orEmpty (categoryName currentTx)
       ++ " spending of around $" ++ hostToFixed mean 2 ++ ".")%string
   /\ checkReason currentTx currentAmount mean score
      = windowReason currentTx currentAmount mean score)
  /\ ((3 <? score)%float = true -> (score <=? 5)%float = true ->
      windowReason currentTx currentAmount mean score
      = ("This expense is significantly higher than your average "
          ++ orEmpty (categoryName currentTx) ++ " spending from this time period.")%string
      /\ checkReason currentTx currentAmount mean score
         = ("This expense is significantly higher than your average "
             ++ orEmpty (categoryName currentTx) ++ " spending.")%string)
  /\ ((score <=? 3)%float = true ->
      windowReason currentTx currentAmount mean score
      = ("This " ++ orEmpty (categoryName currentTx)
          ++ " expense is higher than your typical spending pattern at the time.")%string
      /\ checkReason currentTx currentAmount mean score
         = ("This " ++ orEmpty (categoryName currentTx)
             ++ " expense is higher than your typical spending pattern.")%string).
Proof.
  intros Hs. unfold windowReason, checkReason, Num.gt.
  pose proof (leb_not_ltb score 5 Hs eq_refl) as H5.
  pose proof (leb_not_ltb score 3 Hs eq_refl) as H3.
  split; [| split].
  - intros ->. split; reflexivity.
  - intros -> Hle. rewrite Hle in H5. apply (f_equal negb) in H5.
    rewrite negb_involutive in H5. cbn in H5. rewrite <- H5. split; reflexivity.
  - intros Hle. rewrite Hle in H3. apply (f_equal negb) in H3.
    rewrite negb_involutive in H3. cbn in H3. rewrite <- H3.
    assert (H5' : (5 <? score)%float = false).
    { rewrite Binary64Facts.ltb_rank by (reflexivity || assumption).
      rewrite Binary64Facts.leb_rank in Hle by (reflexivity || assumption).
      apply Z.leb_le in Hle. apply Z.ltb_ge.
      assert (Binary64.rank 3 < Binary64.rank 5)%Z by (vm_compute; reflexivity). lia. }
    rewrite H5'. split; reflexivity.
Qed.

Lemma reason_bands_witness :
  @windowReason SampleHost.host (Scenario.expense "f" 500 (Scenario.utc 5)) 500 51 5
  = "This expense is significantly higher than your average Food spending from this time period."
  /\ @checkReason SampleHost.host (Scenario.expense "f" 500 (Scenario.utc 5)) 500 51 5
     = "This expense is significantly higher than your average Food spending.".
Proof.
  apply (proj1 (proj2 (@reason_bands SampleHost.host
                         (Scenario.expense "f" 500 (Scenario.utc 5)) 500 51 5 eq_refl)));
    reflexivity.
Defined.

(** ** What the verdict at an index reads *)

Lemma contextWindow_nth `{JsHost} (transactions : list Transaction) (i k : nat) :
  nth_error (contextWindow transactions i) k
  = if (k <? Nat.min windowSize i)%nat
    then nth_error transactions (i - Nat.min windowSize i + k)
    else None.
Proof.
  unfold contextWindow, Array.slice.
  rewrite nth_error_firstn, nth_error_skipn.
  replace (i - (i - Nat.min windowSize i))%nat with (Nat.min windowSize i) by lia.
  reflexivity.
Qed.

Lemma contextWindow_In `{JsHost} (transactions : list Transaction) (i : nat)
      (t : Transaction) :
  In t (contextWindow transactions i) ->
  exists k, (i - windowSize <= k < i)%nat /\ nth_error transactions k = Some t.
Proof.
  intros Hin. apply In_nth_error in Hin. destruct Hin as [k Hk].
  rewrite contextWindow_nth in Hk.
  destruct (Nat.ltb_spec k (Nat.min windowSize i)) as [Hlt | Hge]; [| discriminate].
  exists (i - Nat.min windowSize i + k)%nat. split; [lia | exact Hk].
Qed.

Lemma contextWindow_agree `{JsHost} (xs ys : list Transaction) (i : nat) :
  (forall k, (i - windowSize <= k < i)%nat -> nth_error xs k = nth_error ys k) ->
  contextWindow xs i = contextWindow ys i.
Proof.
  intros Hagree. apply nth_error_ext. intros k. rewrite !contextWindow_nth.
  destruct (Nat.ltb_spec k (Nat.min windowSize i)) as [Hlt | Hge]; [| reflexivity].
  apply Hagree. lia.
Qed.

Lemma windowStep_agree `{JsHost} (xs ys : list Transaction) (i : nat) :
  (forall k, (i - windowSize <= k <= i)%nat -> nth_error xs k = nth_error ys k) ->
  windowStep xs i = windowStep ys i.
Proof.
  intros Hagree. unfold windowStep.
  rewrite (Hagree i) by lia.
  rewrite (contextWindow_agree xs ys i) by (intros k Hk; apply Hagree; lia).
  reflexivity.
Qed.

(** ** Sorting does not mix what is dated up to a day with what is dated
    after it *)

Section Cutoff.
Import Binary64 Binary64Facts.
Context {A : Type} (comparefn : A -> A -> float).

Lemma insert_before_rest (x : A) (front rest : list A) :
  (forall q, In q rest -> Array.follows comparefn x q = false) ->
  Array.insert comparefn x (front ++ rest) = Array.insert comparefn x front ++ rest.
Proof.
  intros Hrest. induction front as [| y front IH]; cbn [app Array.insert].
  - destruct rest as [| q rest]; [reflexivity |].
    cbn [Array.insert]. now rewrite (Hrest q) by now left.
  - destruct (Array.follows comparefn x y); [| reflexivity].
    now rewrite IH.
Qed.

Lemma insert_after_front (x : A) (front rest : list A) :
  (forall p, In p front -> Array.follows comparefn x p = true) ->
  Array.insert comparefn x (front ++ rest) = front ++ Array.insert comparefn x rest.
Proof.
  intros Hfront. induction front as [| y front IH]; cbn [app Array.insert]; [reflexivity |].
  rewrite (Hfront y) by now left.
  rewrite IH by (intros p Hp; apply Hfront; now right). reflexivity.
Qed.
End Cutoff.

Section CutoffByDate.
Import Binary64 Binary64Facts.

Lemma sort_In {A} (comparefn : A -> A -> float) (l : list A) (x : A) :
  In x (Array.sort comparefn l) <-> In x l.
Proof.
  split; intros Hin.
  - eapply Permutation_in; [symmetry; apply sort_Permutation | exact Hin].
  - eapply Permutation_in; [apply sort_Permutation | exact Hin].
Qed.

Lemma dated_after (d : float) (early late : Transaction) :
  Num.isNaN (date late) = false ->
  (date early <=? d)%float = true ->
  (date late <=? d)%float = false ->
  (date early <? date late)%float = true.
Proof.
  intros Hlate Hearly Hnot.
  destruct (leb_not_nan _ _ Hearly) as [He Hd].
  rewrite leb_rank in Hearly, Hnot by assumption.
  rewrite ltb_rank by assumption.
  apply Z.leb_le in Hearly. apply Z.leb_gt in Hnot. apply Z.ltb_lt. lia.
Qed.

(** The sorted array is the sorted transactions dated up to [d] followed
    by the sorted transactions dated after [d]. *)
Lemma sort_cutoff (d : float) (transactions : list Transaction) :
  Forall (fun t => Num.isNaN (date t) = false) transactions ->
  Array.sort byDate transactions
  = Array.sort byDate (filter (fun t => (date t <=? d)%float) transactions)
    ++ Array.sort byDate (filter (fun t => negb (date t <=? d)%float) transactions).
Proof.
  induction 1 as [| x l Hx Hl IH]; [reflexivity |].
  cbn [filter Array.sort fold_right].
  change (fold_right (Array.insert byDate) [] l) with (Array.sort byDate l).
  rewrite IH.
  destruct (date x <=? d)%float eqn:Hxd; cbn [negb Array.sort fold_right].
  - apply insert_before_rest. intros q Hq.
    apply sort_In, filter_In in Hq. destruct Hq as [Hq Hqd].
    apply negb_true_iff in Hqd.
    rewrite Forall_forall in Hl.
    rewrite follows_byDate.
    pose proof (dated_after d x q (Hl q Hq) Hxd Hqd) as Hlt.
    destruct (leb_not_nan _ _ Hxd) as [Hxn _].
    rewrite ltb_rank in Hlt |- * by auto.
    apply Z.ltb_lt in Hlt. apply Z.ltb_ge. lia.
  - apply insert_after_front. intros p Hp.
    apply sort_In, filter_In in Hp. destruct Hp as [Hp Hpd].
    rewrite follows_byDate. now apply (dated_after d p x).
Qed.
End CutoffByDate.

Lemma flat_map_agree {A B} (f g : A -> list B) (l : list A) :
  (forall x, In x l -> f x = g x) -> flat_map f l = flat_map g l.
Proof.
  induction l as [| x l IH]; intros Hfg; [reflexivity |].
  cbn [flat_map]. rewrite (Hfg x) by now left.
  rewrite IH by (intros y Hy; apply Hfg; now right). reflexivity.
Qed.

Lemma filter_flat_map {A B} (keep : B -> bool) (f : A -> list B) (l : list A) :
  filter keep (flat_map f l) = flat_map (fun x => filter keep (f x)) l.
Proof.
  induction l as [| x l IH]; [reflexivity |].
  cbn [flat_map]. now rewrite filter_app, IH.
Qed.

Lemma flat_map_nothing {A B} (f : A -> list B) (l : list A) :
  (forall x, In x l -> f x = []) -> flat_map f l = [].
Proof.
  induction l as [| x l IH]; intros Hf; [reflexivity |].
  cbn [flat_map]. rewrite (Hf x) by now left.
  apply IH. intros y Hy. apply Hf. now right.
Qed.

Lemma windowStep_front `{JsHost} (front rest : list Transaction) (i : nat) :
  (i < List.length front)%nat ->
  windowStep (front ++ rest) i = windowStep front i.
Proof.
  intros Hi. apply windowStep_agree. intros k Hk.
  apply nth_error_app1. lia.
Qed.

(** The anomalies of a sorted array that stand before an index are those
    of the array cut at that index, when the array cut is what the dates
    select. *)
Lemma windowLoop_cutoff `{JsHost} (keep : Transaction -> bool)
      (front rest : list Transaction) :
  Forall (fun t => keep t = true) front ->
  Forall (fun t => keep t = false) rest ->
  filter (fun a => keep (tx a)) (windowLoop (front ++ rest)) = windowLoop front.
Proof.
  intros Hfront Hrest. rewrite !windowLoop_steps, filter_flat_map.
  rewrite length_app.
  set (n := List.length front). set (m := List.length rest).
  replace (n + m - minWindowSize)%nat
    with ((n - minWindowSize) + (n + m - minWindowSize - (n - minWindowSize)))%nat by lia.
  rewrite seq_app, flat_map_app.
  rewrite (flat_map_nothing _ (seq (minWindowSize + (n - minWindowSize)) _)).
  - rewrite app_nil_r. apply flat_map_agree. intros i Hi. apply in_seq in Hi.
    rewrite windowStep_front by (fold n; lia).
    destruct (windowStep front i) as [a |] eqn:Ha; [| reflexivity].
    cbn [filter]. apply windowStep_tx in Ha. apply nth_error_In in Ha.
    rewrite Forall_forall in Hfront. now rewrite (Hfront _ Ha).
  - intros i Hi. apply in_seq in Hi.
    destruct (windowStep (front ++ rest) i) as [a |] eqn:Ha; [| reflexivity].
    cbn [filter]. apply windowStep_tx in Ha.
    rewrite nth_error_app2 in Ha by (fold n; lia).
    apply nth_error_In in Ha.
    rewrite Forall_forall in Hrest. now rewrite (Hrest _ Ha).
Qed.

(** The anomalies dated up to [d] are the anomalies of the transactions
    dated up to [d]. *)
Lemma detector_cutoff `{JsHost} (transactions : list Transaction) (d : float) :
  Forall (fun t => Date.isValid (date t) = true) transactions ->
  filter (fun a => (date (tx a) <=? d)%float)
         (snd (detectAnomaliesWithSlidingWindow transactions))
  = snd (detectAnomaliesWithSlidingWindow
           (filter (fun t => (date t <=? d)%float) transactions)).
Proof.
  intros Hv.
  assert (Hn : Forall (fun t => Num.isNaN (date t) = false) transactions).
  { eapply Forall_impl; [| exact Hv]. intros t Ht. unfold Date.isValid in Ht.
    now apply negb_true_iff in Ht. }
  unfold detectAnomaliesWithSlidingWindow. cbn [snd].
  rewrite (sort_cutoff d transactions Hn).
  apply (windowLoop_cutoff (fun t => (date t <=? d)%float)).
  - apply Forall_forall. intros t Ht. apply sort_In, filter_In in Ht. tauto.
  - apply Forall_forall. intros t Ht. apply sort_In, filter_In in Ht.
    destruct Ht as [_ Ht]. now apply negb_true_iff in Ht.
Qed.

(** C7: the verdict at index [i] of the sorted array compares the amount
    at [i] with a threshold computed from the context window, and the window
    holds only transactions of the ten places right before [i].  So two
    arrays that agree on those places and at [i] get the same verdict at
    [i]; assigning to index [i] or to a later one leaves the window as it is,
    and assigning to a later one changes neither the record pushed nor
    whether one is.  For the detector as a whole, sort included: whatever
    is dated after a day [d] has no part in the verdicts on the transactions
    dated up to [d], which are those the detector reaches when it is given
    the transactions dated up to [d] alone. *)
Theorem lookahead_free `{JsHost} :
  (forall (transactions : list Transaction) (i : nat) (t : Transaction),
      In t (contextWindow transactions i) ->
      exists k, (i - windowSize <= k < i)%nat /\ nth_error transactions k = Some t)
  /\ (forall (transactions : list Transaction) (i : nat),
         flaggedAt transactions i
         = match nth_error transactions i with
           | Some currentTx =>
               Num.gt (parseFloat (amount currentTx))
                      (threshold binary64 (amountsOf (contextWindow transactions i)))
           | None => false
           end)
  /\ (forall (transactions transactions' : list Transaction) (i : nat),
         (forall k, (i - windowSize <= k <= i)%nat ->
                    nth_error transactions k = nth_error transactions' k) ->
         windowStep transactions i = windowStep transactions' i
         /\ flaggedAt transactions i = flaggedAt transactions' i)
  /\ (forall (transactions : list Transaction) (i j : nat) (t' : Transaction),
         (i <= j)%nat ->
         contextWindow (assign transactions j t') i = contextWindow transactions i)
  /\ (forall (transactions : list Transaction) (i j : nat) (t' : Transaction),
         (i < j)%nat ->
         windowStep (assign transactions j t') i = windowStep transactions i
         /\ flaggedAt (assign transactions j t') i = flaggedAt transactions i)
  /\ (forall (transactions : list Transaction) (d : float),
         Forall (fun t => Date.isValid (date t) = true) transactions ->
         filter (fun a => (date (tx a) <=? d)%float)
                (snd (detectAnomaliesWithSlidingWindow transactions))
         = snd (detectAnomaliesWithSlidingWindow
                  (filter (fun t => (date t <=? d)%float) transactions))).
Proof.
  split; [exact contextWindow_In |].
  split.
  { intros transactions i. unfold flaggedAt, windowStep.
    destruct (nth_error transactions i) as [currentTx |]; [| reflexivity].
    now destruct (Num.gt _ _). }
  split.
  { intros transactions transactions' i Hagree.
    pose proof (windowStep_agree transactions transactions' i Hagree) as Hstep.
    split; [exact Hstep |]. unfold flaggedAt. now rewrite Hstep. }
  split.
  { intros transactions i j t' Hj.
    rewrite !contextWindow_before. now rewrite firstn_assign by lia. }
  split.
  { intros transactions i j t' Hj.
    assert (Hstep : windowStep (assign transactions j t') i = windowStep transactions i).
    { apply windowStep_of_prefix. apply firstn_assign. lia. }
    split; [exact Hstep |]. unfold flaggedAt. now rewrite Hstep. }
  intros transactions d. apply detector_cutoff.
Qed.

Lemma lookahead_free_witness :
  let late := Scenario.expense "late" 1 (Scenario.utc 20) in
  let transactions := Scenario.flatSeries ++ [late] in
  @flaggedAt SampleHost.host transactions 10 = true
  /\ @flaggedAt SampleHost.host
       (assign transactions 11 (Scenario.expense "late" 99999 (Scenario.utc 20))) 10
     = @flaggedAt SampleHost.host transactions 10
  /\ map (fun a => id (tx a))
         (snd (@detectAnomaliesWithSlidingWindow SampleHost.host
                 (late :: Scenario.flatSeries))) = ["big"]
  /\ filter (fun a => (date (tx a) <=? Scenario.utc 10)%float)
            (snd (@detectAnomaliesWithSlidingWindow SampleHost.host
                    (late :: Scenario.flatSeries)))
     = snd (@detectAnomaliesWithSlidingWindow SampleHost.host
              (filter (fun t => (date t <=? Scenario.utc 10)%float)
                      (late :: Scenario.flatSeries))).
Proof.
  cbv zeta.
  destruct (@lookahead_free SampleHost.host) as (_ & _ & _ & _ & Hlater & Hcut).
  split; [vm_compute; reflexivity |].
  split; [apply Hlater; lia |].
  split; [vm_compute; reflexivity |].
  apply Hcut. repeat constructor.
Defined.

(** C9, as the code has it: the detector sorts the caller's array in
    place.  Afterwards the array holds the same transactions; it is in date
    order, oldest first, when every date is valid; an array that was in
    date order is left as it was; and every record pushed carries one of the
    caller's transactions. *)
Theorem sort_in_place `{JsHost} (transactions : list Transaction) :
  Permutation transactions (fst (detectAnomaliesWithSlidingWindow transactions))
  /\ (Forall (fun t => Date.isValid (date t) = true) transactions ->
      StronglySorted (fun a b => (date a <=? date b)%float = true)
                     (fst (detectAnomaliesWithSlidingWindow transactions)))
  /\ (inDateOrder transactions ->
      fst (detectAnomaliesWithSlidingWindow transactions) = transactions)
  /\ (forall a, In a (snd (detectAnomaliesWithSlidingWindow transactions)) ->
                In (tx a) transactions).
Proof.
  unfold detectAnomaliesWithSlidingWindow. cbn [fst snd].
  split; [apply sort_Permutation |].
  split.
  { intros Hv. apply sort_byDate_sorted.
    eapply Forall_impl; [| exact Hv]. intros t Ht. unfold Date.isValid in Ht.
    now apply negb_true_iff in Ht. }
  split; [apply sort_in_date_order |].
  intros a Ha. apply windowLoop_In in Ha. now apply sort_In in Ha.
Qed.

Lemma sort_in_place_witness :
  map id (fst (@detectAnomaliesWithSlidingWindow SampleHost.host Scenario.shuffled))
  = ["a"; "b"; "c"; "d"; "e"; "f"]
  /\ StronglySorted (fun a b => (date a <=? date b)%float = true)
       (fst (@detectAnomaliesWithSlidingWindow SampleHost.host Scenario.shuffled))
  /\ fst (@detectAnomaliesWithSlidingWindow SampleHost.host Scenario.consecutive)
     = Scenario.consecutive.
Proof.
  split; [vm_compute; reflexivity |].
  split.
  - apply (proj1 (proj2 (@sort_in_place SampleHost.host Scenario.shuffled))).
    repeat constructor.
  - apply (proj1 (proj2 (proj2 (@sort_in_place SampleHost.host Scenario.consecutive)))).
    exact consecutive_in_date_order.
Defined.

(** When the outlier-model step fails on at least 5 transactions and
    every transaction fetched has a valid date, the failure is absorbed: the
    result is the window detector's, labelled as such. *)
Lemma fallback_result `{JsHost} (E : Env) (userId categoryId : string)
      (transactions : list Transaction) :
  queryCategoryExpenses E userId (Some categoryId) = Ok transactions ->
  (5 <= List.length transactions)%nat ->
  outlierModel E categoryId transactions = None ->
  Forall (fun t => Date.isValid (date t) = true) transactions ->
  detectAnomaliesForCategory E userId categoryId
  = Ok {| anomalies :=
            map (withResolvedName (fst (detectAnomaliesWithSlidingWindow transactions))
                                  categoryId)
                (snd (detectAnomaliesWithSlidingWindow transactions));
          categoryId := categoryId;
          message := None;
          method := Some "Sliding window detection" |}.
Proof.
  intros Hq Hlen Hmodel Hvalid.
  assert (Hdates : forall a,
             In a (snd (detectAnomaliesWithSlidingWindow transactions)) ->
             Date.isValid (date (tx a)) = true).
  { intros a Ha. unfold detectAnomaliesWithSlidingWindow in Ha. cbn [snd] in Ha.
    apply windowLoop_In, sort_In in Ha.
    rewrite Forall_forall in Hvalid. now apply Hvalid. }
  unfold detectAnomaliesForCategory, categoryBody.
  rewrite (bind_Ok _ _ _ Hq).
  assert (Hfive : (List.length transactions <? 5)%nat = false) by (apply Nat.ltb_ge; lia).
  rewrite Hfive, Hmodel. unfold slidingWindowFallback.
  destruct (detectAnomaliesWithSlidingWindow transactions) as [sorted found].
  simpl in Hdates |- *.
  assert (Hlog : traverse (fun a => Date.toISOString (date (tx a))) found
                 = Ok (map (fun _ => tt) found)).
  { apply traverse_Ok. intros a Ha. unfold Date.toISOString. now rewrite (Hdates a Ha). }
  rewrite Hlog. destruct (0 <? List.length found)%nat; reflexivity.
Qed.

Lemma fallback_result_witness :
  exists found,
    @detectAnomaliesForCategory SampleHost.host
      (Scenario.envOf Scenario.shuffled Scenario.failingForest) "u" "food"
    = Ok {| anomalies := found;
            categoryId := "food";
            message := None;
            method := Some "Sliding window detection" |}
    /\ map (fun a => id (tx a)) found = ["f"].
Proof.
  eexists. split.
  - apply (@fallback_result SampleHost.host
             (Scenario.envOf Scenario.shuffled Scenario.failingForest)
             "u" "food" Scenario.shuffled).
    + reflexivity.
    + simpl. lia.
    + reflexivity.
    + repeat constructor.
  - vm_compute. reflexivity.
Defined.

(** * The category manager *)

Module ManagerFacts.
Import CategoryManager.

Lemma NoDup_map_filter {A B} (key : A -> B) (keep : A -> bool) :
  forall cs : list A, NoDup (map key cs) -> NoDup (map key (filter keep cs)).
Proof.
  intros cs. induction cs as [| x cs IH]; cbn [map filter]; [auto |].
  intros Hnd. inversion Hnd as [| ? ? Hx Hl]; subst.
  destruct (keep x); cbn [map]; [| now apply IH].
  constructor; [| now apply IH].
  intros Hin. apply Hx. apply in_map_iff in Hin. destruct Hin as (y & Hy & Hin).
  apply filter_In in Hin. apply in_map_iff. exists y. tauto.
Qed.

Lemma filter_absent {A} (p : A -> bool) (l : list A) :
  Forall (fun x => p x = true) l -> filter p l = l.
Proof.
  induction 1 as [| x l Hx Hl IH]; cbn [filter]; [reflexivity |].
  now rewrite Hx, IH.
Qed.

Lemma filter_idempotent {A} (p : A -> bool) (l : list A) :
  filter p (filter p l) = filter p l.
Proof.
  apply filter_absent. apply Forall_forall. intros x Hx.
  now apply filter_In in Hx.
Qed.
End ManagerFacts.

Import CategoryManager.

(** No handler brings in a second category whose name differs from
    another's by case only: names that are distinct stay so through an add, a
    delete and a budget update, whatever the store answers. *)
Theorem names_stay_distinct `{JsHost} `{JsStrings} (db : Firestore) (userId : string)
        (st : State) :
  distinctNames (categories st) ->
  (forall now, distinctNames (categories (fst (handleAddCategory db userId now st))))
  /\ (forall categoryId,
         distinctNames (categories (fst (handleDeleteCategory db userId categoryId st))))
  /\ (forall categoryId newBudget,
         distinctNames
           (categories (fst (handleUpdateCategory db userId categoryId newBudget st)))).
Proof.
  intros Hnd. unfold distinctNames in *. split; [| split].
  - intros now. unfold handleAddCategory.
    destruct (negb (nonEmpty (hostTrim (newCategory st)))); [exact Hnd |].
    destruct (existsb _ (categories st)) eqn:Hdup; [exact Hnd |].
    destruct (updateDoc db userId _); [| exact Hnd].
    cbn [fst categories setError setNewCategory setCategories].
    rewrite map_app. cbn [map name].
    apply NoDup_app; [exact Hnd | repeat constructor; intros [] |].
    intros x Hx [Heq | []]. subst x.
    apply in_map_iff in Hx. destruct Hx as (cat & Heq & Hin).
    assert (Hex : existsb (fun cat => hostToLowerCase (name cat)
                                      =? hostToLowerCase (hostTrim (newCategory st)))
                          (categories st) = true).
    { apply existsb_exists. exists cat. split; [assumption |]. now apply String.eqb_eq. }
    congruence.
  - intros categoryId. unfold handleDeleteCategory.
    destruct (updateDoc db userId _); [| exact Hnd].
    cbn [fst categories setCategories]. now apply ManagerFacts.NoDup_map_filter.
  - intros categoryId newBudget. unfold handleUpdateCategory.
    destruct (updateDoc db userId _); [| exact Hnd].
    cbn [fst categories setCategories]. rewrite map_map.
    erewrite map_ext; [exact Hnd |].
    intros cat. now destruct (id cat =? categoryId).
Qed.

Lemma names_stay_distinct_witness :
  let st := ManagerScenario.typing "  Travel " in
  map name (categories (fst (@handleAddCategory SampleStrings.strings
                               ManagerScenario.accepting "u" (Scenario.utc 0) st)))
  = [ "Food & Dining"; "Transportation"; "Bills & Utilities"; "Entertainment";
      "Shopping"; "Others"; "Travel" ]
  /\ @distinctNames SampleStrings.strings
       (categories (fst (@handleAddCategory SampleStrings.strings
                           ManagerScenario.accepting "u" (Scenario.utc 0) st))).
Proof.
  cbv zeta. split; [vm_compute; reflexivity |].
  apply (@names_stay_distinct SampleHost.host SampleStrings.strings
           ManagerScenario.accepting "u" (ManagerScenario.typing "  Travel ")).
  vm_compute. repeat constructor; cbn; intuition discriminate.
Defined.

(** A write that the store refuses changes nothing of the list shown nor
    of the text typed: the handler only sets its error message. *)
Theorem refused_write_keeps_list `{JsHost} `{JsStrings} (db : Firestore) (userId : string)
        (st : State) :
  (forall payload, exists e, updateDoc db userId payload = Throw e) ->
  (forall now,
      categories (fst (handleAddCategory db userId now st)) = categories st
      /\ newCategory (fst (handleAddCategory db userId now st)) = newCategory st
      /\ error (fst (handleAddCategory db userId now st)) <> "")
  /\ (forall categoryId,
         fst (handleDeleteCategory db userId categoryId st)
         = setError "Failed to delete category" st)
  /\ (forall categoryId newBudget,
         fst (handleUpdateCategory db userId categoryId newBudget st)
         = setError "Failed to update category budget" st)
  /\ ((exists e, getDoc db userId = Throw e)
      \/ (getDoc db userId = Ok None
          /\ exists e, setDoc db userId defaultCategories = Throw e) ->
      categories (fst (fetchCategories db userId st)) = categories st).
Proof.
  intros Hfail. split; [| split; [| split]]; cycle 3.
  { unfold fetchCategories. destruct (negb (nonEmpty userId)); [reflexivity |].
    intros [[e ->] | [-> [e ->]]]; reflexivity. }
  - intros now. unfold handleAddCategory.
    destruct (negb (nonEmpty (hostTrim (newCategory st))));
      [repeat split; discriminate |].
    destruct (existsb _ (categories st)); [repeat split; discriminate |].
    destruct (Hfail (categories st
                     ++ [{| id := hostNumberToString now;
                            name := hostTrim (newCategory st);
                            budget := 0 |}])) as [e ->].
    repeat split; discriminate.
  - intros categoryId. unfold handleDeleteCategory.
    now destruct (Hfail (filter (fun cat => negb (id cat =? categoryId)) (categories st)))
      as [e ->].
  - intros categoryId newBudget. unfold handleUpdateCategory.
    match goal with |- context [updateDoc db userId ?p] => destruct (Hfail p) as [e ->] end.
    reflexivity.
Qed.

Lemma refused_write_keeps_list_witness :
  fst (@handleDeleteCategory ManagerScenario.refusing "u" "3" (ManagerScenario.typing ""))
  = setError "Failed to delete category" (ManagerScenario.typing "").
Proof.
  apply (@refused_write_keeps_list SampleHost.host SampleStrings.strings
           ManagerScenario.refusing "u" (ManagerScenario.typing "")).
  intros payload. eexists. reflexivity.
Defined.

(** A name that is blank once trimmed, or that an existing category has
    up to case, is refused before anything is written; any other is added at
    the end of the list, trimmed, with a budget of 0 and the clock reading
    as its id, and the input is cleared. *)
Theorem add_category_cases `{JsStrings} (db : Firestore) (userId : string) (now : float)
        (st : State) :
  let trimmed := hostTrim (newCategory st) in
  let taken :=
    existsb (fun cat => hostToLowerCase (name cat) =? hostToLowerCase trimmed)
            (categories st) in
  (trimmed = "" ->
   handleAddCategory db userId now st
   = (setError "Category name cannot be empty" st, None))
  /\ (trimmed <> "" -> taken = true ->
      handleAddCategory db userId now st = (setError "Category already exists" st, None))
  /\ (trimmed <> "" -> taken = false ->
      let added := categories st
                   ++ [{| id := hostNumberToString now; name := trimmed; budget := 0 |}] in
      snd (handleAddCategory db userId now st) = Some added
      /\ (updateDoc db userId added = Ok tt ->
          fst (handleAddCategory db userId now st)
          = {| categories := added; newCategory := ""; error := "";
               editingCategory := editingCategory st |})).
Proof.
  cbv zeta. unfold handleAddCategory. split; [| split].
  - intros ->. reflexivity.
  - intros Hne ->. now destruct (hostTrim (newCategory st)).
  - intros Hne ->. destruct (hostTrim (newCategory st)) eqn:Ht; [contradiction |].
    cbn [nonEmpty negb]. split.
    + now destruct (updateDoc db userId _).
    + intros ->. reflexivity.
Qed.

Lemma add_category_cases_witness :
  @handleAddCategory SampleStrings.strings ManagerScenario.accepting "u" (Scenario.utc 0)
    (ManagerScenario.typing " shopping ")
  = (setError "Category already exists" (ManagerScenario.typing " shopping "), None).
Proof.
  apply (proj1 (proj2 (@add_category_cases SampleStrings.strings
                         ManagerScenario.accepting "u" (Scenario.utc 0)
                         (ManagerScenario.typing " shopping "))));
    [discriminate | reflexivity].
Defined.

(** A delete that the store accepts leaves no category with the id given
    and every other category in place; it changes nothing when no category
    has the id, and a second delete of the same id changes nothing more. *)
Theorem delete_category_removes `{JsStrings} (db : Firestore) (userId categoryId : string)
        (st : State) :
  (forall payload, updateDoc db userId payload = Ok tt) ->
  let st' := fst (handleDeleteCategory db userId categoryId st) in
  (forall cat, In cat (categories st')
               <-> In cat (categories st) /\ id cat <> categoryId)
  /\ categories st' = filter (fun cat => negb (id cat =? categoryId)) (categories st)
  /\ (Forall (fun cat => id cat <> categoryId) (categories st) ->
      categories st' = categories st)
  /\ categories (fst (handleDeleteCategory db userId categoryId st')) = categories st'.
Proof.
  intros Hok. cbv zeta. unfold handleDeleteCategory. rewrite !Hok.
  cbn [fst categories setCategories].
  split; [| split; [| split]].
  - intros cat. rewrite filter_In, negb_true_iff, String.eqb_neq. tauto.
  - reflexivity.
  - intros Habsent. apply ManagerFacts.filter_absent.
    eapply Forall_impl; [| exact Habsent].
    intros cat Hne. now apply negb_true_iff, String.eqb_neq.
  - apply ManagerFacts.filter_idempotent.
Qed.

Lemma delete_category_removes_witness :
  map id (categories (fst (@handleDeleteCategory ManagerScenario.accepting "u" "3"
                             (ManagerScenario.typing ""))))
  = ["1"; "2"; "4"; "5"; "6"].
Proof.
  destruct (@delete_category_removes SampleStrings.strings ManagerScenario.accepting
              "u" "3" (ManagerScenario.typing "") ltac:(reflexivity))
    as (_ & -> & _).
  reflexivity.
Defined.

(** Adding a category and then deleting it by its id gives the list back,
    when no category had that id before and the store accepts both
    writes. *)
Theorem add_then_delete `{JsStrings} (db : Firestore) (userId : string) (now : float)
        (st : State) :
  (forall payload, updateDoc db userId payload = Ok tt) ->
  Forall (fun cat => id cat <> hostNumberToString now) (categories st) ->
  categories
    (fst (handleDeleteCategory db userId (hostNumberToString now)
            (fst (handleAddCategory db userId now st))))
  = categories st.
Proof.
  intros Hok Hfresh. unfold handleDeleteCategory, handleAddCategory.
  assert (Hkeep : filter (fun cat => negb (id cat =? hostNumberToString now)) (categories st)
                  = categories st).
  { apply ManagerFacts.filter_absent. eapply Forall_impl; [| exact Hfresh].
    intros cat Hne. now apply negb_true_iff, String.eqb_neq. }
  destruct (negb (nonEmpty (hostTrim (newCategory st))));
    [cbn [fst categories setError]; rewrite Hok; cbn [fst categories setCategories];
     exact Hkeep |].
  destruct (existsb _ (categories st));
    [cbn [fst categories setError]; rewrite Hok; cbn [fst categories setCategories];
     exact Hkeep |].
  rewrite !Hok. cbn [fst categories setError setNewCategory setCategories].
  rewrite filter_app, Hkeep. cbn [filter id].
  rewrite String.eqb_refl. cbn [negb]. apply app_nil_r.
Qed.

Lemma add_then_delete_witness :
  let st := ManagerScenario.typing "Travel" in
  categories
    (fst (@handleDeleteCategory ManagerScenario.accepting "u"
            (@hostNumberToString SampleStrings.strings (Scenario.utc 0))
            (fst (@handleAddCategory SampleStrings.strings ManagerScenario.accepting "u"
                    (Scenario.utc 0) st))))
  = categories st.
Proof.
  cbv zeta.
  apply (@add_then_delete SampleStrings.strings ManagerScenario.accepting "u"
           (Scenario.utc 0) (ManagerScenario.typing "Travel")).
  - reflexivity.
  - vm_compute. repeat constructor; discriminate.
Defined.

(** A budget update that the store accepts keeps the categories, their
    order, ids and names; every category with the id given gets the number
    the text converts to, and every other keeps its budget. *)
Theorem update_category_budget `{JsHost} `{JsStrings} (db : Firestore)
        (userId categoryId newBudget : string) (st : State) :
  (forall payload, updateDoc db userId payload = Ok tt) ->
  let st' := fst (handleUpdateCategory db userId categoryId newBudget st) in
  map id (categories st') = map id (categories st)
  /\ map name (categories st') = map name (categories st)
  /\ (forall i cat, nth_error (categories st) i = Some cat ->
                    exists cat',
                      nth_error (categories st') i = Some cat'
                      /\ budget cat'
                         = if id cat =? categoryId then hostToNumber newBudget
                           else budget cat)
  /\ (Forall (fun cat => id cat <> categoryId) (categories st) ->
      categories st' = categories st).
Proof.
  intros Hok. cbv zeta. unfold handleUpdateCategory. rewrite Hok.
  cbn [fst categories setCategories].
  split; [| split; [| split]].
  - rewrite map_map. apply map_ext. intros cat. now destruct (id cat =? categoryId).
  - rewrite map_map. apply map_ext. intros cat. now destruct (id cat =? categoryId).
  - intros i cat Hi. eexists. split.
    + rewrite nth_error_map, Hi. reflexivity.
    + now destruct (id cat =? categoryId).
  - intros Habsent. rewrite <- (map_id (categories st)) at 2.
    apply map_ext_in. intros cat Hin.
    rewrite Forall_forall in Habsent. specialize (Habsent cat Hin).
    apply String.eqb_neq in Habsent. now rewrite Habsent.
Qed.

Lemma update_category_budget_witness :
  map (fun cat => (id cat, budget cat))
      (categories (fst (@handleUpdateCategory SampleHost.host ManagerScenario.accepting
                          "u" "3" "120.50" (ManagerScenario.typing ""))))
  = [("1", 0); ("2", 0); ("3", 120.5); ("4", 0); ("5", 0); ("6", 0)]%float
  /\ map name (categories (fst (@handleUpdateCategory SampleHost.host
                                  ManagerScenario.accepting "u" "3" "120.50"
                                  (ManagerScenario.typing ""))))
     = map name defaultCategories.
Proof.
  split; [vm_compute; reflexivity |].
  apply (@update_category_budget SampleHost.host SampleStrings.strings
           ManagerScenario.accepting "u" "3" "120.50" (ManagerScenario.typing "")).
  reflexivity.
Defined.
